(** * galman: content keys, decision lists, import and review

    A shallow embedding of [galman.py].  Python values are modelled as
    follows: [str] as [string], [bytes] as [list byte], [int] as [Z],
    a [set] of strings as [gset string], and the file system as a finite
    map from path strings to inodes.  Code that performs I/O or may raise
    runs in a state-and-exception monad in which the state survives an
    exception, as it does in Python.

    [hashlib.sha256] is written out and checked on the standard test
    messages.  Of the player (python-mpv) only the playlist is modelled;
    [sort_airlock] and [view_collection], which wait for the player and
    for the keys of the user, are arguments of [main]; what the two do
    before they make a player is given after [main]. *)

From Stdlib Require Import ZArith Ascii String List Lia.
From Stdlib.Strings Require Import Byte.
From stdpp Require Import base option list strings gmap fin_maps fin_sets sorting.

Local Open Scope Z_scope.

(** ** Exceptions and the monad *)

Inductive exn :=
  | FileNotFoundError
  | FileExistsError
  | IsADirectoryError
  | ValueError
  | TypeError
  | IndexError
  | SystemExit (code : Z)
  | OtherError (what : string).

Inductive result (A : Type) :=
  | Ok (a : A)
  | Raise (e : exn).
Arguments Ok {A} a.
Arguments Raise {A} e.

(** A computation over a state [S]: the state reached is returned also
    when the computation raises. *)
Definition M (S A : Type) : Type := S → result A * S.

Definition ret {S A} (a : A) : M S A := λ s, (Ok a, s).
Definition raise {S A} (e : exn) : M S A := λ s, (Raise e, s).
Definition bind {S A B} (m : M S A) (k : A → M S B) : M S B :=
  λ s, match m s with
       | (Ok a, s') => k a s'
       | (Raise e, s') => (Raise e, s')
       end.
Definition modify {S} (f : S → S) : M S unit := λ s, (Ok tt, f s).
Definition lift_result {S A} (r : result A) : M S A := λ s, (r, s).

Notation "'let*' x ':=' m 'in' k" := (bind m (λ x, k))
  (at level 10, x pattern, m at level 100, k at level 200, only parsing).
Notation "m ';;' k" := (bind m (λ _, k))
  (at level 100, k at level 200, right associativity, only parsing).

(** [for x in xs: body x] *)
Fixpoint for_each {S A} (xs : list A) (body : A → M S unit) : M S unit :=
  match xs with
  | [] => ret tt
  | x :: xs' => body x ;; for_each xs' body
  end.

(** ** Python built-ins used by the program *)

Module Py.

Definition newline : ascii := "010"%char.
Definition carriage_return : ascii := "013"%char.
Definition slash : ascii := "/"%char.
Definition dot : ascii := "."%char.

(** [s.split('\n')] *)
Fixpoint split_lines (s : string) : list string :=
  match s with
  | EmptyString => [EmptyString]
  | String c s' =>
      if Ascii.eqb c newline then EmptyString :: split_lines s'
      else match split_lines s' with
           | [] => [String c EmptyString]
           | l :: ls => String c l :: ls
           end
  end.

(** Reading in text mode with the default [newline=None]: every
    [\r\n] and every lone [\r] arrives as [\n]. *)
Fixpoint universal_newlines (s : string) : string :=
  match s with
  | EmptyString => EmptyString
  | String c s' =>
      if Ascii.eqb c carriage_return then
        match s' with
        | String c' s'' =>
            if Ascii.eqb c' newline then String newline (universal_newlines s'')
            else String newline (universal_newlines s')
        | EmptyString => String newline EmptyString
        end
      else String c (universal_newlines s')
  end.

(** The text codec, on 8-bit characters (the keys are ASCII). *)
Definition decode (b : list byte) : string := string_of_list_byte b.
Definition encode (s : string) : list byte := list_byte_of_string s.

(** The digit [d] of ["0123456789abcdef"]. *)
Definition hex_char (d : Z) : ascii :=
  match String.get (Z.to_nat d) "0123456789abcdef" with
  | Some c => c
  | None => "f"%char
  end.

Fixpoint hex_digits_from (fuel : nat) (n : Z) (acc : string) : string :=
  match fuel with
  | O => acc
  | S fuel' =>
      let acc' := String (hex_char (n mod 16)) acc in
      if n / 16 =? 0 then acc' else hex_digits_from fuel' (n / 16) acc'
  end.

(** The digits of [format(n, 'x')] for [0 <= n]. *)
Definition hex_digits (n : Z) : string :=
  hex_digits_from (S (Z.to_nat (Z.log2 n))) n EmptyString.

Fixpoint zeros (n : nat) : string :=
  match n with
  | O => EmptyString
  | S n' => String "0"%char (zeros n')
  end.

(** ['{0:0<width>x}'.format(data)]: lowercase hexadecimal, the sign
    first, zeros between the sign and the digits up to [width]
    characters; a wider number is not truncated.  A negative [width]
    makes the format specification invalid. *)
Definition format_0x (width data : Z) : result string :=
  if width <? 0 then Raise ValueError
  else
    let sign := if data <? 0 then "-" else "" in
    let digits := hex_digits (Z.abs data) in
    let pad :=
      (Z.to_nat width - String.length sign - String.length digits)%nat in
    Ok (sign +:+ zeros pad +:+ digits).

Definition hex_value (c : ascii) : option Z :=
  let n := Z.of_N (N_of_ascii c) in
  if (48 <=? n) && (n <=? 57) then Some (n - 48)
  else if (97 <=? n) && (n <=? 102) then Some (n - 87)
  else if (65 <=? n) && (n <=? 70) then Some (n - 55)
  else None.

Fixpoint int16_from (acc : Z) (s : string) : result Z :=
  match s with
  | EmptyString => Ok acc
  | String c s' =>
      match hex_value c with
      | Some d => int16_from (16 * acc + d) s'
      | None => Raise ValueError
      end
  end.

(** [int(s, 16)] on a string of hexadecimal digits. *)
Definition int16 (s : string) : result Z :=
  match s with
  | EmptyString => Raise ValueError
  | _ => int16_from 0 s
  end.

Fixpoint insert_sorted (x : string) (l : list string) : list string :=
  match l with
  | [] => [x]
  | y :: l' => if String.leb x y then x :: l else y :: insert_sorted x l'
  end.

(** [sorted(l)] on a list of strings. *)
Definition sorted (l : list string) : list string :=
  foldr insert_sorted [] l.

End Py.

(** ** hashlib.sha256 (FIPS 180-4) *)

Module Sha256.

Definition w32 (x : Z) : Z := x mod 2 ^ 32.
Definition add32 (x y : Z) : Z := w32 (x + y).
Definition rotr (n x : Z) : Z :=
  w32 (Z.lor (Z.shiftr x n) (Z.shiftl x (32 - n))).
Definition shr (n x : Z) : Z := Z.shiftr x n.
Definition not32 (x : Z) : Z := 2 ^ 32 - 1 - x.

Definition Ch (x y z : Z) : Z := Z.lxor (Z.land x y) (Z.land (not32 x) z).
Definition Maj (x y z : Z) : Z :=
  Z.lxor (Z.lxor (Z.land x y) (Z.land x z)) (Z.land y z).
Definition Sigma0 (x : Z) : Z :=
  Z.lxor (Z.lxor (rotr 2 x) (rotr 13 x)) (rotr 22 x).
Definition Sigma1 (x : Z) : Z :=
  Z.lxor (Z.lxor (rotr 6 x) (rotr 11 x)) (rotr 25 x).
Definition sigma0 (x : Z) : Z :=
  Z.lxor (Z.lxor (rotr 7 x) (rotr 18 x)) (shr 3 x).
Definition sigma1 (x : Z) : Z :=
  Z.lxor (Z.lxor (rotr 17 x) (rotr 19 x)) (shr 10 x).

Definition is_prime (n : Z) : bool :=
  forallb (λ d, negb (n mod Z.of_nat d =? 0)) (seq 2 (Z.to_nat n - 2)).

(** The primes 2, 3, ..., 311: there are sixty-four of them. *)
Definition primes : list Z :=
  filter (λ n, is_prime n = true) (map Z.of_nat (seq 2 310)).

(** The integer cube root of [n], one bit at a time from bit [bits]. *)
Fixpoint cube_root (bits : nat) (n r : Z) : Z :=
  match bits with
  | O => r
  | S bits' =>
      let r' := r + 2 ^ Z.of_nat bits' in
      if r' * r' * r' <=? n then cube_root bits' n r' else cube_root bits' n r
  end.

(** The round constants: the first thirty-two bits of the fractional
    parts of the cube roots of the first sixty-four primes. *)
Definition K : list Z :=
  Eval vm_compute in map (λ p, w32 (cube_root 40 (p * 2 ^ 96) 0)) primes.

(** The initial hash value: the first thirty-two bits of the fractional
    parts of the square roots of the first eight primes. *)
Definition H0 : list Z :=
  Eval vm_compute in map (λ p, w32 (Z.sqrt (p * 2 ^ 64))) (take 8 primes).

Definition byteZ (b : byte) : Z := Z.of_N (Byte.to_N b).
Definition Zbyte (z : Z) : byte :=
  match Byte.of_N (Z.to_N (z mod 256)) with
  | Some b => b
  | None => Byte.x00
  end.

(** Big-endian bytes of [x], [n] of them. *)
Fixpoint be_bytes (n : nat) (x : Z) : list byte :=
  match n with
  | O => []
  | S n' => Zbyte (Z.shiftr x (8 * Z.of_nat n')) :: be_bytes n' x
  end.

Definition be_word (bs : list byte) : Z :=
  fold_left (λ acc b, 256 * acc + byteZ b) bs 0.

(** The message followed by [0x80], zeros up to 56 mod 64, and the
    bit length on eight bytes. *)
Definition pad (msg : list byte) : list byte :=
  let len := Z.of_nat (length msg) in
  let k := Z.to_nat ((55 - len) mod 64) in
  msg ++ [Byte.x80] ++ repeat Byte.x00 k ++ be_bytes 8 (8 * len).

Fixpoint words_of (n : nat) (bs : list byte) : list Z :=
  match n with
  | O => []
  | S n' => be_word (take 4 bs) :: words_of n' (drop 4 bs)
  end.

(** The message schedule: [w] holds the words computed so far, the
    latest first. *)
Fixpoint schedule (n : nat) (w : list Z) : list Z :=
  match n with
  | O => w
  | S n' =>
      let at_ i := nth i w 0 in
      let x := add32 (add32 (sigma1 (at_ 1%nat)) (at_ 6%nat))
                     (add32 (sigma0 (at_ 14%nat)) (at_ 15%nat)) in
      schedule n' (x :: w)
  end.

Definition round (st : list Z) (kw : Z * Z) : list Z :=
  match st with
  | [a; b; c; d; e; f; g; h] =>
      let t1 := add32 (add32 (add32 h (Sigma1 e)) (add32 (Ch e f g) (fst kw)))
                      (snd kw) in
      let t2 := add32 (Sigma0 a) (Maj a b c) in
      [add32 t1 t2; a; b; c; add32 d t1; e; f; g]
  | _ => st
  end.

Definition compress (h : list Z) (block : list byte) : list Z :=
  let w := rev (schedule 48 (rev (words_of 16 block))) in
  let st := fold_left round (combine K w) h in
  zip_with add32 h st.

Fixpoint blocks (fuel : nat) (h : list Z) (bs : list byte) : list Z :=
  match fuel with
  | O => h
  | S fuel' =>
      match bs with
      | [] => h
      | _ => blocks fuel' (compress h (take 64 bs)) (drop 64 bs)
      end
  end.

(** [hashlib.sha256(msg).digest()] *)
Definition digest (msg : list byte) : list byte :=
  let p := pad msg in
  concat (map (be_bytes 4) (blocks (length p) H0 p)).

Definition hex_of_byte (b : byte) : string :=
  String (Py.hex_char (byteZ b / 16))
    (String (Py.hex_char (byteZ b mod 16)) EmptyString).

(** [hashlib.sha256(msg).hexdigest()] *)
Definition hexdigest (msg : list byte) : string :=
  foldr (λ b s, hex_of_byte b +:+ s) EmptyString (digest msg).

End Sha256.

(** ** The world: file system, standard output, and a record of the
    files that were opened for hashing *)

Inductive inode :=
  | File (data : list byte)
  | Dir.

Global Instance byte_eq_dec : EqDecision byte := Byte.byte_eq_dec.

Global Instance inode_eq_dec : EqDecision inode.
Proof. solve_decision. Defined.

(** Paths are taken literally: an entry is identified by its path
    string, there are no symbolic links, and the parent directory of a
    path that gets created is assumed to exist.  [hashed] is ghost
    state: the paths [get_file_hash] has opened, latest last. *)
Record World := {
  fs : gmap string inode;
  stdout : list string;
  hashed : list string
}.

Definition set_fs (f : gmap string inode → gmap string inode) (w : World) : World :=
  {| fs := f (fs w); stdout := stdout w; hashed := hashed w |}.

(** [print(line)] *)
Definition print (line : string) : M World unit :=
  modify (λ w, {| fs := fs w; stdout := stdout w ++ [line]; hashed := hashed w |}).

Definition log_hashed (fname : string) : M World unit :=
  modify (λ w, {| fs := fs w; stdout := stdout w; hashed := hashed w ++ [fname] |}).

Module Os.

Fixpoint has_slash (s : string) : bool :=
  match s with
  | EmptyString => false
  | String c s' => Ascii.eqb c Py.slash || has_slash s'
  end.

Fixpoint ends_with_slash (s : string) : bool :=
  match s with
  | EmptyString => false
  | String c EmptyString => Ascii.eqb c Py.slash
  | String _ s' => ends_with_slash s'
  end.

Definition starts_with_slash (s : string) : bool :=
  match s with
  | String c _ => Ascii.eqb c Py.slash
  | EmptyString => false
  end.

(** The directory part that [join] puts before a relative name. *)
Definition dir_prefix (a : string) : string :=
  if bool_decide (a = "") || ends_with_slash a then a else a +:+ "/".

(** [os.path.join(a, b)] (posixpath) *)
Definition join (a b : string) : string :=
  if starts_with_slash b then b
  else if bool_decide (a = "") || ends_with_slash a then a +:+ b
  else a +:+ "/" +:+ b.

(** [os.path.basename(p)]: what follows the last slash. *)
Fixpoint basename (p : string) : string :=
  match p with
  | EmptyString => EmptyString
  | String c p' =>
      if has_slash p' then basename p'
      else if Ascii.eqb c Py.slash then p' else p
  end.

Fixpoint strip_dots (s : string) : string :=
  match s with
  | String c s' => if Ascii.eqb c Py.dot then strip_dots s' else s
  | EmptyString => EmptyString
  end.

Fixpoint from_last_dot (s : string) : option string :=
  match s with
  | EmptyString => None
  | String c s' =>
      match from_last_dot s' with
      | Some e => Some e
      | None => if Ascii.eqb c Py.dot then Some s else None
      end
  end.

(** [os.path.splitext(p)]: the extension starts at the last dot of
    the last component, leading dots of the component not counted. *)
Definition splitext (p : string) : string * string :=
  match from_last_dot (strip_dots (basename p)) with
  | Some ext =>
      (String.substring 0 (String.length p - String.length ext) p, ext)
  | None => (p, EmptyString)
  end.

Definition isdir (p : string) : M World bool :=
  λ w, (Ok (bool_decide (fs w !! p = Some Dir)), w).

Definition isfile (p : string) : M World bool :=
  λ w, (Ok (match fs w !! p with Some (File _) => true | _ => false end), w).

Definition exists_ (p : string) : M World bool :=
  λ w, (Ok (bool_decide (is_Some (fs w !! p))), w).

(** [os.mkdir(p)] *)
Definition mkdir (p : string) : M World unit :=
  λ w, match fs w !! p with
       | Some _ => (Raise FileExistsError, w)
       | None => (Ok tt, set_fs (insert p Dir) w)
       end.

(** [os.remove(p)] *)
Definition remove (p : string) : M World unit :=
  λ w, match fs w !! p with
       | Some (File _) => (Ok tt, set_fs (delete p) w)
       | Some Dir => (Raise IsADirectoryError, w)
       | None => (Raise FileNotFoundError, w)
       end.

(** The size a directory inode reports is specific to the file
    system; 4096 is what ext4 reports. *)
Definition dir_size : Z := 4096.

(** [os.path.getsize(p)] *)
Definition getsize (p : string) : M World Z :=
  λ w, match fs w !! p with
       | Some (File data) => (Ok (Z.of_nat (length data)), w)
       | Some Dir => (Ok dir_size, w)
       | None => (Raise FileNotFoundError, w)
       end.

(** [open(p, 'rb')] or [open(p, 'r')]: the bytes still to be read. *)
Definition open_r (p : string) : M World (list byte) :=
  λ w, match fs w !! p with
       | Some (File data) => (Ok data, w)
       | Some Dir => (Raise IsADirectoryError, w)
       | None => (Raise FileNotFoundError, w)
       end.

(** [open(p, 'a').close()] *)
Definition open_a_close (p : string) : M World unit :=
  λ w, match fs w !! p with
       | Some (File _) => (Ok tt, w)
       | Some Dir => (Raise IsADirectoryError, w)
       | None => (Ok tt, set_fs (insert p (File [])) w)
       end.

(** [open(p, 'w')]: the file is created or truncated. *)
Definition open_w (p : string) : M World unit :=
  λ w, match fs w !! p with
       | Some Dir => (Raise IsADirectoryError, w)
       | _ => (Ok tt, set_fs (insert p (File [])) w)
       end.

(** [outfile.write(more)] on the file opened at [p]; a text is
    written as the bytes that encode it. *)
Definition write (p : string) (more : list byte) : M World unit :=
  λ w, match fs w !! p with
       | Some (File data) => (Ok tt, set_fs (insert p (File (data ++ more))) w)
       | _ => (Raise (OtherError "write to a closed file"), w)
       end.

Fixpoint strip_prefix (pre s : string) : option string :=
  match pre, s with
  | EmptyString, _ => Some s
  | String a pre', String b s' =>
      if Ascii.eqb a b then strip_prefix pre' s' else None
  | String _ _, EmptyString => None
  end.

(** The name under which [p] is an entry of the directory [top]. *)
Definition entry_name (top p : string) : option string :=
  match strip_prefix (dir_prefix top) p with
  | Some name =>
      if bool_decide (name = "") || has_slash name then None else Some name
  | None => None
  end.

(** [os.scandir(top)]: the names in the directory.  The order in which
    a file system lists them is its own; here it is the order of the
    elements of the set of names. *)
Definition scandir (m : gmap string inode) (top : string) : list string :=
  elements (set_omap (entry_name top) (dom m) : gset string).

(** [for x in os.walk(top, topdown=False): body x].  The walk is a
    generator, so it runs in turns with the body of the loop: a
    directory is listed when the walk enters it, and its entries are
    told apart then; its subdirectories are walked one after the
    other, each listed when its turn comes, and so a listing shows what
    the body has written before; the triple of the directory itself is
    handed to the body last.  A [top] that is not a directory yields
    nothing.  [fuel] bounds the depth of the walk. *)
Fixpoint for_walk_from (fuel : nat) (top : string)
    (body : string * list string * list string → M World unit)
  : M World unit :=
  match fuel with
  | O => ret tt
  | S fuel' =>
      λ w,
        if bool_decide (fs w !! top = Some Dir) then
          let names := scandir (fs w) top in
          let dirs := filter (λ n, fs w !! join top n = Some Dir) names in
          let nondirs := filter (λ n, fs w !! join top n ≠ Some Dir) names in
          (for_each dirs (λ d, for_walk_from fuel' (join top d) body) ;;
           body (top, dirs, nondirs)) w
        else (Ok tt, w)
  end.

(** A path names at most one entry, and a directory lies below fewer
    directories than there are entries: with more fuel than entries
    the walk reaches every directory, as long as the body makes no
    directory. *)
Definition for_walk (top : string)
    (body : string * list string * list string → M World unit)
  : M World unit :=
  λ w, for_walk_from (S (size (fs w))) top body w.

End Os.

Module Shutil.

(** [shutil.copy(src, dst, follow_symlinks=True)] *)
Definition copy (src dst : string) : M World unit :=
  let* into := Os.isdir dst in
  let dst := if into then Os.join dst (Os.basename src) else dst in
  if bool_decide (src = dst) then raise (OtherError "SameFileError")
  else
    let* data := Os.open_r src in
    Os.open_w dst ;;
    Os.write dst data.

(** [shutil.move(src, dst)] of a regular file; moving a directory is
    not modelled. *)
Definition move (src dst : string) : M World unit :=
  let* into := Os.isdir dst in
  let* real_dst :=
    (if into then
       let real_dst := Os.join dst (Os.basename src) in
       let* taken := Os.exists_ real_dst in
       if taken then raise (OtherError "Destination path already exists")
       else ret real_dst
     else ret dst) in
  λ w, match fs w !! src with
       | None => (Raise FileNotFoundError, w)
       | Some Dir => (Raise (OtherError "directory move not modelled"), w)
       | Some (File data) =>
           match fs w !! real_dst with
           | Some Dir => (Raise IsADirectoryError, w)
           | _ => (Ok tt, set_fs (λ m, <[real_dst := File data]> (delete src m)) w)
           end
       end.

End Shutil.

(** ** galman.py *)

Definition HASH_LENGTH : Z := 32.
Definition SIZE_LENGTH : Z := 8.

Definition IGNORED_EXT : gset string := {[ ".tags"; ".swf"; ".json" ]}.

Definition BLACKLIST_FILE : string := ".blacklist".
Definition WHITELIST_FILE : string := ".whitelist".

Definition AIRLOCK_DIR : string := ".airlock".
Definition GALLERY_DIR : string := "Gallery".

Definition get_file_extension (fname : string) : string :=
  let '(_, ext) := Os.splitext fname in ext.

Definition hex_encode (data length : Z) : result string :=
  Py.format_0x length data.

(** The loop [for chunk in iter(lambda: infile.read(4096), b'')]: the
    hash object is the sequence of bytes it has been fed. *)
Fixpoint hash_chunks (fuel : nat) (infile hash_sha : list byte) : list byte :=
  match fuel with
  | O => hash_sha
  | S fuel' =>
      match take 4096 infile with
      | [] => hash_sha
      | chunk => hash_chunks fuel' (drop 4096 infile) (hash_sha ++ chunk)
      end
  end.

(** With a negative [hash_length] Python computes the modulus in
    floating point and then fails; here the failure is the one of
    [hex_encode]. *)
Definition get_file_hash (fname : string) (hash_length : Z) : M World string :=
  log_hashed fname ;;
  let* infile := Os.open_r fname in
  let hash_sha := hash_chunks (S (length infile)) infile [] in
  let hash_sha := Sha256.hexdigest hash_sha in
  let* hash_sha := lift_result (Py.int16 hash_sha) in
  let hash_sha := hash_sha mod 2 ^ (4 * hash_length) in
  lift_result (hex_encode hash_sha hash_length).

Definition get_file_size (fname : string) (size_length : Z) : M World string :=
  let* size := Os.getsize fname in
  lift_result (hex_encode size size_length).

Definition get_file_key (fname : string) (hash_length size_length : Z)
  : M World string :=
  let* fhash := get_file_hash fname hash_length in
  let* fsize := get_file_size fname size_length in
  ret (fhash +:+ fsize).

Definition read_file_keys (fname : string) : M World (gset string) :=
  let* infile := Os.open_r fname in
  let fkeys := Py.split_lines (Py.universal_newlines (Py.decode infile)) in
  ret (list_to_set fkeys).

(** The set is iterated in the order of [elements]. *)
Definition write_file_keys (fname : string) (fkeys : gset string) : M World unit :=
  Os.open_w fname ;;
  for_each (elements fkeys) (λ fkey,
    Os.write fname (Py.encode (fkey +:+ String Py.newline EmptyString))).

Module Collection.

Record t := {
  directory : string;
  blacklist : gset string;
  whitelist : gset string
}.

Definition __init__ (col : string) : M World t :=
  let directory := col in
  let* d := Os.isdir directory in
  (if negb d then Os.mkdir directory else ret tt) ;;
  let blacklist := Os.join directory BLACKLIST_FILE in
  let* f := Os.isfile blacklist in
  (if negb f then Os.open_a_close blacklist else ret tt) ;;
  let whitelist := Os.join directory WHITELIST_FILE in
  let* f := Os.isfile whitelist in
  (if negb f then Os.open_a_close whitelist else ret tt) ;;
  let airlock := Os.join directory AIRLOCK_DIR in
  let* d := Os.isdir airlock in
  (if negb d then Os.mkdir airlock else ret tt) ;;
  let gallery := Os.join directory GALLERY_DIR in
  let* d := Os.isdir gallery in
  (if negb d then Os.mkdir gallery else ret tt) ;;
  let* bl := read_file_keys blacklist in
  let* wl := read_file_keys whitelist in
  ret {| directory := directory; blacklist := bl; whitelist := wl |}.

Definition __exit__ (self : t) : M World unit :=
  let blacklist_file := Os.join (directory self) BLACKLIST_FILE in
  let whitelist_file := Os.join (directory self) WHITELIST_FILE in
  write_file_keys blacklist_file (blacklist self) ;;
  write_file_keys whitelist_file (whitelist self).

Definition is_blacklisted (self : t) (fkey : string) : bool :=
  bool_decide (fkey ∈ blacklist self).

Definition is_whitelisted (self : t) (fkey : string) : bool :=
  bool_decide (fkey ∈ whitelist self).

Definition blacklist_file (self : t) (fkey : string) : t :=
  {| directory := directory self;
     blacklist := blacklist self ∪ list_to_set [fkey];
     whitelist := whitelist self |}.

Definition whitelist_file (self : t) (fkey : string) : t :=
  {| directory := directory self;
     blacklist := blacklist self;
     whitelist := whitelist self ∪ list_to_set [fkey] |}.

Definition get_airlock (self : t) : string :=
  Os.join (directory self) AIRLOCK_DIR.

Definition get_gallery (self : t) : string :=
  Os.join (directory self) GALLERY_DIR.

End Collection.

(** The body of the inner loop of [import_files], for the file [fil]
    of the directory [root]. *)
Definition import_file (col : Collection.t) (root fil : string) : M World unit :=
  let fname := Os.join root fil in
  let ext := get_file_extension fil in
  let* fkey := get_file_key fname HASH_LENGTH SIZE_LENGTH in
  if bool_decide (ext ∈ IGNORED_EXT) then
    print ("- Ignored: " +:+ fname)
  else if negb (Collection.is_blacklisted col fkey)
          && negb (Collection.is_whitelisted col fkey) then
    let target := fkey +:+ ext in
    let target := Os.join (Collection.get_airlock col) target in
    let* present := Os.exists_ target in
    if negb present then
      Shutil.copy fname target ;;
      print ("+ Copied:  " +:+ fname +:+ " -> " +:+ target)
    else ret tt
  else
    print ("- Ignored: " +:+ fname).

Definition import_files (col : Collection.t) (src : string) : M World unit :=
  Os.for_walk src (λ '(root, _, files),
    for_each (Py.sorted files) (λ fil, import_file col root fil)).

(** *** The review handlers

    The player is python-mpv's: only its playlist is modelled, the
    entries and the position of the current one.  The handlers close
    over the collection and the player, two objects they share with
    their caller; a [Session] holds both next to the world. *)

Record Player := {
  playlist : list string;
  playlist_pos : option nat
}.

Record Session := {
  col : Collection.t;
  player : Player;
  world : World
}.

(** Runs a computation on the world of a session. *)
Definition in_world {A} (m : M World A) : M Session A :=
  λ s, let '(r, w) := m (world s) in
       (r, {| col := col s; player := player s; world := w |}).

Definition update_col (f : Collection.t → Collection.t) : M Session unit :=
  modify (λ s, {| col := f (col s); player := player s; world := world s |}).

(** [player.playlist[player.playlist_pos]['filename']] *)
Definition current_filename : M Session string :=
  λ s, match playlist_pos (player s) with
       | None => (Raise TypeError, s)
       | Some i =>
           match playlist (player s) !! i with
           | Some fname => (Ok fname, s)
           | None => (Raise IndexError, s)
           end
       end.

(** [player.playlist_remove()]: the current entry leaves the playlist
    and the entry after it, if any, becomes the current one. *)
Definition playlist_remove : M Session unit :=
  modify (λ s,
    let p := player s in
    let p' :=
      match playlist_pos p with
      | None => p
      | Some i =>
          let entries := delete i (playlist p) in
          {| playlist := entries;
             playlist_pos := if bool_decide (i < length entries)%nat
                             then Some i else None |}
      end in
    {| col := col s; player := p'; world := world s |}).

(** [state[0] == 'u'] *)
Definition key_up (state : string) : result bool :=
  match state with
  | String c _ => Ok (Ascii.eqb c "u")
  | EmptyString => Raise IndexError
  end.

Definition blacklist_handler (state : string) : M Session unit :=
  let* up := lift_result (key_up state) in
  if up then
    let* fname := current_filename in
    let* fkey := in_world (get_file_key fname HASH_LENGTH SIZE_LENGTH) in
    update_col (λ c, Collection.blacklist_file c fkey) ;;
    playlist_remove ;;
    in_world (Os.remove fname) ;;
    in_world (print ("Blacklisted: " +:+ fname))
  else ret tt.

Definition whitelist_handler (state : string) : M Session unit :=
  let* up := lift_result (key_up state) in
  if up then
    let* fname := current_filename in
    let* fkey := in_world (get_file_key fname HASH_LENGTH SIZE_LENGTH) in
    update_col (λ c, Collection.whitelist_file c fkey) ;;
    playlist_remove ;;
    let basename := Os.basename fname in
    let* gallery := (λ s, (Ok (Collection.get_gallery (col s)), s)) in
    in_world (Shutil.move fname (Os.join gallery basename)) ;;
    in_world (print ("Whitelisted: " +:+ fname))
  else ret tt.

(** *** The main program

    [with Collection(c) as COL: body]: the body runs on the collection
    object and the world; [__exit__] runs when the body returns and when
    it raises, on the object as the body left it, and an exception of the
    body is raised again after it. *)
Definition with_Collection (c : string) (body : M (Collection.t * World) unit)
  : M World unit :=
  λ w, match Collection.__init__ c w with
       | (Raise e, w1) => (Raise e, w1)
       | (Ok COL, w1) =>
           let '(r, (COL', w2)) := body (COL, w1) in
           match Collection.__exit__ COL' w2 with
           | (Raise e, w3) => (Raise e, w3)
           | (Ok _, w3) => (r, w3)
           end
       end.

(** A computation that reads the collection and acts on the world. *)
Definition on_world (m : Collection.t → M World unit) : M (Collection.t * World) unit :=
  λ '(COL, w), let '(r, w') := m COL w in (r, (COL, w')).

Record Args := {
  collection : option string;
  source : option string;
  view : option string
}.

Section Main.

(** [sort_airlock] and [view_collection] are driven by the player and
    by the keys the user presses; [main] takes their behaviour, and the
    one of [int], as given. *)
Variable sort_airlock : M (Collection.t * World) unit.
Variable view_collection : Z → M (Collection.t * World) unit.
Variable int : string → result Z.

Definition truthy (a : option string) : bool :=
  match a with
  | Some (String _ _) => true
  | _ => false
  end.

Definition opened (c : option string) (body : M (Collection.t * World) unit)
  : M World unit :=
  match c with
  | Some c => with_Collection c body
  | None => raise TypeError
  end.

Definition main (ARGS : Args) : M World unit :=
  if truthy (source ARGS) then
    let src := default "" (source ARGS) in
    let* d := Os.isdir src in
    if negb d then
      print ("Soure directory " +:+ src +:+ " does not exist.") ;;
      raise (SystemExit (-1))
    else
      opened (collection ARGS) (on_world (λ COL, import_files COL src))
  else if truthy (view ARGS) then
    opened (collection ARGS)
      (let* wait := lift_result (int (default "" (view ARGS))) in
       view_collection wait)
  else
    opened (collection ARGS) sort_airlock.

End Main.

(** ** Notions used in the statements *)

Definition is_lower_hex (c : ascii) : bool :=
  let n := Z.of_N (N_of_ascii c) in
  ((48 <=? n) && (n <=? 57)) || ((97 <=? n) && (n <=? 102)).

Fixpoint all_chars (P : ascii → bool) (s : string) : bool :=
  match s with
  | EmptyString => true
  | String c s' => P c && all_chars P s'
  end.

(** The hash field and the key as functions of the bytes of a file. *)
Definition hash_field (data : list byte) (hash_length : Z) : result string :=
  match Py.int16 (Sha256.hexdigest data) with
  | Ok n => hex_encode (n mod 2 ^ (4 * hash_length)) hash_length
  | Raise e => Raise e
  end.

Definition content_key (data : list byte) (hash_length size_length : Z)
  : result string :=
  match hash_field data hash_length with
  | Ok fhash =>
      match hex_encode (Z.of_nat (length data)) size_length with
      | Ok fsize => Ok (fhash +:+ fsize)
      | Raise e => Raise e
      end
  | Raise e => Raise e
  end.

(** The world after [fname] was opened for hashing. *)
Definition logged (fname : string) (w : World) : World :=
  {| fs := fs w; stdout := stdout w; hashed := hashed w ++ [fname] |}.

(** The world after a line was printed. *)
Definition printed (line : string) (w : World) : World :=
  {| fs := fs w; stdout := stdout w ++ [line]; hashed := hashed w |}.

(** A well-formed key: lowercase hexadecimal digits, at least one. *)
Definition well_formed_key (k : string) : Prop :=
  k ≠ "" ∧ all_chars is_lower_hex k = true.

Definition is_line_break (c : ascii) : bool :=
  Ascii.eqb c Py.newline || Ascii.eqb c Py.carriage_return.

Definition no_line_break (k : string) : bool :=
  all_chars (λ c, negb (is_line_break c)) k.

(** What [write_file_keys] writes for the keys [l], in this order. *)
Definition serialize (l : list string) : string :=
  foldr (λ k s, k +:+ String Py.newline s) EmptyString l.

(** What [read_file_keys] makes of the bytes of a file. *)
Definition parse_keys (data : list byte) : gset string :=
  list_to_set (Py.split_lines (Py.universal_newlines (Py.decode data))).

Fixpoint last_char (s : string) : option ascii :=
  match s with
  | EmptyString => None
  | String c EmptyString => Some c
  | String _ s' => last_char s'
  end.

(** A text that is empty or ends with a line break. *)
Definition line_terminated (s : string) : bool :=
  match last_char s with
  | None => true
  | Some c => is_line_break c
  end.

(** A decision list as a collection may find it when it is opened: no
    file yet, or a file whose text is empty or ends with a line break. *)
Definition terminated_list (entry : option inode) : Prop :=
  match entry with
  | Some (File d) => line_terminated (Py.decode d) = true
  | _ => True
  end.

(** A collection whose blacklist was written by hand, without a final
    newline. *)
Definition hand_written_world : World :=
  {| fs := list_to_map
             [ ("col", Dir);
               ("col/.blacklist", File (Py.encode "abc"));
               ("col/.whitelist", File []);
               ("col/.airlock", Dir);
               ("col/Gallery", Dir) ];
     stdout := [];
     hashed := [] |}.

(** [m'] is [m] with regular files added, each directly inside the
    airlock of [col] and each holding the bytes of a file of [m]. *)
Definition staged_from (col : Collection.t) (m m' : gmap string inode) : Prop :=
  ∀ p, m' !! p = m !! p
       ∨ (m !! p = None
          ∧ ∃ name data f,
              p = Os.join (Collection.get_airlock col) name
              ∧ name ≠ "" ∧ Os.has_slash name = false
              ∧ m' !! p = Some (File data)
              ∧ m !! f = Some (File data)).

(** The triples that a walk of [top] hands to the body of its loop,
    in their order, when the tree is [m] at every listing. *)
Fixpoint walk_from (fuel : nat) (m : gmap string inode) (top : string)
  : list (string * list string * list string) :=
  match fuel with
  | O => []
  | S fuel' =>
      if bool_decide (m !! top = Some Dir) then
        let names := Os.scandir m top in
        let dirs := filter (λ n, m !! Os.join top n = Some Dir) names in
        let nondirs := filter (λ n, m !! Os.join top n ≠ Some Dir) names in
        concat (map (λ d, walk_from fuel' m (Os.join top d)) dirs)
          ++ [(top, dirs, nondirs)]
      else []
  end.

(** The body of the outer loop of [import_files]. *)
Definition import_dir (col : Collection.t)
  : string * list string * list string → M World unit :=
  λ '(root, _, files),
    for_each (Py.sorted files) (λ fil, import_file col root fil).

(** The import makes no directory: [D] holds every directory of [w]. *)
Definition dirs_within (D : gset string) (w : World) : Prop :=
  ∀ p, fs w !! p = Some Dir → p ∈ D.

(** The files an import goes through, each with its directory, in the
    order of the two loops. *)
Definition walked_files (walked : list (string * list string * list string))
  : list (string * string) :=
  flat_map (λ '(root, _, files), map (λ fil, (root, fil)) (Py.sorted files)) walked.

(** The file [fil] under [root] needs no copy: it can be read and its
    extension is ignored, or its key is known to the collection, or its
    place in the airlock is taken. *)
Definition settled (col : Collection.t) (m : gmap string inode)
    (rf : string * string) : Prop :=
  ∃ data k,
    m !! Os.join rf.1 rf.2 = Some (File data)
    ∧ content_key data HASH_LENGTH SIZE_LENGTH = Ok k
    ∧ (bool_decide (get_file_extension rf.2 ∈ IGNORED_EXT)
         || Collection.is_blacklisted col k || Collection.is_whitelisted col k
       = true
       ∨ is_Some (m !! Os.join (Collection.get_airlock col)
                     (k +:+ get_file_extension rf.2))).

(** Whether the import prints that the file is ignored. *)
Definition reports_ignored (col : Collection.t) (m : gmap string inode)
    (rf : string * string) : bool :=
  match m !! Os.join rf.1 rf.2 with
  | Some (File data) =>
      match content_key data HASH_LENGTH SIZE_LENGTH with
      | Ok k =>
          bool_decide (get_file_extension rf.2 ∈ IGNORED_EXT)
          || Collection.is_blacklisted col k || Collection.is_whitelisted col k
      | Raise _ => false
      end
  | _ => false
  end.

Definition ignored_lines (col : Collection.t) (m : gmap string inode)
    (files : list (string * string)) : list string :=
  flat_map (λ rf, if reports_ignored col m rf
                  then ["- Ignored: " +:+ Os.join rf.1 rf.2] else []) files.

(** The files that the walk of [src] yields in the world [w]. *)
Definition source_files (src : string) (w : World) : list (string * string) :=
  walked_files (walk_from (S (size (fs w))) (fs w) src).

(** A file of 4 GiB, all zero bytes, alone in a world. *)
Definition four_GiB : list byte := repeat Byte.x00 (Z.to_nat 4294967296).

Definition four_GiB_world : World :=
  {| fs := {[ "big.mkv" := File four_GiB ]}; stdout := []; hashed := [] |}.

(** A source tree with two copies of one picture, the same bytes
    under a third name with another extension, and a sidecar file; the
    collection [col] does not exist yet. *)
Definition demo_world : World :=
  {| fs := list_to_map
             [ ("src", Dir);
               ("src/a.jpg", File (Py.encode "X"));
               ("src/b.jpg", File (Py.encode "X"));
               ("src/c.png", File (Py.encode "X"));
               ("src/sub", Dir);
               ("src/sub/m.json", File (Py.encode "{}")) ];
     stdout := [];
     hashed := [] |}.

(** The collection [col] opened on [demo_world] and [src] imported
    into it: the result and the world reached. *)
Definition demo_import : result unit * World :=
  (let* COL := Collection.__init__ "col" in import_files COL "src") demo_world.

(** The player after [playlist_remove] took out the entry [i]. *)
Definition removed (i : nat) (p : Player) : Player :=
  {| playlist := delete i (playlist p);
     playlist_pos := if bool_decide (i < length (delete i (playlist p)))%nat
                     then Some i else None |}.

(** The demo collection, reviewed after the import: the player shows
    the staged picture that came from [src/a.jpg]. *)
Definition demo_review : Session :=
  {| col := {| Collection.directory := "col";
               Collection.blacklist := {[ "" ]};
               Collection.whitelist := {[ "" ]} |};
     player := {| playlist :=
                    [ "col/.airlock/5eab7351ed5e78f4ddadea5df64b801500000001.jpg";
                      "col/.airlock/5eab7351ed5e78f4ddadea5df64b801500000001.png" ];
                  playlist_pos := Some 0%nat |};
     world := demo_import.2 |}.

(** ** The review, up to the player

    [sort_airlock] and [view_collection] list a directory and, with
    nothing in it, say so and return.  What they do once there is
    something to show -- the player they make, the loop that waits for
    it, the handlers that python-mpv calls from a thread of its own --
    is taken as given. *)

(** [os.listdir(p)], in the order of [Os.scandir]. *)
Definition listdir (p : string) : M World (list string) :=
  λ w, match fs w !! p with
       | Some Dir => (Ok (Os.scandir (fs w) p), w)
       | Some (File _) => (Raise (OtherError "NotADirectoryError"), w)
       | None => (Raise FileNotFoundError, w)
       end.

(** A computation that reads the collection and acts on the world. *)
Definition with_col {A} (m : Collection.t → M World A)
  : M (Collection.t * World) A :=
  λ '(COL, w), let '(r, w') := m COL w in (r, (COL, w')).

(** What [quit_handler] closes over: the list [playlist] of
    [sort_airlock], whose entries are still to be shown, and the
    player, of which [quit_called] records that it was told to quit. *)
Record Review := {
  session : Session;
  pending : list string;
  quit_called : bool
}.

Definition quit_handler (state : string) : M Review unit :=
  let* up := lift_result (key_up state) in
  if up then
    modify (λ r, {| session := session r; pending := pending r;
                    quit_called := true |}) ;;
    modify (λ r, {| session := session r; pending := [];
                    quit_called := quit_called r |}) ;;
    (λ r, let '(res, s) := in_world (print "Quitting manually.") (session r) in
          (res, {| session := s; pending := pending r;
                   quit_called := quit_called r |}))
  else ret tt.

Section Review.

(** [play playlist]: [sort_airlock] from [player = mpv.MPV(...)] on;
    [shuffle]: what [random.shuffle] makes of a list;
    [show playlist wait]: [view_collection] from its player on. *)
Variable play : list string → M (Collection.t * World) unit.
Variable shuffle : list string → list string.
Variable show : list string → Z → M (Collection.t * World) unit.

Definition sort_airlock : M (Collection.t * World) unit :=
  let* playlist := with_col (λ col, listdir (Collection.get_airlock col)) in
  let* playlist :=
    with_col (λ col,
      ret (map (λ fil, Os.join (Collection.get_airlock col) fil) playlist)) in
  match playlist with
  | [] =>
      with_col (λ col,
        print (Collection.directory col +:+ ": Airlock empty. Nothing to do."))
  | _ => play playlist
  end.

Definition view_collection (wait : Z) : M (Collection.t * World) unit :=
  let* playlist := with_col (λ col, listdir (Collection.get_gallery col)) in
  let* playlist :=
    with_col (λ col,
      ret (map (λ fil, Os.join (Collection.get_gallery col) fil) playlist)) in
  let playlist := shuffle playlist in
  match playlist with
  | [] =>
      with_col (λ col,
        print (Collection.directory col +:+ ": Gallery empty. Nothing to do."))
  | _ => show playlist wait
  end.

End Review.

(** ** Further notions used in the statements *)

(** Nothing is at the path [c], and nothing below it. *)
Definition nothing_at (c : string) (m : gmap string inode) : Prop :=
  m !! c = None ∧ ∀ rest, m !! (Os.dir_prefix c +:+ rest) = None.

(** [w'] is [w] with some of the five entries of the collection [c]
    made: a directory where there was nothing, or an empty list where
    there was nothing. *)
Definition laid_out (c : string) (w w' : World) : Prop :=
  stdout w' = stdout w ∧ hashed w' = hashed w
  ∧ ∀ p, fs w' !! p = fs w !! p
         ∨ (fs w !! p = None
            ∧ ((p = c ∨ p = Os.join c AIRLOCK_DIR ∨ p = Os.join c GALLERY_DIR)
               ∧ fs w' !! p = Some Dir
               ∨ (p = Os.join c BLACKLIST_FILE ∨ p = Os.join c WHITELIST_FILE)
                 ∧ fs w' !! p = Some (File []))).

(** [m'] is [m] with regular files added to the airlock of [col], each
    named by the key of its bytes and an extension that is not ignored,
    the key being one the collection does not know. *)
Definition staged_by_key (col : Collection.t) (m m' : gmap string inode) : Prop :=
  ∀ p, m' !! p = m !! p
       ∨ (m !! p = None
          ∧ ∃ k ext data,
              p = Os.join (Collection.get_airlock col) (k +:+ ext)
              ∧ m' !! p = Some (File data)
              ∧ content_key data HASH_LENGTH SIZE_LENGTH = Ok k
              ∧ (ext ∉ IGNORED_EXT)
              ∧ Collection.is_blacklisted col k = false
              ∧ Collection.is_whitelisted col k = false).

Definition no_dot (s : string) : bool :=
  all_chars (λ c, negb (Ascii.eqb c Py.dot)) s.

(** A decision list of ASCII text, which the codec of [Py] decodes as
    Python does, or no list yet. *)
Definition ascii_list (entry : option inode) : Prop :=
  match entry with
  | Some (File d) => forallb (λ b, Sha256.byteZ b <? 128) d = true
  | _ => True
  end.

(** The order of [sorted] on names. *)
Definition name_le (a b : string) : Prop := String.leb a b = true.

(** [m'] is [m] with regular files added: no entry of [m] is changed
    or gone, and no directory is new. *)
Definition grown (m m' : gmap string inode) : Prop :=
  m ⊆ m' ∧ ∀ p, m' !! p = Some Dir → m !! p = Some Dir.

(** What [get_file_extension] returns: nothing, or a dot and then
    neither dots nor slashes. *)
Definition is_extension (ext : string) : Prop :=
  ext = ""
  ∨ ∃ rest, ext = String Py.dot rest
            ∧ no_dot rest = true ∧ Os.has_slash rest = false.

(** [m'] is [m] with regular files added to the airlock of [col], each
    named by the key of its bytes and an extension. *)
Definition staged_named (col : Collection.t) (m m' : gmap string inode) : Prop :=
  ∀ p, m' !! p = m !! p
       ∨ (m !! p = None
          ∧ ∃ k ext data,
              p = Os.join (Collection.get_airlock col) (k +:+ ext)
              ∧ m' !! p = Some (File data)
              ∧ content_key data HASH_LENGTH SIZE_LENGTH = Ok k
              ∧ is_extension ext).

(** After an import that led from [m0] to [m1], the file [fil] under
    [root] needs no copy: it can be read and its extension is ignored,
    or its key is known to the collection, or something is at its
    target path in the airlock -- and if nothing was there in [m0], it
    is a regular file with the key of the file. *)
Definition placed (col : Collection.t) (m0 m1 : gmap string inode)
    (rf : string * string) : Prop :=
  ∃ data k,
    m1 !! Os.join rf.1 rf.2 = Some (File data)
    ∧ content_key data HASH_LENGTH SIZE_LENGTH = Ok k
    ∧ (bool_decide (get_file_extension rf.2 ∈ IGNORED_EXT)
         || Collection.is_blacklisted col k || Collection.is_whitelisted col k
       = true
       ∨ (is_Some (m1 !! Os.join (Collection.get_airlock col)
                      (k +:+ get_file_extension rf.2))
          ∧ (m0 !! Os.join (Collection.get_airlock col)
                   (k +:+ get_file_extension rf.2) = None →
             ∃ data', m1 !! Os.join (Collection.get_airlock col)
                             (k +:+ get_file_extension rf.2)
                      = Some (File data')
                      ∧ content_key data' HASH_LENGTH SIZE_LENGTH = Ok k))).

(** A step of an import keeps an invariant [Inv] of the world and what
    [P] says of the files that were imported before. *)
Definition kept (Inv : World → Prop) (P : string * string → World → Prop)
    (w w' : World) : Prop :=
  grown (fs w) (fs w') ∧ (Inv w → Inv w' ∧ ∀ rf, P rf w → P rf w').

(** * Properties *)

Example sha256_empty :
  Sha256.hexdigest [] =
  "e3b0c44298fc1c149afbf4c8996fb92427ae41e4649b934ca495991b7852b855".
Proof. vm_compute. reflexivity. Qed.

Example sha256_abc :
  Sha256.hexdigest (Py.encode "abc") =
  "ba7816bf8f01cfea414140de5dae2223b00361a396177a9cb410ff61f20015ad".
Proof. vm_compute. reflexivity. Qed.

Example sha256_two_blocks :
  Sha256.hexdigest
    (Py.encode "abcdbcdecdefdefgefghfghighijhijkijkljklmklmnlmnomnopnopq") =
  "248d6a61d20638b8e5c026930c3e6039a33ce45964ff2167f6ecedd419db06c1".
Proof. vm_compute. reflexivity. Qed.

Example format_0x_255 : Py.format_0x 8 255 = Ok "000000ff".
Proof. vm_compute. reflexivity. Qed.

Example format_0x_wide : Py.format_0x 2 4096 = Ok "1000".
Proof. vm_compute. reflexivity. Qed.

Example split_lines_ex :
  Py.split_lines (String "a" (String Py.newline (String "b" (String Py.newline "")))) = ["a"; "b"; ""].
Proof. vm_compute. reflexivity. Qed.

(** ** Strings *)

Lemma sapp_cons (c : ascii) (a b : string) :
  String c a +:+ b = String c (a +:+ b).
Proof. reflexivity. Qed.

Lemma sapp_nil_l (b : string) : "" +:+ b = b.
Proof. reflexivity. Qed.

Lemma sapp_length (a b : string) :
  String.length (a +:+ b) = (String.length a + String.length b)%nat.
Proof.
  induction a as [|c a IH]; [reflexivity|].
  rewrite sapp_cons. simpl. now rewrite IH.
Qed.

Lemma sapp_assoc (a b c : string) : (a +:+ b) +:+ c = a +:+ (b +:+ c).
Proof.
  induction a as [|x a IH]; [reflexivity|].
  rewrite !sapp_cons. now rewrite IH.
Qed.

Lemma all_chars_app P (a b : string) :
  all_chars P (a +:+ b) = all_chars P a && all_chars P b.
Proof.
  induction a as [|c a IH]; [reflexivity|].
  rewrite sapp_cons. simpl. rewrite IH. now rewrite andb_assoc.
Qed.

Lemma all_chars_impl (P Q : ascii → bool) (s : string) :
  (∀ c, P c = true → Q c = true) → all_chars P s = true → all_chars Q s = true.
Proof.
  intros HPQ. induction s as [|c s IH]; simpl; [reflexivity|].
  intros [Hc Hs]%andb_prop. rewrite (HPQ _ Hc), (IH Hs). reflexivity.
Qed.

(** ** Hexadecimal formatting *)

Lemma hex_char_lower (d : Z) : is_lower_hex (Py.hex_char d) = true.
Proof.
  unfold Py.hex_char. generalize (Z.to_nat d) as n. intros n.
  do 16 (destruct n as [|n]; [reflexivity|]). reflexivity.
Qed.

Lemma zeros_length (n : nat) : String.length (Py.zeros n) = n.
Proof. induction n; simpl; congruence. Qed.

Lemma zeros_lower (n : nat) : all_chars is_lower_hex (Py.zeros n) = true.
Proof. induction n; simpl; [reflexivity | assumption]. Qed.

Lemma hex_digits_from_lower (fuel : nat) (n : Z) (acc : string) :
  all_chars is_lower_hex acc = true →
  all_chars is_lower_hex (Py.hex_digits_from fuel n acc) = true.
Proof.
  revert n acc. induction fuel as [|fuel IH]; intros n acc Hacc; simpl.
  - exact Hacc.
  - destruct (n / 16 =? 0); [|apply IH]; simpl;
      now rewrite hex_char_lower, Hacc.
Qed.

(** A number below [16 ^ k] has at most [k] digits. *)
Lemma hex_digits_from_length (fuel k : nat) (n : Z) (acc : string) :
  (1 ≤ k)%nat → 0 ≤ n < 16 ^ Z.of_nat k →
  (String.length (Py.hex_digits_from fuel n acc) ≤ String.length acc + k)%nat.
Proof.
  revert k n acc. induction fuel as [|fuel IH]; intros k n acc Hk Hn; simpl.
  - lia.
  - destruct (Z.eqb_spec (n / 16) 0) as [Hq|Hq]; simpl; [lia|].
    destruct k as [|[|k]]; [lia| |].
    + exfalso. apply Hq. apply Z.div_small. simpl in Hn. lia.
    + etransitivity; [apply (IH (S k))|simpl; lia]; [lia|].
      split; [apply Z.div_pos; lia|].
      apply Z.div_lt_upper_bound; [lia|].
      replace (Z.of_nat (S (S k))) with (1 + Z.of_nat (S k)) in Hn by lia.
      rewrite Z.pow_add_r in Hn by lia. lia.
Qed.

Lemma format_0x_lower (width data : Z) :
  0 ≤ width → 0 ≤ data →
  ∃ s, Py.format_0x width data = Ok s ∧ all_chars is_lower_hex s = true.
Proof.
  intros Hw Hd. unfold Py.format_0x.
  destruct (Z.ltb_spec width 0); [lia|].
  destruct (Z.ltb_spec data 0); [lia|].
  eexists; split; [reflexivity|].
  rewrite !all_chars_app, zeros_lower. simpl.
  apply hex_digits_from_lower. reflexivity.
Qed.

(** Within its width a number is padded to exactly that many digits. *)
Lemma format_0x_length (width data : Z) :
  1 ≤ width → 0 ≤ data < 16 ^ width →
  ∃ s, Py.format_0x width data = Ok s
       ∧ String.length s = Z.to_nat width
       ∧ all_chars is_lower_hex s = true.
Proof.
  intros Hw Hd.
  destruct (format_0x_lower width data) as (s & Hs & Hlow); [lia..|].
  exists s. split; [assumption|]. split; [|assumption].
  unfold Py.format_0x in Hs.
  destruct (Z.ltb_spec width 0); [lia|].
  destruct (Z.ltb_spec data 0); [lia|].
  injection Hs as <-.
  rewrite !sapp_length, zeros_length. simpl.
  assert (String.length (Py.hex_digits (Z.abs data)) ≤ Z.to_nat width)%nat.
  { unfold Py.hex_digits.
    etransitivity; [apply (hex_digits_from_length _ (Z.to_nat width))|simpl; lia].
    - lia.
    - rewrite Z2Nat.id by lia. lia. }
  lia.
Qed.

(** ** The digest read back as an integer *)

Lemma round_length (st : list Z) (kw : Z * Z) :
  length st = 8%nat → length (Sha256.round st kw) = 8%nat.
Proof.
  intros H. do 9 (destruct st as [|? st]; try discriminate H). reflexivity.
Qed.

Lemma rounds_length (kws : list (Z * Z)) (st : list Z) :
  length st = 8%nat → length (fold_left Sha256.round kws st) = 8%nat.
Proof.
  revert st. induction kws as [|kw kws IH]; intros st H; simpl; [assumption|].
  apply IH, round_length, H.
Qed.

Lemma compress_length (h : list Z) (block : list byte) :
  length h = 8%nat → length (Sha256.compress h block) = 8%nat.
Proof.
  intros H. unfold Sha256.compress.
  rewrite length_zip_with, rounds_length by assumption. lia.
Qed.

Lemma blocks_length (fuel : nat) (h : list Z) (bs : list byte) :
  length h = 8%nat → length (Sha256.blocks fuel h bs) = 8%nat.
Proof.
  revert h bs. induction fuel as [|fuel IH]; intros h bs H; simpl; [assumption|].
  destruct bs; [assumption|]. apply IH, compress_length, H.
Qed.

Lemma digest_length (msg : list byte) : length (Sha256.digest msg) = 32%nat.
Proof.
  unfold Sha256.digest.
  pose proof (blocks_length (length (Sha256.pad msg)) Sha256.H0 (Sha256.pad msg) eq_refl) as H.
  generalize dependent (Sha256.blocks (length (Sha256.pad msg)) Sha256.H0 (Sha256.pad msg)).
  intros st H. do 9 (destruct st as [|? st]; try discriminate H).
  reflexivity.
Qed.

Lemma hex_value_hex_char (d : Z) : is_Some (Py.hex_value (Py.hex_char d)).
Proof.
  unfold Py.hex_char. generalize (Z.to_nat d) as n. intros n.
  do 16 (destruct n as [|n]; [eexists; reflexivity|]). eexists; reflexivity.
Qed.

Lemma int16_from_hex_bytes (bs : list byte) (acc : Z) :
  ∃ n, Py.int16_from acc
         (foldr (λ b s, Sha256.hex_of_byte b +:+ s) EmptyString bs) = Ok n.
Proof.
  revert acc. induction bs as [|b bs IH]; intros acc; simpl.
  - eexists; reflexivity.
  - change (Sha256.hex_of_byte b +:+ ?s)
      with (String (Py.hex_char (Sha256.byteZ b / 16))
              (String (Py.hex_char (Sha256.byteZ b mod 16)) s)).
    cbn [Py.int16_from].
    destruct (hex_value_hex_char (Sha256.byteZ b / 16)) as [hi ->].
    destruct (hex_value_hex_char (Sha256.byteZ b mod 16)) as [lo ->].
    apply IH.
Qed.

(** [int(hash_sha.hexdigest(), 16)] never fails. *)
Lemma int16_hexdigest (msg : list byte) :
  ∃ n, Py.int16 (Sha256.hexdigest msg) = Ok n.
Proof.
  unfold Sha256.hexdigest.
  pose proof (digest_length msg) as Hlen.
  destruct (Sha256.digest msg) as [|b bs]; [discriminate Hlen|].
  destruct (int16_from_hex_bytes (b :: bs) 0) as [n Hn].
  exists n. rewrite <- Hn. reflexivity.
Qed.

(** ** Content keys *)

Lemma hash_field_lower (data : list byte) (hash_length : Z) :
  0 ≤ hash_length →
  ∃ s, hash_field data hash_length = Ok s ∧ all_chars is_lower_hex s = true.
Proof.
  intros Hl. unfold hash_field, hex_encode.
  destruct (int16_hexdigest data) as [n ->].
  apply format_0x_lower; [assumption|].
  apply Z.mod_pos_bound, Z.pow_pos_nonneg; lia.
Qed.

Lemma hash_field_length (data : list byte) (hash_length : Z) :
  1 ≤ hash_length →
  ∃ s, hash_field data hash_length = Ok s
       ∧ String.length s = Z.to_nat hash_length
       ∧ all_chars is_lower_hex s = true.
Proof.
  intros Hl. unfold hash_field, hex_encode.
  destruct (int16_hexdigest data) as [n ->].
  apply format_0x_length; [assumption|].
  replace (16 ^ hash_length) with (2 ^ (4 * hash_length))
    by (rewrite Z.pow_mul_r by lia; reflexivity).
  apply Z.mod_pos_bound, Z.pow_pos_nonneg; lia.
Qed.

Lemma content_key_lower (data : list byte) (hash_length size_length : Z) :
  0 ≤ hash_length → 0 ≤ size_length →
  ∃ k, content_key data hash_length size_length = Ok k
       ∧ all_chars is_lower_hex k = true.
Proof.
  intros Hh Hs. unfold content_key.
  destruct (hash_field_lower data hash_length Hh) as (fh & -> & Hfh).
  destruct (format_0x_lower size_length (Z.of_nat (length data)))
    as (fsz & Hfsz & Hlow); [lia..|].
  unfold hex_encode. rewrite Hfsz. eexists; split; [reflexivity|].
  now rewrite all_chars_app, Hfh, Hlow.
Qed.

(** The chunked loop feeds the whole file to the hash object. *)
Lemma hash_chunks_all (fuel : nat) (infile hash_sha : list byte) :
  (length infile < fuel)%nat →
  hash_chunks fuel infile hash_sha = hash_sha ++ infile.
Proof.
  revert infile hash_sha.
  induction fuel as [|fuel IH]; intros infile hash_sha Hlen; [lia|].
  destruct infile as [|b infile].
  - simpl. now rewrite app_nil_r.
  - change (hash_chunks (S fuel) (b :: infile) hash_sha)
      with (hash_chunks fuel (drop 4095 infile)
              (hash_sha ++ b :: take 4095 infile)).
    rewrite IH by (rewrite length_drop; simpl in Hlen; lia).
    rewrite <- app_assoc. simpl. now rewrite take_drop.
Qed.

Lemma get_file_hash_File (w : World) (fname : string) (data : list byte)
    (hash_length : Z) :
  fs w !! fname = Some (File data) →
  get_file_hash fname hash_length w
  = (hash_field data hash_length, logged fname w).
Proof.
  intros Hf. unfold get_file_hash, bind, log_hashed, modify, Os.open_r, lift_result.
  cbn [fs]. rewrite Hf.
  rewrite hash_chunks_all by lia. rewrite app_nil_l.
  unfold hash_field. destruct (Py.int16 _); reflexivity.
Qed.

Lemma get_file_key_File (w : World) (fname : string) (data : list byte)
    (hash_length size_length : Z) :
  fs w !! fname = Some (File data) →
  get_file_key fname hash_length size_length w
  = (content_key data hash_length size_length, logged fname w).
Proof.
  intros Hf. unfold get_file_key, bind.
  rewrite (get_file_hash_File w fname data) by assumption.
  unfold content_key. destruct (hash_field _ _); [|reflexivity].
  unfold get_file_size, bind, Os.getsize, lift_result, ret. cbn [fs logged].
  rewrite Hf. destruct (hex_encode _ _); reflexivity.
Qed.

(** C1. Two files with the same bytes have the same content key,
    whatever their paths and whatever else the two worlds hold; with
    non-negative widths that key is a string and not an error. *)
Theorem same_bytes_same_key (w1 w2 : World) (f1 f2 : string)
    (data : list byte) (hash_length size_length : Z) :
  fs w1 !! f1 = Some (File data) →
  fs w2 !! f2 = Some (File data) →
  (get_file_key f1 hash_length size_length w1).1
    = (get_file_key f2 hash_length size_length w2).1
  ∧ (0 ≤ hash_length → 0 ≤ size_length →
     ∃ k, (get_file_key f1 hash_length size_length w1).1 = Ok k).
Proof.
  intros H1 H2.
  rewrite (get_file_key_File w1 f1 data), (get_file_key_File w2 f2 data)
    by assumption.
  split; [reflexivity|]. intros Hh Hs. simpl.
  destruct (content_key_lower data hash_length size_length Hh Hs) as (k & -> & _).
  eauto.
Qed.

Lemma same_bytes_same_key_witness :
  (get_file_key "src/a.jpg" HASH_LENGTH SIZE_LENGTH demo_world).1
    = (get_file_key "src/c.png" HASH_LENGTH SIZE_LENGTH (logged "x" demo_world)).1
  ∧ (0 ≤ HASH_LENGTH → 0 ≤ SIZE_LENGTH →
     ∃ k, (get_file_key "src/a.jpg" HASH_LENGTH SIZE_LENGTH demo_world).1 = Ok k).
Proof.
  apply (same_bytes_same_key demo_world (logged "x" demo_world)
           "src/a.jpg" "src/c.png" (Py.encode "X"));
    vm_compute; reflexivity.
Defined.

(** C7. The key of a file of 4 GiB, computed with the default widths,
    has 41 characters, not 40: the size field is padded to eight digits
    and never cut to them, and 2^32 takes nine. *)
Theorem four_GiB_key_has_41_chars :
  ∃ k, (get_file_key "big.mkv" HASH_LENGTH SIZE_LENGTH four_GiB_world).1 = Ok k
       ∧ String.length k = 41%nat
       ∧ String.length k ≠ Z.to_nat (HASH_LENGTH + SIZE_LENGTH).
Proof.
  rewrite (get_file_key_File four_GiB_world "big.mkv" four_GiB)
    by apply lookup_singleton_eq.
  unfold content_key.
  destruct (hash_field_length four_GiB HASH_LENGTH) as (fh & -> & Hlen & _);
    [unfold HASH_LENGTH; lia|].
  assert (Z.of_nat (length four_GiB) = 4294967296) as ->.
  { unfold four_GiB. rewrite repeat_length. apply Z2Nat.id. lia. }
  assert (hex_encode 4294967296 SIZE_LENGTH = Ok "100000000") as ->
    by (vm_compute; reflexivity).
  exists (fh +:+ "100000000"). split; [reflexivity|].
  rewrite sapp_length, Hlen.
  change (Z.to_nat HASH_LENGTH) with 32%nat.
  change (Z.to_nat (HASH_LENGTH + SIZE_LENGTH)) with 40%nat.
  change (String.length "100000000") with 9%nat.
  split; [reflexivity|discriminate].
Qed.

(** ** Keys of the fixed width *)

Lemma hex_value_of_digit (d : Z) :
  0 ≤ d < 16 → Py.hex_value (Py.hex_char d) = Some d.
Proof.
  intros Hd. rewrite <- (Z2Nat.id d) at 2 by lia.
  unfold Py.hex_char.
  assert (Z.to_nat d < 16)%nat as Hn by lia.
  generalize dependent (Z.to_nat d). intros n Hn.
  do 16 (destruct n as [|n]; [reflexivity|]). lia.
Qed.

(** Read back in base sixteen, the digits of [n] give [n]. *)
Lemma int16_from_hex_digits (fuel : nat) (n : Z) (rest : string) :
  0 ≤ n < 16 ^ Z.of_nat fuel →
  Py.int16_from 0 (Py.hex_digits_from fuel n rest) = Py.int16_from n rest.
Proof.
  revert n rest. induction fuel as [|fuel IH]; intros n rest Hn.
  - simpl in Hn. now replace n with 0 by lia.
  - cbn [Py.hex_digits_from].
    assert (0 ≤ n mod 16 < 16) as Hmod by (apply Z.mod_pos_bound; lia).
    assert (16 * (n / 16) + n mod 16 = n) as Hdiv
      by (symmetry; apply Z.div_mod; lia).
    destruct (Z.eqb_spec (n / 16) 0) as [Hq|Hq].
    + cbn [Py.int16_from]. rewrite hex_value_of_digit by assumption.
      f_equal. lia.
    + rewrite IH.
      * cbn [Py.int16_from]. rewrite hex_value_of_digit by assumption.
        now rewrite Hdiv.
      * split; [apply Z.div_pos; lia|].
        apply Z.div_lt_upper_bound; [lia|].
        replace (Z.of_nat (S fuel)) with (1 + Z.of_nat fuel) in Hn by lia.
        rewrite Z.pow_add_r in Hn by lia. lia.
Qed.

Lemma int16_from_zeros (k : nat) (s : string) :
  Py.int16_from 0 (Py.zeros k +:+ s) = Py.int16_from 0 s.
Proof.
  induction k as [|k IH]; [reflexivity|].
  simpl Py.zeros. rewrite sapp_cons. exact IH.
Qed.

Lemma hex_digits_fuel (n : Z) :
  0 ≤ n → n < 16 ^ Z.of_nat (S (Z.to_nat (Z.log2 n))).
Proof.
  intros Hn. destruct (Z.eq_dec n 0) as [->|Hne]; [reflexivity|].
  pose proof (Z.log2_spec n ltac:(lia)) as [_ Hlt].
  pose proof (Z.log2_nonneg n) as Hlog.
  replace (Z.of_nat (S (Z.to_nat (Z.log2 n)))) with (Z.succ (Z.log2 n)) by lia.
  eapply Z.lt_le_trans; [exact Hlt|].
  apply Z.pow_le_mono_l. lia.
Qed.

Lemma hex_digits_from_grows (fuel : nat) (n : Z) (acc : string) :
  (String.length acc ≤ String.length (Py.hex_digits_from fuel n acc))%nat.
Proof.
  revert n acc. induction fuel as [|fuel IH]; intros n acc; simpl; [lia|].
  destruct (n / 16 =? 0); [simpl; lia|].
  etransitivity; [|apply IH]. simpl. lia.
Qed.

Lemma hex_digits_nonempty (n : Z) : Py.hex_digits n ≠ "".
Proof.
  unfold Py.hex_digits. cbn [Py.hex_digits_from]. intros E.
  apply (f_equal String.length) in E.
  destruct (n / 16 =? 0); [discriminate E|].
  pose proof (hex_digits_from_grows (Z.to_nat (Z.log2 n)) (n / 16)
                (String (Py.hex_char (n mod 16)) "")) as H.
  rewrite E in H. simpl in H. lia.
Qed.

(** [int(format(n, '0<width>x'), 16) == n] *)
Lemma int16_format_0x (width n : Z) (s : string) :
  0 ≤ n → Py.format_0x width n = Ok s → Py.int16 s = Ok n.
Proof.
  intros Hn. unfold Py.format_0x.
  destruct (width <? 0); [discriminate|].
  destruct (Z.ltb_spec n 0); [lia|]. intros [= <-].
  rewrite sapp_nil_l, Z.abs_eq by assumption.
  assert (Py.int16_from 0 (Py.zeros (Z.to_nat width - String.length ""
                                     - String.length (Py.hex_digits n))
                           +:+ Py.hex_digits n) = Ok n) as Hval.
  { rewrite int16_from_zeros. unfold Py.hex_digits.
    rewrite int16_from_hex_digits by (split; [assumption|now apply hex_digits_fuel]).
    reflexivity. }
  unfold Py.int16. destruct (_ +:+ _) eqn:E; [|exact Hval].
  apply (f_equal String.length) in E. rewrite sapp_length in E.
  pose proof (hex_digits_nonempty n) as Hne.
  destruct (Py.hex_digits n); [congruence|simpl in E; lia].
Qed.

(** X1. For a file of fewer than [16 ^ size_length] bytes, with widths
    of at least one, the key has exactly [hash_length + size_length]
    lowercase hexadecimal digits: the first [hash_length] are the digest
    reduced modulo [2 ^ (4 * hash_length)], the last [size_length] are
    the number of bytes, each padded with zeros to its width. *)
Theorem key_has_fixed_width (w : World) (fname : string) (data : list byte)
    (hash_length size_length : Z) :
  fs w !! fname = Some (File data) →
  1 ≤ hash_length → 1 ≤ size_length →
  Z.of_nat (length data) < 16 ^ size_length →
  ∃ fhash fsize n,
    (get_file_key fname hash_length size_length w).1 = Ok (fhash +:+ fsize)
    ∧ String.length (fhash +:+ fsize) = Z.to_nat (hash_length + size_length)
    ∧ String.length fhash = Z.to_nat hash_length
    ∧ String.length fsize = Z.to_nat size_length
    ∧ all_chars is_lower_hex (fhash +:+ fsize) = true
    ∧ Py.int16 (Sha256.hexdigest data) = Ok n
    ∧ Py.int16 fhash = Ok (n mod 2 ^ (4 * hash_length))
    ∧ Py.int16 fsize = Ok (Z.of_nat (length data)).
Proof.
  intros Hf Hh Hs Hsize.
  rewrite (get_file_key_File w fname data) by assumption. cbn [fst].
  unfold content_key, hash_field, hex_encode.
  destruct (int16_hexdigest data) as [n Hn]. rewrite Hn.
  assert (0 ≤ n mod 2 ^ (4 * hash_length) < 16 ^ hash_length) as Hrange.
  { replace (16 ^ hash_length) with (2 ^ (4 * hash_length))
      by (rewrite Z.pow_mul_r by lia; reflexivity).
    apply Z.mod_pos_bound, Z.pow_pos_nonneg; lia. }
  destruct (format_0x_length hash_length (n mod 2 ^ (4 * hash_length)))
    as (fh & Hfh & Hlen & Hlow); [lia|exact Hrange|].
  destruct (format_0x_length size_length (Z.of_nat (length data)))
    as (fsz & Hfsz & Hlen' & Hlow'); [lia|lia|].
  rewrite Hfh, Hfsz. exists fh, fsz, n.
  split; [reflexivity|].
  split; [rewrite sapp_length; lia|].
  split; [exact Hlen|]. split; [exact Hlen'|].
  split; [now rewrite all_chars_app, Hlow, Hlow'|].
  split; [reflexivity|].
  split; [apply (int16_format_0x hash_length); [lia|exact Hfh]|].
  apply (int16_format_0x size_length); [lia|exact Hfsz].
Qed.

Lemma key_has_fixed_width_witness :
  ∃ fhash fsize n,
    (get_file_key "src/a.jpg" HASH_LENGTH SIZE_LENGTH demo_world).1
    = Ok (fhash +:+ fsize)
    ∧ String.length (fhash +:+ fsize) = Z.to_nat (HASH_LENGTH + SIZE_LENGTH)
    ∧ String.length fhash = Z.to_nat HASH_LENGTH
    ∧ String.length fsize = Z.to_nat SIZE_LENGTH
    ∧ all_chars is_lower_hex (fhash +:+ fsize) = true
    ∧ Py.int16 (Sha256.hexdigest (Py.encode "X")) = Ok n
    ∧ Py.int16 fhash = Ok (n mod 2 ^ (4 * HASH_LENGTH))
    ∧ Py.int16 fsize = Ok (Z.of_nat (length (Py.encode "X"))).
Proof.
  apply (key_has_fixed_width demo_world "src/a.jpg" (Py.encode "X")).
  - vm_compute. reflexivity.
  - vm_compute. discriminate.
  - vm_compute. discriminate.
  - vm_compute. reflexivity.
Defined.

(** ** Decision lists: writing and reading back *)

Lemma encode_app (a b : string) : Py.encode (a +:+ b) = Py.encode a ++ Py.encode b.
Proof.
  unfold Py.encode, list_byte_of_string.
  induction a as [|c a IH]; [reflexivity|].
  rewrite sapp_cons. simpl. now rewrite IH.
Qed.

Lemma decode_encode (s : string) : Py.decode (Py.encode s) = s.
Proof. apply string_of_list_byte_of_string. Qed.

Lemma split_lines_cons_line (k rest : string) :
  all_chars (λ c, negb (Ascii.eqb c Py.newline)) k = true →
  Py.split_lines (k +:+ String Py.newline rest) = k :: Py.split_lines rest.
Proof.
  induction k as [|c k IH]; intros Hk.
  - reflexivity.
  - simpl in Hk. apply andb_prop in Hk as [Hc Hk].
    rewrite sapp_cons. simpl. apply negb_true_iff in Hc. rewrite Hc.
    rewrite (IH Hk). reflexivity.
Qed.

Lemma universal_newlines_cons_line (k rest : string) :
  all_chars (λ c, negb (Ascii.eqb c Py.carriage_return)) k = true →
  Py.universal_newlines (k +:+ String Py.newline rest)
  = k +:+ String Py.newline (Py.universal_newlines rest).
Proof.
  induction k as [|c k IH]; intros Hk.
  - reflexivity.
  - simpl in Hk. apply andb_prop in Hk as [Hc Hk].
    rewrite !sapp_cons. simpl. apply negb_true_iff in Hc. rewrite Hc.
    rewrite (IH Hk). reflexivity.
Qed.

Lemma no_line_break_newline (k : string) :
  no_line_break k = true →
  all_chars (λ c, negb (Ascii.eqb c Py.newline)) k = true.
Proof.
  apply all_chars_impl. intros c. unfold is_line_break.
  rewrite negb_orb. now intros [? ?]%andb_prop.
Qed.

Lemma no_line_break_return (k : string) :
  no_line_break k = true →
  all_chars (λ c, negb (Ascii.eqb c Py.carriage_return)) k = true.
Proof.
  apply all_chars_impl. intros c. unfold is_line_break.
  rewrite negb_orb. now intros [? ?]%andb_prop.
Qed.

Lemma lower_hex_no_line_break (k : string) :
  all_chars is_lower_hex k = true → no_line_break k = true.
Proof.
  apply all_chars_impl. intros c Hc.
  unfold is_line_break, Py.newline, Py.carriage_return.
  destruct (Ascii.eqb_spec c "010") as [->|_]; [discriminate Hc|].
  destruct (Ascii.eqb_spec c "013") as [->|_]; [discriminate Hc|].
  reflexivity.
Qed.

(** Keys without line breaks come back as they were written, followed
    by the empty string that [split] finds after the last newline. *)
Lemma read_back_serialized (l : list string) :
  Forall (λ k, no_line_break k = true) l →
  Py.split_lines (Py.universal_newlines (serialize l)) = l ++ [""].
Proof.
  induction 1 as [|k l Hk _ IH]; [reflexivity|].
  simpl. rewrite universal_newlines_cons_line by now apply no_line_break_return.
  rewrite split_lines_cons_line by now apply no_line_break_newline.
  now rewrite IH.
Qed.

Lemma parse_serialized (X : gset string) :
  (∀ k, k ∈ X → no_line_break k = true) →
  parse_keys (Py.encode (serialize (elements X))) = X ∪ {[ "" ]}.
Proof.
  intros HX. unfold parse_keys. rewrite decode_encode.
  rewrite read_back_serialized.
  - rewrite list_to_set_app_L, list_to_set_elements_L. simpl.
    now rewrite (right_id_L ∅ (∪)).
  - apply Forall_forall. intros k Hk. apply HX. now apply elem_of_elements.
Qed.

Lemma set_fs_set_fs (f g : gmap string inode → gmap string inode) (w : World) :
  set_fs f (set_fs g w) = set_fs (λ m, f (g m)) w.
Proof. reflexivity. Qed.

Lemma set_fs_id (f : gmap string inode → gmap string inode) (w : World) :
  f (fs w) = fs w → set_fs f w = w.
Proof. destruct w as [m out h]. unfold set_fs. simpl. now intros ->. Qed.

Lemma write_loop (fname : string) (l : list string) (w : World) (d : list byte) :
  fs w !! fname = Some (File d) →
  for_each l (λ fkey,
    Os.write fname (Py.encode (fkey +:+ String Py.newline EmptyString))) w
  = (Ok tt, set_fs (insert fname (File (d ++ Py.encode (serialize l)))) w).
Proof.
  revert w d. induction l as [|k l IH]; intros w d Hf.
  - simpl. unfold ret. rewrite set_fs_id; [reflexivity|].
    rewrite app_nil_r. now apply insert_id.
  - cbn [for_each]. unfold bind at 1. unfold Os.write at 1. rewrite Hf.
    rewrite (IH _ (d ++ Py.encode (k +:+ String Py.newline EmptyString)))
      by apply lookup_insert_eq.
    rewrite set_fs_set_fs. unfold set_fs. simpl.
    rewrite insert_insert_eq.
    rewrite <- app_assoc, <- encode_app, sapp_assoc. reflexivity.
Qed.

Lemma write_file_keys_spec (fname : string) (X : gset string) (w : World) :
  fs w !! fname ≠ Some Dir →
  write_file_keys fname X w
  = (Ok tt, set_fs (insert fname (File (Py.encode (serialize (elements X))))) w).
Proof.
  intros Hf. unfold write_file_keys. unfold bind at 1.
  assert (Os.open_w fname w = (Ok tt, set_fs (insert fname (File [])) w)) as ->.
  { unfold Os.open_w. destruct (fs w !! fname) as [[|]|]; congruence. }
  rewrite (write_loop fname _ _ []) by apply lookup_insert_eq.
  rewrite set_fs_set_fs. unfold set_fs. simpl.
  now rewrite insert_insert_eq.
Qed.

Lemma read_file_keys_File (fname : string) (w : World) (d : list byte) :
  fs w !! fname = Some (File d) →
  read_file_keys fname w = (Ok (parse_keys d), w).
Proof.
  intros Hf. unfold read_file_keys, bind, Os.open_r. now rewrite Hf.
Qed.

Lemma write_file_keys_Ok (fname : string) (X : gset string) (w w' : World) :
  write_file_keys fname X w = (Ok tt, w') → fs w !! fname ≠ Some Dir.
Proof.
  intros H E. unfold write_file_keys, bind, Os.open_w in H.
  rewrite E in H. discriminate H.
Qed.


(** C3. A set of well-formed keys that was written to a file, the
    writing having come to its end, and is read back from the file is
    the set itself with the empty string added: the two differ by the
    empty string only. *)
Theorem write_then_read_keys (w w' : World) (fname : string) (X : gset string) :
  (∀ k, k ∈ X → well_formed_key k) →
  write_file_keys fname X w = (Ok tt, w') →
  ∃ X',
    read_file_keys fname w' = (Ok X', w')
    ∧ X' = X ∪ {[ "" ]}
    ∧ X' ∖ {[ "" ]} = X.
Proof.
  intros HX Hrun.
  pose proof (write_file_keys_Ok fname X w w' Hrun) as Hf.
  rewrite (write_file_keys_spec fname X w Hf) in Hrun. injection Hrun as <-.
  eexists.
  split; [apply read_file_keys_File; apply lookup_insert_eq|].
  assert (parse_keys (Py.encode (serialize (elements X))) = X ∪ {[ "" ]}) as ->.
  { apply parse_serialized. intros k Hk.
    apply lower_hex_no_line_break, (HX k Hk). }
  split; [reflexivity|].
  assert ("" ∉ X) by (intros H; now destruct (HX _ H)).
  set_solver.
Qed.

Lemma write_then_read_keys_witness :
  let X : gset string :=
    {[ "5eab7351ed5e78f4ddadea5df64b801500000001"; "00ff" ]} in
  let w' := (write_file_keys "col/.blacklist" X hand_written_world).2 in
  ∃ X',
    read_file_keys "col/.blacklist" w' = (Ok X', w')
    ∧ X' = X ∪ {[ "" ]}
    ∧ X' ∖ {[ "" ]} = X.
Proof.
  intros X w'.
  apply (write_then_read_keys hand_written_world w' "col/.blacklist" X).
  - intros k Hk. apply elem_of_union in Hk as [Hk|Hk];
      apply elem_of_singleton in Hk; subst k; split;
      [discriminate|reflexivity|discriminate|reflexivity].
  - vm_compute. reflexivity.
Defined.

(** ** The monad *)

Lemma bind_Ok_inv {S A B} (m : M S A) (k : A → M S B) (s s' : S) (b : B) :
  bind m k s = (Ok b, s') →
  ∃ a s1, m s = (Ok a, s1) ∧ k a s1 = (Ok b, s').
Proof.
  unfold bind. destruct (m s) as [[a|e] s1]; [eauto|discriminate].
Qed.

Lemma bind_Ok {S A B} (m : M S A) (k : A → M S B) (s s1 : S) (a : A) :
  m s = (Ok a, s1) → bind m k s = k a s1.
Proof. unfold bind. now intros ->. Qed.

(** ** Paths *)

Lemma join_relative (a b : string) :
  Os.starts_with_slash b = false → Os.join a b = Os.dir_prefix a +:+ b.
Proof.
  intros Hb. unfold Os.join, Os.dir_prefix. rewrite Hb.
  destruct (bool_decide (a = "") || Os.ends_with_slash a); [reflexivity|].
  now rewrite sapp_assoc.
Qed.

Lemma join_inj (a b1 b2 : string) :
  Os.starts_with_slash b1 = false → Os.starts_with_slash b2 = false →
  Os.join a b1 = Os.join a b2 → b1 = b2.
Proof.
  intros H1 H2. rewrite !join_relative by assumption.
  apply (inj (String.app (Os.dir_prefix a))).
Qed.

Lemma ends_with_slash_app (a b : string) :
  b ≠ "" → Os.ends_with_slash (a +:+ b) = Os.ends_with_slash b.
Proof.
  intros Hb. induction a as [|c a IH]; [reflexivity|].
  rewrite sapp_cons.
  destruct (a +:+ b) as [|c' s] eqn:E.
  - destruct a; [rewrite sapp_nil_l in E; congruence|discriminate E].
  - simpl in IH |- *. exact IH.
Qed.

Lemma has_slash_app (a b : string) :
  Os.has_slash (a +:+ b) = Os.has_slash a || Os.has_slash b.
Proof.
  induction a as [|c a IH]; [reflexivity|].
  rewrite sapp_cons. simpl. rewrite IH. now rewrite orb_assoc.
Qed.

Lemma lower_hex_no_slash (k : string) :
  all_chars is_lower_hex k = true → Os.has_slash k = false.
Proof.
  induction k as [|c k IH]; [reflexivity|]. simpl.
  intros [Hc Hk]%andb_prop. rewrite (IH Hk), orb_false_r.
  unfold Py.slash. destruct (Ascii.eqb_spec c "/") as [->|_]; [discriminate Hc|].
  reflexivity.
Qed.

Lemma no_slash_relative (name : string) :
  Os.has_slash name = false → Os.starts_with_slash name = false.
Proof.
  destruct name as [|c name]; [reflexivity|]. simpl.
  now intros [? _]%orb_false_elim.
Qed.

(** An entry of the directory [join c d], for a relative [d] that does
    not end with a slash. *)
Lemma join_join (c d name : string) :
  Os.starts_with_slash d = false → Os.ends_with_slash d = false → d ≠ "" →
  Os.starts_with_slash name = false →
  Os.join (Os.join c d) name = Os.dir_prefix c +:+ d +:+ "/" +:+ name.
Proof.
  intros Hd1 Hd2 Hd3 Hn.
  rewrite (join_relative c d) by assumption.
  rewrite (join_relative _ name) by assumption.
  unfold Os.dir_prefix at 1.
  rewrite ends_with_slash_app, Hd2 by assumption.
  rewrite bool_decide_eq_false_2.
  - simpl. now rewrite !sapp_assoc.
  - destruct (Os.dir_prefix c); [rewrite sapp_nil_l; congruence|discriminate].
Qed.

(** ** Opening a collection *)

Lemma ensure_dir_step (p : string) (w w1 : World) (a : unit) :
  (if negb (bool_decide (fs w !! p = Some Dir)) then Os.mkdir p else ret tt) w
  = (Ok a, w1) →
  fs w ⊆ fs w1 ∧ fs w1 !! p = Some Dir
  ∧ stdout w1 = stdout w ∧ hashed w1 = hashed w
  ∧ (∀ q d, fs w1 !! q = Some (File d) → fs w !! q = Some (File d)).
Proof.
  case_bool_decide as Hp; simpl.
  - unfold ret. intros [= <- <-]. auto.
  - unfold Os.mkdir. destruct (fs w !! p) eqn:E; [intros [=]|].
    intros [= <- <-]. simpl. repeat split.
    + now apply insert_subseteq.
    + apply lookup_insert_eq.
    + intros q d. rewrite lookup_insert. case_decide; [discriminate|auto].
Qed.

Lemma ensure_file_step (p : string) (w w1 : World) (a : unit) :
  (if negb (match fs w !! p with Some (File _) => true | _ => false end)
   then Os.open_a_close p else ret tt) w = (Ok a, w1) →
  fs w ⊆ fs w1
  ∧ stdout w1 = stdout w ∧ hashed w1 = hashed w
  ∧ (∃ d, fs w1 !! p = Some (File d) ∧ (fs w !! p = Some (File d) ∨ d = []))
  ∧ (∀ q d, q ≠ p → fs w1 !! q = Some (File d) → fs w !! q = Some (File d)).
Proof.
  unfold Os.open_a_close.
  destruct (fs w !! p) as [[d|]|] eqn:E; simpl; rewrite ?E.
  - unfold ret. intros [= <- <-]. repeat split; eauto.
  - intros [=].
  - intros [= <- <-]. simpl. repeat split.
    + now apply insert_subseteq.
    + exists []. split; [apply lookup_insert_eq|auto].
    + intros q d Hq. now rewrite lookup_insert_ne.
Qed.

Lemma decision_files_differ (c : string) :
  Os.join c WHITELIST_FILE ≠ Os.join c BLACKLIST_FILE.
Proof. intros H. apply join_inj in H; [discriminate|reflexivity..]. Qed.

(** What holds once [Collection(c)] has returned. *)
Lemma init_inv (c : string) (w w' : World) (COL : Collection.t) :
  Collection.__init__ c w = (Ok COL, w') →
  Collection.directory COL = c
  ∧ stdout w' = stdout w ∧ hashed w' = hashed w
  ∧ fs w ⊆ fs w'
  ∧ fs w' !! c = Some Dir
  ∧ fs w' !! Os.join c AIRLOCK_DIR = Some Dir
  ∧ fs w' !! Os.join c GALLERY_DIR = Some Dir
  ∧ ∃ d1 d2,
      fs w' !! Os.join c BLACKLIST_FILE = Some (File d1)
      ∧ fs w' !! Os.join c WHITELIST_FILE = Some (File d2)
      ∧ Collection.blacklist COL = parse_keys d1
      ∧ Collection.whitelist COL = parse_keys d2
      ∧ (fs w !! Os.join c BLACKLIST_FILE = Some (File d1) ∨ d1 = [])
      ∧ (fs w !! Os.join c WHITELIST_FILE = Some (File d2) ∨ d2 = []).
Proof.
  unfold Collection.__init__. intros H.
  apply bind_Ok_inv in H as (? & ? & [= <- <-] & H).
  apply bind_Ok_inv in H as (? & w1 & (S1 & D1 & O1 & G1 & F1)%ensure_dir_step & H).
  apply bind_Ok_inv in H as (? & ? & [= <- <-] & H).
  apply bind_Ok_inv in H
    as (? & w2 & (S2 & O2 & G2 & (d1 & B2 & B2') & F2)%ensure_file_step & H).
  apply bind_Ok_inv in H as (? & ? & [= <- <-] & H).
  apply bind_Ok_inv in H
    as (? & w3 & (S3 & O3 & G3 & (d2 & W3 & W3') & F3)%ensure_file_step & H).
  apply bind_Ok_inv in H as (? & ? & [= <- <-] & H).
  apply bind_Ok_inv in H as (? & w4 & (S4 & D4 & O4 & G4 & F4)%ensure_dir_step & H).
  apply bind_Ok_inv in H as (? & ? & [= <- <-] & H).
  apply bind_Ok_inv in H as (? & w5 & (S5 & D5 & O5 & G5 & F5)%ensure_dir_step & H).
  assert (fs w5 !! Os.join c BLACKLIST_FILE = Some (File d1)) as B5
    by (do 3 (eapply lookup_weaken; [|eassumption]); exact B2).
  assert (fs w5 !! Os.join c WHITELIST_FILE = Some (File d2)) as W5
    by (do 2 (eapply lookup_weaken; [|eassumption]); exact W3).
  rewrite (bind_Ok _ _ _ _ _ (read_file_keys_File _ _ _ B5)) in H.
  rewrite (bind_Ok _ _ _ _ _ (read_file_keys_File _ _ _ W5)) in H.
  unfold ret in H. injection H as <- <-. simpl.
  split; [reflexivity|].
  split; [congruence|]. split; [congruence|].
  split; [repeat (etransitivity; [eassumption|]); reflexivity|].
  split; [do 4 (eapply lookup_weaken; [|eassumption]); exact D1|].
  split; [eapply lookup_weaken; [|eassumption]; exact D4|].
  split; [exact D5|].
  exists d1, d2. repeat split; try assumption.
  - destruct B2' as [B2'|]; [left; now apply F1|now right].
  - destruct W3' as [W3'|]; [left|now right].
    apply F1, F2; [apply decision_files_differ|exact W3'].
Qed.

Lemma isdir_Dir (p : string) (w : World) :
  fs w !! p = Some Dir → Os.isdir p w = (Ok true, w).
Proof. intros H. unfold Os.isdir. now rewrite H, bool_decide_eq_true_2. Qed.

Lemma isfile_File (p : string) (w : World) (d : list byte) :
  fs w !! p = Some (File d) → Os.isfile p w = (Ok true, w).
Proof. intros H. unfold Os.isfile. now rewrite H. Qed.

(** Opening a collection that is already laid out changes nothing. *)
Lemma init_existing (c : string) (w : World) (d1 d2 : list byte) :
  fs w !! c = Some Dir →
  fs w !! Os.join c BLACKLIST_FILE = Some (File d1) →
  fs w !! Os.join c WHITELIST_FILE = Some (File d2) →
  fs w !! Os.join c AIRLOCK_DIR = Some Dir →
  fs w !! Os.join c GALLERY_DIR = Some Dir →
  Collection.__init__ c w
  = (Ok {| Collection.directory := c;
           Collection.blacklist := parse_keys d1;
           Collection.whitelist := parse_keys d2 |}, w).
Proof.
  intros Hc Hb Hw Ha Hg.
  pose proof (isdir_Dir _ _ Hc) as Ec. pose proof (isdir_Dir _ _ Ha) as Ea.
  pose proof (isdir_Dir _ _ Hg) as Eg.
  pose proof (isfile_File _ _ _ Hb) as Eb. pose proof (isfile_File _ _ _ Hw) as Ew.
  unfold Collection.__init__.
  rewrite (bind_Ok _ _ _ _ _ Ec). cbn [negb].
  rewrite (bind_Ok (ret tt) _ w w tt eq_refl).
  rewrite (bind_Ok _ _ _ _ _ Eb). cbn [negb].
  rewrite (bind_Ok (ret tt) _ w w tt eq_refl).
  rewrite (bind_Ok _ _ _ _ _ Ew). cbn [negb].
  rewrite (bind_Ok (ret tt) _ w w tt eq_refl).
  rewrite (bind_Ok _ _ _ _ _ Ea). cbn [negb].
  rewrite (bind_Ok (ret tt) _ w w tt eq_refl).
  rewrite (bind_Ok _ _ _ _ _ Eg). cbn [negb].
  rewrite (bind_Ok (ret tt) _ w w tt eq_refl).
  rewrite (bind_Ok _ _ _ _ _ (read_file_keys_File _ _ _ Hb)).
  rewrite (bind_Ok _ _ _ _ _ (read_file_keys_File _ _ _ Hw)).
  reflexivity.
Qed.

(** ** The empty key *)

Lemma last_char_cons (c c' : ascii) (t : string) :
  last_char (String c (String c' t)) = last_char (String c' t).
Proof. reflexivity. Qed.

Lemma split_lines_after_newline (t : string) :
  last_char t = Some Py.newline →
  ∃ l ls, Py.split_lines t = l :: ls ∧ "" ∈ ls.
Proof.
  induction t as [|c t IH]; [discriminate|].
  intros Hlast. destruct t as [|c' t'].
  - injection Hlast as ->. eexists _, _. split; [reflexivity|].
    apply list_elem_of_here.
  - rewrite last_char_cons in Hlast.
    destruct (IH Hlast) as (l & ls & Hsplit & Hin).
    remember (String c' t') as t. cbn [Py.split_lines]. rewrite Hsplit.
    destruct (Ascii.eqb c Py.newline); eexists _, _; (split; [reflexivity|]).
    + now apply list_elem_of_further.
    + exact Hin.
Qed.

Lemma split_lines_has_empty (t : string) :
  match last_char t with None => True | Some c => c = Py.newline end →
  "" ∈ Py.split_lines t.
Proof.
  destruct (last_char t) as [c|] eqn:E.
  - intros ->. destruct (split_lines_after_newline t E) as (l & ls & -> & Hin).
    now apply list_elem_of_further.
  - intros _. destruct t as [|c [|c' t]]; [|discriminate E|].
    + apply list_elem_of_here.
    + exfalso. clear -E. revert c c' E.
      induction t as [|c'' t IH]; intros c c' E; [discriminate E|].
      apply (IH c' c''). exact E.
Qed.

Lemma universal_newlines_cons (c : ascii) (s : string) :
  ∃ c' t, Py.universal_newlines (String c s) = String c' t.
Proof.
  simpl. destruct (Ascii.eqb c Py.carriage_return); [|eauto].
  destruct s as [|c' s]; [eauto|].
  destruct (Ascii.eqb c' Py.newline); eauto.
Qed.

Lemma line_break_cases (c : ascii) :
  is_line_break c = true → c = Py.newline ∨ c = Py.carriage_return.
Proof.
  unfold is_line_break. intros [H|H]%orb_prop; apply Ascii.eqb_eq in H; auto.
Qed.

(** Read in text mode, a terminated text ends with a newline. *)
Lemma universal_newlines_terminated (s : string) :
  line_terminated s = true →
  match last_char (Py.universal_newlines s) with
  | None => True
  | Some c => c = Py.newline
  end.
Proof.
  enough (H : (line_terminated s = true →
               match last_char (Py.universal_newlines s) with
               | None => True | Some c => c = Py.newline end)
              ∧ ∀ c, line_terminated (String c s) = true →
                     match last_char (Py.universal_newlines (String c s)) with
                     | None => True | Some c => c = Py.newline end)
    by apply H.
  induction s as [|c s [IH1 IH2]].
  - split; [easy|]. intros c. unfold line_terminated. simpl.
    intros [->| ->]%line_break_cases; reflexivity.
  - split; [apply IH2|]. intros c0 Hterm.
    assert (line_terminated (String c s) = true) as Hcs by exact Hterm.
    specialize (IH2 c Hcs).
    destruct (universal_newlines_cons c s) as (x & t & Ex).
    cbn [Py.universal_newlines].
    destruct (Ascii.eqb c0 Py.carriage_return).
    + destruct (Ascii.eqb_spec c Py.newline) as [->|Hc].
      * destruct s as [|c1 s]; [reflexivity|].
        destruct (universal_newlines_cons c1 s) as (y & u & Ey).
        assert (line_terminated (String c1 s) = true) as Hs by exact Hcs.
        specialize (IH1 Hs). rewrite Ey in IH1 |- *.
        rewrite last_char_cons. exact IH1.
      * cbn [Py.universal_newlines] in Ex, IH2. rewrite Ex in IH2 |- *.
        rewrite last_char_cons. exact IH2.
    + cbn [Py.universal_newlines] in Ex, IH2. rewrite Ex in IH2 |- *.
      rewrite last_char_cons. exact IH2.
Qed.

Lemma parse_terminated (d : list byte) :
  line_terminated (Py.decode d) = true → "" ∈ parse_keys d.
Proof.
  intros H. unfold parse_keys. apply elem_of_list_to_set.
  apply split_lines_has_empty, universal_newlines_terminated, H.
Qed.

Lemma last_char_app (a b : string) :
  b ≠ "" → last_char (a +:+ b) = last_char b.
Proof.
  intros Hb. induction a as [|c a IH]; [reflexivity|].
  rewrite sapp_cons. destruct (a +:+ b) as [|c' t] eqn:E.
  - destruct a; [rewrite sapp_nil_l in E; congruence|discriminate E].
  - rewrite last_char_cons. exact IH.
Qed.

Lemma serialize_terminated (l : list string) :
  line_terminated (serialize l) = true.
Proof.
  induction l as [|k l IH]; [reflexivity|].
  unfold line_terminated in *. simpl serialize.
  rewrite last_char_app by discriminate.
  destruct (serialize l) as [|c t]; [reflexivity|].
  rewrite last_char_cons. exact IH.
Qed.

(** C10, as it fails: a blacklist that holds the three characters
    [abc] and no final newline is read as the set of the one key [abc];
    the collection opened on it does not take the empty string for
    blacklisted. *)
Lemma hand_written_list_has_no_empty_key :
  (read_file_keys "col/.blacklist" hand_written_world).1 = Ok {[ "abc" ]}
  ∧ ("" ∉ ({[ "abc" ]} : gset string))
  ∧ ∃ COL w',
      Collection.__init__ "col" hand_written_world = (Ok COL, w')
      ∧ Collection.is_blacklisted COL "" = false.
Proof.
  split; [vm_compute; reflexivity|].
  split; [intros H; apply elem_of_singleton in H; discriminate H|].
  eexists _, _. split; [vm_compute; reflexivity|].
  vm_compute. reflexivity.
Qed.

(** C10, amended. A decision list of ASCII text that is empty or ends
    with a line break is read as a set that holds the empty string;
    such is the file that [write_file_keys] has written, whatever the
    keys, and the empty file made when a collection is first opened.
    So a collection that was opened on lists of ASCII text that are
    absent or so terminated has the empty string in both of its sets
    and takes it for blacklisted and whitelisted: nothing discards the
    empty entry. *)
Theorem terminated_list_has_empty_key :
  (∀ (w : World) (fname : string) (data : list byte),
     fs w !! fname = Some (File data) →
     ascii_list (fs w !! fname) →
     line_terminated (Py.decode data) = true →
     ∃ X, read_file_keys fname w = (Ok X, w) ∧ "" ∈ X)
  ∧ (∀ (w w' : World) (fname : string) (X : gset string),
       write_file_keys fname X w = (Ok tt, w') →
       ∃ X', read_file_keys fname w' = (Ok X', w') ∧ "" ∈ X')
  ∧ (∀ (c : string) (w w' : World) (COL : Collection.t),
       ascii_list (fs w !! Os.join c BLACKLIST_FILE) →
       ascii_list (fs w !! Os.join c WHITELIST_FILE) →
       terminated_list (fs w !! Os.join c BLACKLIST_FILE) →
       terminated_list (fs w !! Os.join c WHITELIST_FILE) →
       Collection.__init__ c w = (Ok COL, w') →
       "" ∈ Collection.blacklist COL ∧ "" ∈ Collection.whitelist COL
       ∧ Collection.is_blacklisted COL "" = true
       ∧ Collection.is_whitelisted COL "" = true).
Proof.
  split; [|split].
  - intros w fname data Hf _ Hterm. exists (parse_keys data).
    split; [now apply read_file_keys_File|now apply parse_terminated].
  - intros w w' fname X Hrun.
    pose proof (write_file_keys_Ok fname X w w' Hrun) as Hf.
    rewrite (write_file_keys_spec fname X w Hf) in Hrun. injection Hrun as <-.
    eexists.
    split; [apply read_file_keys_File, lookup_insert_eq|].
    apply parse_terminated. rewrite decode_encode. apply serialize_terminated.
  - intros c w w' COL _ _ Hb Hw Hinit.
    apply init_inv in Hinit
      as (_ & _ & _ & _ & _ & _ & _ & d1 & d2 & _ & _ & E1 & E2 & Hd1 & Hd2).
    assert ("" ∈ parse_keys d1) as H1.
    { apply parse_terminated. destruct Hd1 as [Hd1| ->]; [|reflexivity].
      rewrite Hd1 in Hb. exact Hb. }
    assert ("" ∈ parse_keys d2) as H2.
    { apply parse_terminated. destruct Hd2 as [Hd2| ->]; [|reflexivity].
      rewrite Hd2 in Hw. exact Hw. }
    unfold Collection.is_blacklisted, Collection.is_whitelisted.
    rewrite E1, E2, !bool_decide_eq_true_2 by assumption. auto.
Qed.

Lemma terminated_list_has_empty_key_witness :
  ∃ COL w',
    Collection.__init__ "col" demo_world = (Ok COL, w')
    ∧ "" ∈ Collection.blacklist COL ∧ "" ∈ Collection.whitelist COL
    ∧ Collection.is_blacklisted COL "" = true
    ∧ Collection.is_whitelisted COL "" = true.
Proof.
  eexists _, _. split; [vm_compute; reflexivity|].
  eapply (proj2 (proj2 terminated_list_has_empty_key) "col" demo_world).
  - vm_compute. exact I.
  - vm_compute. exact I.
  - vm_compute. exact I.
  - vm_compute. exact I.
  - vm_compute. reflexivity.
Defined.

(** ** Importing one file *)

Lemma default_key (data : list byte) :
  ∃ k, content_key data HASH_LENGTH SIZE_LENGTH = Ok k
       ∧ all_chars is_lower_hex k = true ∧ k ≠ "".
Proof.
  unfold content_key.
  destruct (hash_field_length data HASH_LENGTH) as (fh & -> & Hlen & Hfh);
    [unfold HASH_LENGTH; lia|].
  destruct (format_0x_lower SIZE_LENGTH (Z.of_nat (length data)))
    as (fsz & Hfsz & Hlow); [unfold SIZE_LENGTH; lia|lia|].
  unfold hex_encode. rewrite Hfsz. eexists. split; [reflexivity|].
  split; [now rewrite all_chars_app, Hfh, Hlow|].
  intros E. apply (f_equal String.length) in E.
  rewrite sapp_length, Hlen in E. discriminate E.
Qed.

Lemma basename_no_slash (p : string) : Os.has_slash (Os.basename p) = false.
Proof.
  induction p as [|c p IH]; [reflexivity|]. simpl.
  destruct (Os.has_slash p) eqn:Hp; [exact IH|].
  destruct (Ascii.eqb c Py.slash) eqn:Hc; [exact Hp|].
  simpl. now rewrite Hc, Hp.
Qed.

Lemma strip_dots_no_slash (s : string) :
  Os.has_slash s = false → Os.has_slash (Os.strip_dots s) = false.
Proof.
  induction s as [|c s IH]; [reflexivity|]. simpl.
  intros [Hc Hs]%orb_false_elim.
  destruct (Ascii.eqb c Py.dot); [now apply IH|]. simpl. now rewrite Hc, Hs.
Qed.

Lemma from_last_dot_no_slash (s e : string) :
  Os.has_slash s = false → Os.from_last_dot s = Some e → Os.has_slash e = false.
Proof.
  revert e. induction s as [|c s IH]; intros e; [discriminate|]. simpl.
  intros [Hc Hs]%orb_false_elim.
  destruct (Os.from_last_dot s) as [e'|].
  - intros [= <-]. now apply IH.
  - destruct (Ascii.eqb c Py.dot); [|discriminate].
    intros [= <-]. simpl. now rewrite Hc, Hs.
Qed.

Lemma extension_no_slash (fil : string) :
  Os.has_slash (get_file_extension fil) = false.
Proof.
  unfold get_file_extension, Os.splitext.
  destruct (Os.from_last_dot _) as [e|] eqn:E; [|reflexivity].
  eapply from_last_dot_no_slash; [|exact E].
  apply strip_dots_no_slash, basename_no_slash.
Qed.

Lemma copy_new (fname target : string) (w : World) (data : list byte) :
  fs w !! fname = Some (File data) → fs w !! target = None →
  Shutil.copy fname target w = (Ok tt, set_fs (insert target (File data)) w).
Proof.
  intros Hf Ht. unfold Shutil.copy.
  assert (Os.isdir target w = (Ok false, w)) as E.
  { unfold Os.isdir. rewrite Ht. reflexivity. }
  rewrite (bind_Ok _ _ _ _ _ E). cbv iota.
  rewrite bool_decide_eq_false_2 by congruence.
  assert (Os.open_r fname w = (Ok data, w)) as E'.
  { unfold Os.open_r. now rewrite Hf. }
  rewrite (bind_Ok _ _ _ _ _ E').
  assert (Os.open_w target w = (Ok tt, set_fs (insert target (File [])) w)) as E''.
  { unfold Os.open_w. now rewrite Ht. }
  rewrite (bind_Ok _ _ _ _ _ E'').
  unfold Os.write. cbn [fs set_fs]. rewrite lookup_insert_eq.
  rewrite set_fs_set_fs. unfold set_fs. simpl.
  now rewrite insert_insert_eq.
Qed.

(** What [import_file] does with a readable file, by cases. *)
Lemma import_file_readable (col : Collection.t) (root fil : string) (w : World)
    (data : list byte) (k : string) :
  let fname := Os.join root fil in
  let ext := get_file_extension fil in
  let target := Os.join (Collection.get_airlock col) (k +:+ ext) in
  fs w !! fname = Some (File data) →
  content_key data HASH_LENGTH SIZE_LENGTH = Ok k →
  import_file col root fil w
  = if bool_decide (ext ∈ IGNORED_EXT)
       || Collection.is_blacklisted col k || Collection.is_whitelisted col k
    then (Ok tt, printed ("- Ignored: " +:+ fname) (logged fname w))
    else match fs w !! target with
         | Some _ => (Ok tt, logged fname w)
         | None =>
             (Ok tt, printed ("+ Copied:  " +:+ fname +:+ " -> " +:+ target)
                       (set_fs (insert target (File data)) (logged fname w)))
         end.
Proof.
  intros fname ext target Hf Hk. unfold import_file. fold fname ext.
  pose proof (get_file_key_File w fname data HASH_LENGTH SIZE_LENGTH Hf) as E.
  rewrite Hk in E. rewrite (bind_Ok _ _ _ _ _ E).
  destruct (bool_decide (ext ∈ IGNORED_EXT)); [reflexivity|]. simpl.
  destruct (Collection.is_blacklisted col k); [reflexivity|].
  destruct (Collection.is_whitelisted col k); [reflexivity|]. simpl.
  fold target. unfold bind at 1, Os.exists_. cbn [fs logged].
  destruct (fs w !! target) as [x|] eqn:Ht.
  - rewrite bool_decide_eq_true_2 by eauto. reflexivity.
  - rewrite bool_decide_eq_false_2 by (intros [? ?]; discriminate). simpl.
    rewrite (bind_Ok _ _ _ _ _ (copy_new fname target (logged fname w) data Hf Ht)).
    reflexivity.
Qed.

(** A file that cannot be read stops the import. *)
Lemma import_file_unreadable (col : Collection.t) (root fil : string) (w : World) :
  (∀ data, fs w !! Os.join root fil ≠ Some (File data)) →
  ∃ e, import_file col root fil w = (Raise e, logged (Os.join root fil) w).
Proof.
  intros Hf. unfold import_file, get_file_key, get_file_hash.
  unfold bind, log_hashed, modify, Os.open_r. cbn [fs].
  destruct (fs w !! Os.join root fil) as [[d|]|] eqn:E.
  - now destruct (Hf d).
  - eexists; reflexivity.
  - eexists; reflexivity.
Qed.

(** ** What an import may change *)

Lemma staged_from_refl (col : Collection.t) (m : gmap string inode) :
  staged_from col m m.
Proof. intros p. now left. Qed.

Lemma staged_from_trans (col : Collection.t) (m1 m2 m3 : gmap string inode) :
  staged_from col m1 m2 → staged_from col m2 m3 → staged_from col m1 m3.
Proof.
  intros H12 H23 p.
  destruct (H23 p) as [E23|(N2 & name & data & f & -> & Hne & Hsl & Hp & Hf)].
  - destruct (H12 p) as [E12|(N1 & name & data & f & -> & Hne & Hsl & Hp & Hf)].
    + left. congruence.
    + right. split; [exact N1|]. exists name, data, f.
      repeat split; try assumption. congruence.
  - right.
    assert (m1 !! Os.join (Collection.get_airlock col) name = None) as N1.
    { destruct (H12 (Os.join (Collection.get_airlock col) name))
        as [E|(N1 & _)]; congruence. }
    split; [exact N1|].
    destruct (H12 f) as [E|(_ & _ & data' & f' & _ & _ & _ & Hf' & Hsrc)].
    + exists name, data, f. repeat split; try assumption. congruence.
    + exists name, data, f'. repeat split; try assumption. congruence.
Qed.

Lemma import_file_stages (col : Collection.t) (root fil : string) (w : World) :
  staged_from col (fs w) (fs (import_file col root fil w).2).
Proof.
  destruct (fs w !! Os.join root fil) as [[data|]|] eqn:Hf.
  - destruct (default_key data) as (k & Hk & Hlow & Hne).
    rewrite (import_file_readable col root fil w data k Hf Hk).
    destruct (_ || _); [apply staged_from_refl|].
    destruct (fs w !! Os.join _ (k +:+ _)) eqn:Ht; [apply staged_from_refl|].
    intros p. cbn [snd fs printed set_fs logged].
    destruct (decide (p = Os.join (Collection.get_airlock col)
                             (k +:+ get_file_extension fil))) as [->|Hp].
    + right. split; [exact Ht|].
      exists (k +:+ get_file_extension fil), data, (Os.join root fil).
      split; [reflexivity|]. split.
      { destruct k; [congruence|discriminate]. }
      split.
      { now rewrite has_slash_app, lower_hex_no_slash, extension_no_slash. }
      split; [apply lookup_insert_eq|exact Hf].
    + left. now apply lookup_insert_ne.
  - destruct (import_file_unreadable col root fil w) as (e & ->);
      [congruence|apply staged_from_refl].
  - destruct (import_file_unreadable col root fil w) as (e & ->);
      [congruence|apply staged_from_refl].
Qed.

(** A loop keeps what each of its rounds keeps, when it ends and when
    a round raises. *)
Lemma for_each_keeps {S A} (R : S → S → Prop) (body : A → M S unit) (xs : list A) :
  (∀ s, R s s) →
  (∀ s1 s2 s3, R s1 s2 → R s2 s3 → R s1 s3) →
  (∀ x s, R s (body x s).2) →
  ∀ s, R s (for_each xs body s).2.
Proof.
  intros Hrefl Htrans Hbody. induction xs as [|x xs IH]; intros s.
  - apply Hrefl.
  - cbn [for_each]. unfold bind. specialize (Hbody x s).
    destruct (body x s) as [[[]|e] s1]; [|exact Hbody].
    eapply Htrans; [exact Hbody|apply IH].
Qed.

Lemma import_dir_stages (col : Collection.t)
    (x : string * list string * list string) (w : World) :
  staged_from col (fs w) (fs (import_dir col x w).2).
Proof.
  destruct x as [[root dirs] files]. unfold import_dir.
  apply (for_each_keeps (λ w w', staged_from col (fs w) (fs w'))).
  - intros s. apply staged_from_refl.
  - intros s1 s2 s3. apply staged_from_trans.
  - intros fil s. apply import_file_stages.
Qed.

(** A walk keeps what the body of its loop keeps. *)
Lemma for_walk_keeps (R : World → World → Prop)
    (body : string * list string * list string → M World unit) :
  (∀ s, R s s) →
  (∀ s1 s2 s3, R s1 s2 → R s2 s3 → R s1 s3) →
  (∀ x s, R s (body x s).2) →
  ∀ fuel top s, R s (Os.for_walk_from fuel top body s).2.
Proof.
  intros Hrefl Htrans Hbody. induction fuel as [|fuel IH]; intros top s.
  - apply Hrefl.
  - cbn [Os.for_walk_from]. case_bool_decide as Htop; [|apply Hrefl].
    unfold bind.
    match goal with
    | |- context [for_each ?ds ?F s] =>
        pose proof (for_each_keeps R F ds Hrefl Htrans
                      (λ d s', IH (Os.join top d) s') s) as H1;
        destruct (for_each ds F s) as [[[]|e] s1]; [|exact H1]
    end.
    eapply Htrans; [exact H1|apply Hbody].
Qed.

Lemma import_files_stages (col : Collection.t) (src : string) (w : World) :
  staged_from col (fs w) (fs (import_files col src w).2).
Proof.
  unfold import_files, Os.for_walk.
  apply (for_walk_keeps (λ w w', staged_from col (fs w) (fs w'))
           (import_dir col)).
  - intros s. apply staged_from_refl.
  - intros s1 s2 s3. apply staged_from_trans.
  - apply import_dir_stages.
Qed.


Example demo_import_result :
  demo_import.1 = Ok tt
  ∧ stdout demo_import.2
    = [ "- Ignored: src/sub/m.json";
        "+ Copied:  src/a.jpg -> col/.airlock/5eab7351ed5e78f4ddadea5df64b801500000001.jpg";
        "+ Copied:  src/c.png -> col/.airlock/5eab7351ed5e78f4ddadea5df64b801500000001.png" ].
Proof. vm_compute. split; reflexivity. Qed.

(** ** Files with an ignored extension *)

(** C6, as it fails: in the import of [src] the sidecar file
    [src/sub/m.json] is reported as ignored, and it is the first file
    whose hash is computed. *)
Lemma sidecar_file_is_hashed :
  get_file_extension "m.json" ∈ IGNORED_EXT
  ∧ demo_import.1 = Ok tt
  ∧ hashed demo_import.2
    = [ "src/sub/m.json"; "src/a.jpg"; "src/b.jpg"; "src/c.png" ].
Proof.
  split; [vm_compute; set_solver|].
  vm_compute. split; reflexivity.
Qed.

(** C6, amended. For a file whose extension is ignored, whatever the
    collection holds and whatever the world is, the import step first
    computes the key of the file ([get_file_key] runs before the
    extension is looked at, so the file is opened and hashed), then
    prints that the file is ignored, and copies nothing: the file system
    is left as it was. *)
Theorem ignored_extension_hashed_not_copied (col : Collection.t)
    (root fil : string) (w : World) (data : list byte) :
  get_file_extension fil ∈ IGNORED_EXT →
  fs w !! Os.join root fil = Some (File data) →
  ∃ w', import_file col root fil w = (Ok tt, w')
        ∧ fs w' = fs w
        ∧ stdout w' = stdout w ++ ["- Ignored: " +:+ Os.join root fil]
        ∧ hashed w' = hashed w ++ [Os.join root fil].
Proof.
  intros Hext Hf. destruct (default_key data) as (k & Hk & _).
  rewrite (import_file_readable col root fil w data k Hf Hk).
  rewrite bool_decide_eq_true_2 by exact Hext. simpl.
  eexists. split; [reflexivity|]. auto.
Qed.

Lemma ignored_extension_hashed_not_copied_witness :
  ∃ w', import_file
          {| Collection.directory := "col";
             Collection.blacklist := ∅; Collection.whitelist := ∅ |}
          "src/sub" "m.json" demo_world = (Ok tt, w')
        ∧ fs w' = fs demo_world
        ∧ stdout w' = stdout demo_world ++ ["- Ignored: " +:+ Os.join "src/sub" "m.json"]
        ∧ hashed w' = hashed demo_world ++ [Os.join "src/sub" "m.json"].
Proof.
  apply (ignored_extension_hashed_not_copied _ "src/sub" "m.json" demo_world
           (Py.encode "{}")).
  - vm_compute. set_solver.
  - vm_compute. reflexivity.
Defined.

(** ** The two loops as one *)

Lemma for_each_app {S A} (xs ys : list A) (body : A → M S unit) (s : S) :
  for_each (xs ++ ys) body s = bind (for_each xs body) (λ _, for_each ys body) s.
Proof.
  revert s. induction xs as [|x xs IH]; intros s.
  - reflexivity.
  - cbn [for_each app]. unfold bind. destruct (body x s) as [[[]|e] s1].
    + rewrite IH. reflexivity.
    + reflexivity.
Qed.

Lemma for_each_map {S A B} (f : A → B) (xs : list A) (body : B → M S unit) (s : S) :
  for_each (map f xs) body s = for_each xs (λ x, body (f x)) s.
Proof.
  revert s. induction xs as [|x xs IH]; intros s; [reflexivity|].
  simpl. unfold bind. destruct (body (f x) s) as [[[]|e] s1]; [apply IH|reflexivity].
Qed.

(** The two loops are one loop over the walked files. *)
Lemma import_dirs_flat (col : Collection.t)
    (walked : list (string * list string * list string)) (w : World) :
  for_each walked (import_dir col) w
  = for_each (walked_files walked) (λ rf, import_file col rf.1 rf.2) w.
Proof.
  unfold walked_files. revert w.
  induction walked as [|[[root dirs] files] walked IH]; intros w; [reflexivity|].
  cbn [for_each flat_map]. rewrite for_each_app. unfold bind.
  rewrite for_each_map. cbn [fst snd import_dir].
  destruct (for_each (Py.sorted files) _ w) as [[[]|e] w1]; [apply IH|reflexivity].
Qed.

Lemma staged_from_subseteq (col : Collection.t) (m m' : gmap string inode) :
  staged_from col m m' → m ⊆ m'.
Proof.
  intros H. apply map_subseteq_spec. intros p x Hp.
  destruct (H p) as [E|(N & _)]; congruence.
Qed.

Lemma settled_mono (col : Collection.t) (m m' : gmap string inode)
    (rf : string * string) :
  m ⊆ m' → settled col m rf → settled col m' rf.
Proof.
  intros Hsub (data & k & Hf & Hk & Hcase). exists data, k.
  split; [eapply lookup_weaken; eassumption|]. split; [exact Hk|].
  destruct Hcase as [H|[x Hx]]; [now left|right].
  exists x. eapply lookup_weaken; eassumption.
Qed.

(** After an import that came to its end, no walked file needs a copy. *)
Lemma import_settles (col : Collection.t) (files : list (string * string))
    (w w' : World) :
  for_each files (λ rf, import_file col rf.1 rf.2) w = (Ok tt, w') →
  ∀ rf, rf ∈ files → settled col (fs w') rf.
Proof.
  revert w. induction files as [|[root fil] files IH]; intros w Hrun rf Hin.
  - inversion Hin.
  - cbn [for_each] in Hrun.
    apply bind_Ok_inv in Hrun as ([] & w1 & Hstep & Hrest).
    apply elem_of_cons in Hin as [->|Hin]; [|eapply IH; eassumption].
    assert (fs w1 ⊆ fs w') as Hsub.
    { apply (staged_from_subseteq col).
      pose proof (for_each_keeps (λ w w', staged_from col (fs w) (fs w'))
                    (λ rf, import_file col rf.1 rf.2) files
                    (λ s, staged_from_refl col (fs s))
                    (λ s1 s2 s3, staged_from_trans col (fs s1) (fs s2) (fs s3))
                    (λ x s, import_file_stages col x.1 x.2 s) w1) as H.
      rewrite Hrest in H. exact H. }
    apply (settled_mono col (fs w1)); [exact Hsub|].
    cbn [fst snd] in Hstep.
    destruct (fs w !! Os.join root fil) as [[data|]|] eqn:Hf.
    + destruct (default_key data) as (k & Hk & _).
      rewrite (import_file_readable col root fil w data k Hf Hk) in Hstep.
      exists data, k. cbn [fst snd].
      destruct (_ || _) eqn:Hknown.
      * injection Hstep as <-. auto.
      * destruct (fs w !! Os.join _ (k +:+ _)) as [x|] eqn:Ht;
          injection Hstep as <-; cbn [fs printed set_fs logged].
        -- split; [exact Hf|]. split; [exact Hk|]. right. eauto.
        -- split; [rewrite lookup_insert_ne by congruence; exact Hf|].
           split; [exact Hk|]. right. rewrite lookup_insert_eq. eauto.
    + destruct (import_file_unreadable col root fil w) as (e & E);
        [congruence|]. rewrite E in Hstep. discriminate Hstep.
    + destruct (import_file_unreadable col root fil w) as (e & E);
        [congruence|]. rewrite E in Hstep. discriminate Hstep.
Qed.

(** Where no walked file needs a copy, an import comes to its end,
    leaves the file system as it is, and prints only the lines of the
    files it ignores. *)
Lemma import_of_settled (col : Collection.t) (files : list (string * string))
    (w : World) :
  (∀ rf, rf ∈ files → settled col (fs w) rf) →
  for_each files (λ rf, import_file col rf.1 rf.2) w
  = (Ok tt,
     {| fs := fs w;
        stdout := stdout w ++ ignored_lines col (fs w) files;
        hashed := hashed w ++ map (λ rf, Os.join rf.1 rf.2) files |}).
Proof.
  revert w. induction files as [|[root fil] files IH]; intros w Hall.
  - simpl. unfold ret. rewrite !app_nil_r. now destruct w.
  - destruct (Hall (root, fil)) as (data & k & Hf & Hk & Hcase);
      [apply list_elem_of_here|]. cbn [fst snd] in Hf, Hk, Hcase.
    cbn [for_each]. unfold bind. cbn [fst snd].
    rewrite (import_file_readable col root fil w data k Hf Hk).
    assert (reports_ignored col (fs w) (root, fil)
            = bool_decide (get_file_extension fil ∈ IGNORED_EXT)
              || Collection.is_blacklisted col k
              || Collection.is_whitelisted col k) as Hrep.
    { unfold reports_ignored. cbn [fst snd]. now rewrite Hf, Hk. }
    cbn [ignored_lines flat_map map]. rewrite Hrep.
    destruct (_ || _) eqn:Hknown.
    + rewrite IH.
      * cbn [fs stdout hashed printed logged]. unfold ignored_lines.
        now rewrite <- !app_assoc.
      * intros rf Hin. apply Hall. now apply list_elem_of_further.
    + destruct Hcase as [Hcase|[x Hx]]; [discriminate Hcase|]. rewrite Hx.
      rewrite IH.
      * cbn [fs stdout hashed printed logged]. unfold ignored_lines.
        now rewrite <- !app_assoc.
      * intros rf Hin. apply Hall. now apply list_elem_of_further.
Qed.

(** ** The walk of a source tree *)

Lemma scandir_name (m : gmap string inode) (top d : string) :
  d ∈ Os.scandir m top →
  d ≠ "" ∧ Os.has_slash d = false
  ∧ ∃ p, p ∈ dom m ∧ Os.entry_name top p = Some d.
Proof.
  unfold Os.scandir. rewrite elem_of_elements, elem_of_set_omap.
  intros (p & Hp & Hname). unfold Os.entry_name in Hname.
  destruct (Os.strip_prefix _ p) as [n|] eqn:E; [|discriminate].
  destruct (bool_decide (n = "")) eqn:E1; [discriminate|].
  destruct (Os.has_slash n) eqn:E2; [discriminate|].
  injection Hname as <-. apply bool_decide_eq_false in E1.
  repeat split; try assumption. exists p. split; [assumption|].
  unfold Os.entry_name. rewrite E. rewrite bool_decide_eq_false_2 by assumption.
  now rewrite E2.
Qed.

Lemma join_longer (top d : string) :
  d ≠ "" → Os.has_slash d = false →
  (String.length top < String.length (Os.join top d))%nat.
Proof.
  intros Hd Hs. rewrite join_relative by now apply no_slash_relative.
  rewrite sapp_length. unfold Os.dir_prefix.
  destruct d; [congruence|].
  destruct (_ || _); [simpl; lia|rewrite sapp_length; simpl; lia].
Qed.

(** The walk does not run out of fuel: any two amounts of fuel above
    the number of entries that are not above [top] give the same walk. *)
Lemma walk_fuel (m : gmap string inode) (f1 f2 : nat) (above : gset string)
    (top : string) :
  above ⊆ dom m →
  (∀ a, a ∈ above → (String.length a < String.length top)%nat) →
  (size m < size above + f1)%nat → (size m < size above + f2)%nat →
  walk_from f1 m top = walk_from f2 m top.
Proof.
  revert f2 above top.
  induction f1 as [|f1 IH]; intros f2 above top Hsub Hlen H1 H2.
  - pose proof (subseteq_size _ _ Hsub) as Hle. rewrite size_dom in Hle. lia.
  - destruct f2 as [|f2].
    { pose proof (subseteq_size _ _ Hsub) as Hle. rewrite size_dom in Hle. lia. }
    cbn [walk_from]. case_bool_decide as Htop; [|reflexivity].
    assert (top ∈ dom m) as Hdom by (apply elem_of_dom; eauto).
    assert (top ∉ above) as Hnew by (intros Ha; apply Hlen in Ha; lia).
    assert (size ({[ top ]} ∪ above) = S (size above)) as Hsize.
    { rewrite size_union by set_solver. now rewrite size_singleton. }
    f_equal. f_equal. apply list_fmap_ext. intros i d Hd.
    apply list_elem_of_lookup_2, list_elem_of_filter in Hd as [_ Hd].
    apply scandir_name in Hd as (Hne & Hsl & _).
    apply (IH f2 ({[ top ]} ∪ above)).
    + set_solver.
    + intros a [->%elem_of_singleton|Ha]%elem_of_union.
      * now apply join_longer.
      * etransitivity; [apply Hlen, Ha|now apply join_longer].
    + lia.
    + lia.
Qed.

Lemma strip_prefix_app_None (a b p : string) :
  Os.strip_prefix a p = None → Os.strip_prefix (a +:+ b) p = None.
Proof.
  revert p. induction a as [|x a IH]; intros p; [discriminate|].
  rewrite sapp_cons. destruct p as [|y p]; [reflexivity|]. simpl.
  destruct (Ascii.eqb x y); [apply IH|reflexivity].
Qed.

Lemma no_slash_ends (d : string) :
  Os.has_slash d = false → Os.ends_with_slash d = false.
Proof.
  induction d as [|c d IH]; [reflexivity|]. simpl.
  intros [Hc Hd]%orb_false_elim. destruct d; [exact Hc|now apply IH].
Qed.

Lemma dir_prefix_join (top d : string) :
  d ≠ "" → Os.has_slash d = false →
  Os.dir_prefix (Os.join top d) = Os.dir_prefix top +:+ d +:+ "/".
Proof.
  intros Hd Hs. rewrite join_relative by now apply no_slash_relative.
  unfold Os.dir_prefix at 1.
  rewrite ends_with_slash_app, no_slash_ends by assumption.
  rewrite bool_decide_eq_false_2; [simpl; now rewrite sapp_assoc|].
  destruct (Os.dir_prefix top); [now rewrite sapp_nil_l|discriminate].
Qed.

(** A prefix that ends with a slash is no prefix of a name without. *)
Lemma strip_prefix_name (a name : string) :
  Os.ends_with_slash a = true → Os.has_slash name = false →
  Os.strip_prefix a name = None.
Proof.
  revert name. induction a as [|x a IH]; intros name Ha Hn; [discriminate|].
  destruct name as [|y name]; [reflexivity|]. simpl in Hn |- *.
  apply orb_false_elim in Hn as [Hy Hn].
  destruct (Ascii.eqb_spec x y) as [->|_]; [|reflexivity].
  destruct a as [|x' a]; [simpl in Ha; congruence|].
  apply IH; [exact Ha|exact Hn].
Qed.

Lemma strip_prefix_outside (a b name : string) :
  Os.ends_with_slash a = true → Os.has_slash name = false →
  Os.strip_prefix a b = None → Os.strip_prefix a (b +:+ name) = None.
Proof.
  revert a. induction b as [|y b IH]; intros a Ha Hn Hab.
  - rewrite sapp_nil_l. now apply strip_prefix_name.
  - destruct a as [|x a]; [discriminate|]. rewrite sapp_cons. simpl in Hab |- *.
    destruct (Ascii.eqb x y); [|reflexivity].
    destruct a as [|x' a]; [discriminate|].
    apply IH; [exact Ha|exact Hn|exact Hab].
Qed.

(** An import makes no directory and removes none. *)
Lemma staged_dirs (col : Collection.t) (m m' : gmap string inode) (p : string) :
  staged_from col m m' → m' !! p = Some Dir ↔ m !! p = Some Dir.
Proof.
  intros Hst. destruct (Hst p) as [->|(N & _ & data & _ & _ & _ & _ & -> & _)];
    [reflexivity|]. rewrite N. split; discriminate.
Qed.

(** Two loops agree when their bodies agree wherever an invariant of
    the first holds. *)
Lemma for_each_agree {S A} (Inv : S → Prop) (F G : A → M S unit) (xs : list A) :
  (∀ x s, x ∈ xs → Inv s → F x s = G x s) →
  (∀ x s, Inv s → Inv (F x s).2) →
  ∀ s, Inv s → for_each xs F s = for_each xs G s.
Proof.
  intros Hagree Hinv. induction xs as [|x xs IH]; intros s Hs; [reflexivity|].
  cbn [for_each]. unfold bind.
  rewrite <- (Hagree x s) by (apply list_elem_of_here || exact Hs).
  pose proof (Hinv x s Hs) as Hs1.
  destruct (F x s) as [[[]|e] s1]; [|reflexivity].
  apply IH; [|exact Hs1].
  intros y s' Hy. apply Hagree. now apply list_elem_of_further.
Qed.

(** The walk of a loop whose body makes no directory does not run out
    of fuel: any two amounts of fuel above the number of directories
    that are not above [top] give the same run. *)
Lemma for_walk_fuel
    (body : string * list string * list string → M World unit)
    (D : gset string) :
  (∀ x w, dirs_within D w → dirs_within D (body x w).2) →
  ∀ (f1 f2 : nat) (above : gset string) (top : string) (w : World),
    dirs_within D w → above ⊆ D →
    (∀ a, a ∈ above → (String.length a < String.length top)%nat) →
    (size D < size above + f1)%nat → (size D < size above + f2)%nat →
    Os.for_walk_from f1 top body w = Os.for_walk_from f2 top body w.
Proof.
  intros Hbody.
  induction f1 as [|f1 IH]; intros f2 above top w Hw Hsub Hlen H1 H2.
  - pose proof (subseteq_size _ _ Hsub) as Hle. lia.
  - destruct f2 as [|f2].
    { pose proof (subseteq_size _ _ Hsub) as Hle. lia. }
    cbn [Os.for_walk_from]. case_bool_decide as Htop; [|reflexivity].
    assert (top ∈ D) as Hdom by apply Hw, Htop.
    assert (top ∉ above) as Hnew by (intros Ha; apply Hlen in Ha; lia).
    assert (size ({[ top ]} ∪ above) = S (size above)) as Hsize.
    { rewrite size_union by set_solver. now rewrite size_singleton. }
    unfold bind.
    rewrite (for_each_agree (dirs_within D)
               (λ d, Os.for_walk_from f1 (Os.join top d) body)
               (λ d, Os.for_walk_from f2 (Os.join top d) body)).
    + reflexivity.
    + intros d s Hd Hs. apply list_elem_of_filter in Hd as [_ Hd].
      apply scandir_name in Hd as (Hne & Hsl & _).
      apply (IH f2 ({[ top ]} ∪ above)).
      * exact Hs.
      * set_solver.
      * intros a [->%elem_of_singleton|Ha]%elem_of_union.
        -- now apply join_longer.
        -- etransitivity; [apply Hlen, Ha|now apply join_longer].
      * lia.
      * lia.
    + intros d s.
      apply (for_walk_keeps (λ s s', dirs_within D s → dirs_within D s') body).
      * auto.
      * auto.
      * intros x s'. apply Hbody.
    + exact Hw.
Qed.

(** The import does not run out of fuel: more fuel than the import
    takes changes nothing. *)
Lemma import_files_fuel (col : Collection.t) (src : string) (w : World)
    (fuel : nat) :
  (size (fs w) < fuel)%nat →
  Os.for_walk_from fuel src (import_dir col) w = import_files col src w.
Proof.
  intros Hfuel. unfold import_files, Os.for_walk.
  apply (for_walk_fuel (import_dir col) (dom (fs w)))
    with (above := (∅ : gset string)).
  - intros x s Hs p Hp. apply Hs.
    now apply (staged_dirs col (fs s) _ p (import_dir_stages col x s)).
  - intros p Hp. apply elem_of_dom. eauto.
  - apply empty_subseteq.
  - intros a Ha. now apply elem_of_empty in Ha.
  - rewrite size_dom, size_empty. lia.
  - rewrite size_dom, size_empty. lia.
Qed.

Lemma strip_prefix_self (a rest : string) :
  Os.strip_prefix a (a +:+ rest) = Some rest.
Proof.
  induction a as [|x a IH]; [reflexivity|].
  rewrite sapp_cons. simpl. now rewrite Ascii.eqb_refl.
Qed.

(** C9, as it fails: the collection [col] imported into itself, a
    source directory that holds the airlock.  Its two empty decision
    lists have one key and no extension, so one file is staged: a path
    below the source directory, at which there was nothing, holds a
    file after the import, and the source directory is found with one
    file more when it is walked again. *)
Lemma import_into_the_source_tree :
  let COL := {| Collection.directory := "col";
                Collection.blacklist := {[ "" ]};
                Collection.whitelist := {[ "" ]} |} in
  let w := (Collection.__init__ "col" demo_world).2 in
  let staged := "col/.airlock/27ae41e4649b934ca495991b7852b85500000000" in
  ∃ w',
    import_files COL "col" w = (Ok tt, w')
    ∧ Os.strip_prefix (Os.dir_prefix "col") staged
      = Some ".airlock/27ae41e4649b934ca495991b7852b85500000000"
    ∧ fs w !! staged = None
    ∧ fs w' !! staged = Some (File [])
    ∧ source_files "col" w
      = [ ("col", ".blacklist"); ("col", ".whitelist") ]
    ∧ source_files "col" w'
      = [ ("col/.airlock", "27ae41e4649b934ca495991b7852b85500000000");
          ("col", ".blacklist"); ("col", ".whitelist") ]
    ∧ stdout w'
      = [ "+ Copied:  col/.blacklist -> col/.airlock/27ae41e4649b934ca495991b7852b85500000000" ].
Proof.
  eexists. split; [vm_compute; reflexivity|].
  vm_compute. repeat split; reflexivity.
Qed.

(** C9, amended. Whatever an import does and however it ends, every
    entry of the file system that was there before is there after it,
    unchanged (the source files are copied, never moved or rewritten);
    what is new is a regular file directly inside the airlock that
    holds the bytes of a file that was there before; so at a path that
    is not one of a file in the airlock nothing changes at all.  The
    source tree keeps all it had, and it gains the staged files where
    the airlock lies inside it. *)
Theorem import_writes_into_airlock_only (col : Collection.t) (src : string)
    (w : World) :
  let w' := (import_files col src w).2 in
  (∀ p x, fs w !! p = Some x → fs w' !! p = Some x)
  ∧ (∀ p, fs w' !! p ≠ fs w !! p →
          fs w !! p = None
          ∧ ∃ name data f,
              p = Os.join (Collection.get_airlock col) name
              ∧ name ≠ "" ∧ Os.has_slash name = false
              ∧ fs w' !! p = Some (File data)
              ∧ fs w !! f = Some (File data))
  ∧ (∀ p, (∀ name, Os.has_slash name = false →
                   p ≠ Os.join (Collection.get_airlock col) name) →
          fs w' !! p = fs w !! p).
Proof.
  intros w'. pose proof (import_files_stages col src w) as H. fold w' in H.
  split; [|split].
  - intros p x Hp. destruct (H p) as [E|(N & _)]; congruence.
  - intros p Hp. destruct (H p) as [E|(N & Hnew)]; [congruence|auto].
  - intros p Hp. destruct (H p) as [E|(_ & name & _ & _ & -> & _ & Hsl & _)];
      [exact E|]. now destruct (Hp name Hsl).
Qed.

(** ** Importing twice *)

Lemma strip_prefix_Some (a p n : string) :
  Os.strip_prefix a p = Some n → p = a +:+ n.
Proof.
  revert p. induction a as [|x a IH]; intros p.
  - intros [= ->]. reflexivity.
  - destruct p as [|y p]; [discriminate|]. simpl.
    destruct (Ascii.eqb_spec x y) as [->|_]; [|discriminate].
    intros H. rewrite sapp_cons. f_equal. now apply IH.
Qed.

(** What the walk lists as a file of a directory is a regular file. *)
Lemma walk_lists_files (fuel : nat) (m : gmap string inode) (top : string)
    (root fil : string) (dirs files : list string) :
  (root, dirs, files) ∈ walk_from fuel m top → fil ∈ files →
  ∃ data, m !! Os.join root fil = Some (File data).
Proof.
  revert top. induction fuel as [|fuel IH]; intros top Hin Hfil.
  - inversion Hin.
  - cbn [walk_from] in Hin. case_bool_decide as Htop; [|inversion Hin].
    apply elem_of_app in Hin as [Hin|Hin].
    + apply list_elem_of_In, in_concat in Hin as (l & Hl & Hin).
      apply in_map_iff in Hl as (d & <- & _). apply list_elem_of_In in Hin.
      eapply IH; eassumption.
    + apply list_elem_of_singleton in Hin. injection Hin as -> -> ->.
      apply list_elem_of_filter in Hfil as [Hnd Hfil].
      apply scandir_name in Hfil as (Hne & Hsl & p & Hp & Hname).
      unfold Os.entry_name in Hname.
      destruct (Os.strip_prefix _ p) as [n|] eqn:E; [|discriminate].
      destruct (_ || _); [discriminate|]. injection Hname as ->.
      apply strip_prefix_Some in E. subst p.
      rewrite <- join_relative in Hp by now apply no_slash_relative.
      apply elem_of_dom in Hp as [[data|] Hx]; [eauto|congruence].
Qed.

Lemma insert_sorted_elem (x y : string) (l : list string) :
  x ∈ Py.insert_sorted y l → x = y ∨ x ∈ l.
Proof.
  induction l as [|z l IH]; simpl.
  - intros ->%list_elem_of_singleton. now left.
  - destruct (String.leb y z).
    + intros [->|H]%elem_of_cons; [now left|now right].
    + intros [->|H]%elem_of_cons; [right; apply list_elem_of_here|].
      destruct (IH H) as [->|H']; [now left|right; now apply list_elem_of_further].
Qed.

Lemma sorted_elem (x : string) (l : list string) : x ∈ Py.sorted l → x ∈ l.
Proof.
  unfold Py.sorted. induction l as [|y l IH]; simpl; [easy|].
  intros [->|H]%insert_sorted_elem; [apply list_elem_of_here|].
  apply list_elem_of_further, IH, H.
Qed.

Lemma source_files_readable (src : string) (w : World) (rf : string * string) :
  rf ∈ source_files src w →
  ∃ data, fs w !! Os.join rf.1 rf.2 = Some (File data).
Proof.
  unfold source_files, walked_files.
  rewrite list_elem_of_In, in_flat_map.
  intros ([[root dirs] files] & Hin & Hrf).
  apply list_elem_of_In in Hin. apply in_map_iff in Hrf as (fil & <- & Hfil).
  apply list_elem_of_In, sorted_elem in Hfil.
  eapply walk_lists_files; eassumption.
Qed.

(** An import of files that can be read comes to its end. *)
Lemma import_total (col : Collection.t) (files : list (string * string))
    (w : World) :
  (∀ rf, rf ∈ files → ∃ data, fs w !! Os.join rf.1 rf.2 = Some (File data)) →
  ∃ w', for_each files (λ rf, import_file col rf.1 rf.2) w = (Ok tt, w').
Proof.
  revert w. induction files as [|[root fil] files IH]; intros w Hall.
  - eexists. reflexivity.
  - destruct (Hall (root, fil)) as (data & Hf); [apply list_elem_of_here|].
    cbn [fst snd] in Hf. cbn [for_each]. unfold bind. cbn [fst snd].
    pose proof (import_file_stages col root fil w) as Hst.
    apply staged_from_subseteq in Hst.
    destruct (default_key data) as (k & Hk & _).
    rewrite (import_file_readable col root fil w data k Hf Hk) in Hst |- *.
    assert (∀ w1, fs w ⊆ fs w1 →
              ∃ w', for_each files (λ rf, import_file col rf.1 rf.2) w1
                    = (Ok tt, w')) as Hrest.
    { intros w1 Hsub. apply IH. intros rf Hin.
      destruct (Hall rf) as (d & Hd); [now apply list_elem_of_further|].
      exists d. eapply lookup_weaken; eassumption. }
    destruct (_ || _); [apply Hrest, Hst|].
    destruct (fs w !! Os.join _ (k +:+ _)); apply Hrest, Hst.
Qed.

(** C2, as it fails: [src] holds the bytes [X] three times, as
    [a.jpg], [b.jpg] and [c.png], and a sidecar file.  The first import
    stages two files for the one content, one for each extension, and
    says nothing of [b.jpg]; the second import copies nothing and prints
    one line, for the sidecar file: the three pictures, whose places in
    the airlock are taken, are passed over without a word. *)
Lemma second_import_is_silent :
  ∃ COL w0 w1 w2,
    Collection.__init__ "col" demo_world = (Ok COL, w0)
    ∧ import_files COL "src" w0 = (Ok tt, w1)
    ∧ import_files COL "src" w1 = (Ok tt, w2)
    ∧ stdout w1
      = [ "- Ignored: src/sub/m.json";
          "+ Copied:  src/a.jpg -> col/.airlock/5eab7351ed5e78f4ddadea5df64b801500000001.jpg";
          "+ Copied:  src/c.png -> col/.airlock/5eab7351ed5e78f4ddadea5df64b801500000001.png" ]
    ∧ stdout w2 = stdout w1 ++ [ "- Ignored: src/sub/m.json" ]
    ∧ Os.scandir (fs w2) "col/.airlock"
      = [ "5eab7351ed5e78f4ddadea5df64b801500000001.jpg";
          "5eab7351ed5e78f4ddadea5df64b801500000001.png" ].
Proof.
  eexists _, _, _, _.
  split; [vm_compute; reflexivity|].
  split; [vm_compute; reflexivity|].
  split; [vm_compute; reflexivity|].
  split; [vm_compute; reflexivity|].
  split; vm_compute; reflexivity.
Qed.

(** ** The review handlers *)

Lemma in_world_run {A} (m : M World A) (s : Session) (r : result A) (w : World) :
  m (world s) = (r, w) →
  in_world m s = (r, {| col := col s; player := player s; world := w |}).
Proof. unfold in_world. now intros ->. Qed.

Lemma current_filename_run (s : Session) (i : nat) (fname : string) :
  playlist_pos (player s) = Some i → playlist (player s) !! i = Some fname →
  current_filename s = (Ok fname, s).
Proof. unfold current_filename. now intros -> ->. Qed.

Lemma blacklist_handler_run (s : Session) (state fname : string)
    (data : list byte) (k : string) (i : nat) :
  key_up state = Ok true →
  playlist_pos (player s) = Some i → playlist (player s) !! i = Some fname →
  fs (world s) !! fname = Some (File data) →
  content_key data HASH_LENGTH SIZE_LENGTH = Ok k →
  blacklist_handler state s
  = (Ok tt,
     {| col := Collection.blacklist_file (col s) k;
        player := removed i (player s);
        world := printed ("Blacklisted: " +:+ fname)
                   (set_fs (delete fname) (logged fname (world s))) |}).
Proof.
  intros Hup Hpos Hcur Hf Hk. unfold blacklist_handler.
  unfold bind at 1. unfold lift_result. rewrite Hup. cbv beta iota.
  rewrite (bind_Ok _ _ _ _ _ (current_filename_run s i fname Hpos Hcur)).
  pose proof (get_file_key_File (world s) fname data HASH_LENGTH SIZE_LENGTH Hf) as E.
  rewrite Hk in E.
  rewrite (bind_Ok _ _ _ _ _
             (in_world_run (get_file_key fname HASH_LENGTH SIZE_LENGTH) s _ _ E)).
  unfold bind, update_col, playlist_remove, modify, in_world, Os.remove, print.
  cbn [col player world fs logged]. rewrite Hpos, Hf. reflexivity.
Qed.

Lemma move_file (src dst : string) (w : World) (data : list byte) :
  fs w !! src = Some (File data) → fs w !! dst ≠ Some Dir →
  Shutil.move src dst w
  = (Ok tt, set_fs (λ m, <[dst := File data]> (delete src m)) w).
Proof.
  intros Hs Hd. unfold Shutil.move.
  assert (Os.isdir dst w = (Ok false, w)) as E.
  { unfold Os.isdir. now rewrite bool_decide_eq_false_2. }
  rewrite (bind_Ok _ _ _ _ _ E). cbv iota.
  rewrite (bind_Ok (ret dst) _ w w dst eq_refl). rewrite Hs.
  destruct (fs w !! dst) as [[|]|]; congruence.
Qed.

Lemma whitelist_handler_run (s : Session) (state fname : string)
    (data : list byte) (k : string) (i : nat) :
  let dst := Os.join (Collection.get_gallery (col s)) (Os.basename fname) in
  key_up state = Ok true →
  playlist_pos (player s) = Some i → playlist (player s) !! i = Some fname →
  fs (world s) !! fname = Some (File data) →
  fs (world s) !! dst ≠ Some Dir →
  content_key data HASH_LENGTH SIZE_LENGTH = Ok k →
  whitelist_handler state s
  = (Ok tt,
     {| col := Collection.whitelist_file (col s) k;
        player := removed i (player s);
        world := printed ("Whitelisted: " +:+ fname)
                   (set_fs (λ m, <[dst := File data]> (delete fname m))
                      (logged fname (world s))) |}).
Proof.
  intros dst Hup Hpos Hcur Hf Hd Hk. unfold whitelist_handler.
  unfold bind at 1. unfold lift_result. rewrite Hup. cbv beta iota.
  rewrite (bind_Ok _ _ _ _ _ (current_filename_run s i fname Hpos Hcur)).
  pose proof (get_file_key_File (world s) fname data HASH_LENGTH SIZE_LENGTH Hf) as E.
  rewrite Hk in E.
  rewrite (bind_Ok _ _ _ _ _
             (in_world_run (get_file_key fname HASH_LENGTH SIZE_LENGTH) s _ _ E)).
  unfold bind at 1. unfold update_col, modify.
  unfold bind at 1. unfold playlist_remove, modify. cbn [col player world].
  unfold bind at 1. cbn [col].
  rewrite Hpos. fold (removed i (player s)).
  change (Collection.get_gallery (Collection.whitelist_file (col s) k))
    with (Collection.get_gallery (col s)). fold dst.
  pose proof (move_file fname dst (logged fname (world s)) data Hf Hd) as Em.
  rewrite (bind_Ok _ _ _ _ _
             (in_world_run (Shutil.move fname dst)
                {| col := Collection.whitelist_file (col s) k;
                   player := removed i (player s);
                   world := logged fname (world s) |} _ _ Em)).
  reflexivity.
Qed.

Lemma basename_entry (a name : string) :
  Os.has_slash name = false → Os.basename (a +:+ "/" +:+ name) = name.
Proof.
  intros Hn. change ("/" +:+ name) with (String Py.slash name).
  induction a as [|c a IH].
  - rewrite sapp_nil_l. simpl. now rewrite Hn.
  - rewrite sapp_cons. simpl.
    rewrite has_slash_app. simpl. now rewrite orb_true_r.
Qed.

Lemma staged_path (c name : string) :
  Os.has_slash name = false →
  Os.join (Os.join c AIRLOCK_DIR) name
  = (Os.dir_prefix c +:+ AIRLOCK_DIR) +:+ "/" +:+ name.
Proof.
  intros Hn.
  rewrite join_join
    by first [reflexivity | discriminate | now apply no_slash_relative].
  now rewrite sapp_assoc.
Qed.

Lemma staged_not_blacklist (c name : string) :
  Os.has_slash name = false →
  Os.join (Os.join c AIRLOCK_DIR) name ≠ Os.join c BLACKLIST_FILE.
Proof.
  intros Hn. rewrite staged_path, sapp_assoc by assumption.
  rewrite (join_relative c BLACKLIST_FILE) by reflexivity.
  intros E. apply (inj (String.app _)) in E. discriminate E.
Qed.

Lemma staged_not_whitelist (c name : string) :
  Os.has_slash name = false →
  Os.join (Os.join c AIRLOCK_DIR) name ≠ Os.join c WHITELIST_FILE.
Proof.
  intros Hn. rewrite staged_path, sapp_assoc by assumption.
  rewrite (join_relative c WHITELIST_FILE) by reflexivity.
  intros E. apply (inj (String.app _)) in E. discriminate E.
Qed.

Lemma staged_not_gallery (c name name' : string) :
  Os.has_slash name = false → Os.has_slash name' = false →
  Os.join (Os.join c AIRLOCK_DIR) name ≠ Os.join (Os.join c GALLERY_DIR) name'.
Proof.
  intros Hn Hn'. rewrite staged_path, sapp_assoc by assumption.
  rewrite (join_join c GALLERY_DIR name')
    by first [reflexivity | discriminate | now apply no_slash_relative].
  intros E. apply (inj (String.app _)) in E. discriminate E.
Qed.

(** C5, as it fails: the picture staged from [src/a.jpg] is accepted.
    It leaves the airlock and arrives in the gallery under the name it
    had in the airlock, its content key and its extension; no file
    [a.jpg], the original basename, appears in the gallery. *)
Lemma accepted_file_is_named_by_its_key :
  ∃ s',
    whitelist_handler "u-" demo_review = (Ok tt, s')
    ∧ fs (world s') !! "col/Gallery/a.jpg" = None
    ∧ fs (world s')
        !! "col/Gallery/5eab7351ed5e78f4ddadea5df64b801500000001.jpg"
      = Some (File (Py.encode "X"))
    ∧ fs (world s')
        !! "col/.airlock/5eab7351ed5e78f4ddadea5df64b801500000001.jpg"
      = None
    ∧ Collection.is_whitelisted (col s')
        "5eab7351ed5e78f4ddadea5df64b801500000001" = true.
Proof.
  eexists. split; [vm_compute; reflexivity|].
  vm_compute. repeat split; reflexivity.
Qed.

(** C5, amended. When the file staged as [name] in the airlock is
    accepted, the gallery being a directory that holds no directory of
    that name, the file leaves the airlock and is in the gallery under
    the same [name] -- the basename of its path in the airlock, which
    for a file staged by an import is its content key followed by its
    extension --, with the same bytes; nothing else in the file system
    changes, and the key of the file is in the whitelist of the
    collection. *)
Theorem accepted_file_moves_to_gallery (s : Session) (state name : string)
    (data : list byte) (i : nat) :
  let fname := Os.join (Collection.get_airlock (col s)) name in
  let dst := Os.join (Collection.get_gallery (col s)) name in
  key_up state = Ok true →
  Os.has_slash name = false →
  playlist_pos (player s) = Some i → playlist (player s) !! i = Some fname →
  fs (world s) !! fname = Some (File data) →
  fs (world s) !! Collection.get_gallery (col s) = Some Dir →
  fs (world s) !! dst ≠ Some Dir →
  ∃ k s',
    (get_file_key fname HASH_LENGTH SIZE_LENGTH (world s)).1 = Ok k
    ∧ whitelist_handler state s = (Ok tt, s')
    ∧ Os.basename fname = name
    ∧ fs (world s') !! fname = None
    ∧ fs (world s') !! dst = Some (File data)
    ∧ (∀ p, p ≠ fname → p ≠ dst → fs (world s') !! p = fs (world s) !! p)
    ∧ k ∈ Collection.whitelist (col s')
    ∧ Collection.is_whitelisted (col s') k = true.
Proof.
  intros fname dst Hup Hn Hpos Hcur Hf _ Hd.
  destruct (default_key data) as (k & Hk & _).
  assert (Os.basename fname = name) as Hbase.
  { unfold fname, Collection.get_airlock. rewrite staged_path by assumption.
    now apply basename_entry. }
  assert (fname ≠ dst) as Hne.
  { unfold fname, dst, Collection.get_airlock, Collection.get_gallery.
    now apply staged_not_gallery. }
  exists k. eexists.
  split; [rewrite (get_file_key_File _ _ data) by exact Hf; exact Hk|].
  split.
  { apply (whitelist_handler_run s state fname data k i); try assumption.
    rewrite Hbase. exact Hd. }
  rewrite Hbase. fold dst. cbn [world col fs printed set_fs logged].
  split; [reflexivity|].
  split; [rewrite lookup_insert_ne, lookup_delete_eq by congruence; reflexivity|].
  split; [apply lookup_insert_eq|].
  split.
  { intros p Hp1 Hp2.
    rewrite lookup_insert_ne, lookup_delete_ne by congruence. reflexivity. }
  assert (k ∈ Collection.whitelist (Collection.whitelist_file (col s) k)) as Hin.
  { cbn [Collection.whitelist Collection.whitelist_file]. set_solver. }
  split; [exact Hin|].
  unfold Collection.is_whitelisted. now rewrite bool_decide_eq_true_2.
Qed.

Lemma accepted_file_moves_to_gallery_witness :
  let name := "5eab7351ed5e78f4ddadea5df64b801500000001.jpg" in
  let fname := Os.join (Collection.get_airlock (col demo_review)) name in
  let dst := Os.join (Collection.get_gallery (col demo_review)) name in
  ∃ k s',
    (get_file_key fname HASH_LENGTH SIZE_LENGTH (world demo_review)).1 = Ok k
    ∧ whitelist_handler "u-" demo_review = (Ok tt, s')
    ∧ Os.basename fname = name
    ∧ fs (world s') !! fname = None
    ∧ fs (world s') !! dst = Some (File (Py.encode "X"))
    ∧ (∀ p, p ≠ fname → p ≠ dst →
            fs (world s') !! p = fs (world demo_review) !! p)
    ∧ k ∈ Collection.whitelist (col s')
    ∧ Collection.is_whitelisted (col s') k = true.
Proof.
  apply (accepted_file_moves_to_gallery demo_review "u-"
           "5eab7351ed5e78f4ddadea5df64b801500000001.jpg" (Py.encode "X") 0).
  - reflexivity.
  - reflexivity.
  - reflexivity.
  - reflexivity.
  - vm_compute. reflexivity.
  - vm_compute. reflexivity.
  - vm_compute. discriminate.
Defined.

(** ** Rejecting a file, closing and opening again *)

Lemma universal_newlines_no_return (s : string) :
  all_chars (λ c, negb (Ascii.eqb c Py.carriage_return))
    (Py.universal_newlines s) = true.
Proof.
  enough (H : all_chars (λ c, negb (Ascii.eqb c Py.carriage_return))
                (Py.universal_newlines s) = true
              ∧ ∀ c, all_chars (λ c, negb (Ascii.eqb c Py.carriage_return))
                       (Py.universal_newlines (String c s)) = true)
    by apply H.
  induction s as [|c s [IH1 IH2]].
  - split; [reflexivity|]. intros c. simpl.
    destruct (Ascii.eqb c Py.carriage_return) eqn:E; simpl; [reflexivity|].
    now rewrite E.
  - split; [apply IH2|]. intros c0.
    specialize (IH2 c). cbn [Py.universal_newlines] in IH2 |- *.
    destruct (Ascii.eqb c0 Py.carriage_return) eqn:E0.
    + destruct (Ascii.eqb c Py.newline); simpl; [exact IH1|exact IH2].
    + simpl. rewrite E0. exact IH2.
Qed.

Lemma split_lines_chars (P : ascii → bool) (t l : string) :
  all_chars P t = true → l ∈ Py.split_lines t →
  all_chars (λ c, P c && negb (Ascii.eqb c Py.newline)) l = true.
Proof.
  revert l. induction t as [|c t IH]; intros l Ht Hl.
  - apply list_elem_of_singleton in Hl. now subst l.
  - simpl in Ht. apply andb_prop in Ht as [Hc Ht]. cbn [Py.split_lines] in Hl.
    destruct (Ascii.eqb c Py.newline) eqn:E.
    + apply elem_of_cons in Hl as [->|Hl]; [reflexivity|now apply IH].
    + destruct (Py.split_lines t) as [|l0 ls] eqn:Es.
      * apply list_elem_of_singleton in Hl. subst l. simpl. now rewrite Hc, E.
      * apply elem_of_cons in Hl as [->|Hl].
        -- simpl. rewrite Hc, E. simpl. apply IH; [exact Ht|apply list_elem_of_here].
        -- apply IH; [exact Ht|now apply list_elem_of_further].
Qed.

(** The keys a collection has read hold no line break. *)
Lemma parse_keys_clean (d : list byte) (k : string) :
  k ∈ parse_keys d → no_line_break k = true.
Proof.
  unfold parse_keys. rewrite elem_of_list_to_set. intros Hk.
  eapply all_chars_impl;
    [|exact (split_lines_chars _ _ _ (universal_newlines_no_return _) Hk)].
  intros c [H1 H2]%andb_prop. unfold is_line_break.
  apply negb_true_iff in H1, H2. now rewrite H1, H2.
Qed.

(** C4, as it fails: the airlock of the demo collection holds one
    content under two names, the key with [.jpg] and the key with
    [.png].  The first is rejected, the collection is closed and opened
    again: the key is blacklisted, the rejected file is gone, and the
    other file staged for the same key is in the airlock still. *)
Lemma same_key_stays_staged :
  let jpg := "col/.airlock/5eab7351ed5e78f4ddadea5df64b801500000001.jpg" in
  let png := "col/.airlock/5eab7351ed5e78f4ddadea5df64b801500000001.png" in
  let k := "5eab7351ed5e78f4ddadea5df64b801500000001" in
  ∃ s2 w3 COL',
    (get_file_key jpg HASH_LENGTH SIZE_LENGTH (world demo_review)).1 = Ok k
    ∧ (get_file_key png HASH_LENGTH SIZE_LENGTH (world demo_review)).1 = Ok k
    ∧ blacklist_handler "u-" demo_review = (Ok tt, s2)
    ∧ Collection.__exit__ (col s2) (world s2) = (Ok tt, w3)
    ∧ Collection.__init__ "col" w3 = (Ok COL', w3)
    ∧ Collection.is_blacklisted COL' k = true
    ∧ fs w3 !! jpg = None
    ∧ fs w3 !! png = Some (File (Py.encode "X")).
Proof.
  eexists _, _, _.
  split; [vm_compute; reflexivity|].
  split; [vm_compute; reflexivity|].
  split; [vm_compute; reflexivity|].
  split; [vm_compute; reflexivity|].
  split; [vm_compute; reflexivity|].
  vm_compute. repeat split; reflexivity.
Qed.


(** C4, amended. A collection is opened, on decision lists of ASCII
    text; the file staged as [name] in its airlock is rejected; the
    collection is closed and opened again.  Then the key of the file
    is in the blacklist that was loaded, so the key is known, and the
    rejected file is gone from the airlock.  Only that file is gone:
    but for it and the two decision lists the file system is as it was
    when the file was rejected, so a file staged for the same key under
    another name is in the airlock still. *)
Theorem rejected_key_is_known_after_reopening (c : string) (w0 w1 : World)
    (COL : Collection.t) (p : Player) (state name : string)
    (data : list byte) (i : nat) :
  let fname := Os.join (Collection.get_airlock COL) name in
  ascii_list (fs w0 !! Os.join c BLACKLIST_FILE) →
  ascii_list (fs w0 !! Os.join c WHITELIST_FILE) →
  Collection.__init__ c w0 = (Ok COL, w1) →
  key_up state = Ok true →
  Os.has_slash name = false →
  playlist_pos p = Some i → playlist p !! i = Some fname →
  fs w1 !! fname = Some (File data) →
  ∃ k s2 w3 COL',
    (get_file_key fname HASH_LENGTH SIZE_LENGTH w1).1 = Ok k
    ∧ blacklist_handler state {| col := COL; player := p; world := w1 |}
      = (Ok tt, s2)
    ∧ Collection.__exit__ (col s2) (world s2) = (Ok tt, w3)
    ∧ Collection.__init__ c w3 = (Ok COL', w3)
    ∧ k ∈ Collection.blacklist COL'
    ∧ Collection.is_blacklisted COL' k
      || Collection.is_whitelisted COL' k = true
    ∧ fs w3 !! fname = None
    ∧ (∀ q, q ≠ fname →
            q ≠ Os.join c BLACKLIST_FILE → q ≠ Os.join c WHITELIST_FILE →
            fs w3 !! q = fs w1 !! q).
Proof.
  intros fname _ _ Hinit Hup Hn Hpos Hcur Hf.
  apply init_inv in Hinit
    as (Hdir & _ & _ & _ & Hc & Ha & Hg & d1 & d2 & Hb & Hw & Eb & Ew & _ & _).
  destruct (default_key data) as (k & Hk & Hlow & _).
  assert (fname = Os.join (Os.join c AIRLOCK_DIR) name) as Efname
    by (unfold fname, Collection.get_airlock; now rewrite Hdir).
  assert (fname ≠ Os.join c BLACKLIST_FILE) as Nb
    by (rewrite Efname; now apply staged_not_blacklist).
  assert (fname ≠ Os.join c WHITELIST_FILE) as Nw
    by (rewrite Efname; now apply staged_not_whitelist).
  pose proof (decision_files_differ c) as Nbw.
  set (s2 := {| col := Collection.blacklist_file COL k;
                player := removed i p;
                world := printed ("Blacklisted: " +:+ fname)
                           (set_fs (delete fname) (logged fname w1)) |}).
  set (B := Py.encode (serialize (elements (Collection.blacklist (col s2))))).
  set (W := Py.encode (serialize (elements (Collection.whitelist (col s2))))).
  set (w3 := set_fs (insert (Os.join c WHITELIST_FILE) (File W))
               (set_fs (insert (Os.join c BLACKLIST_FILE) (File B)) (world s2))).
  exists k, s2, w3.
  exists {| Collection.directory := c;
            Collection.blacklist := parse_keys B;
            Collection.whitelist := parse_keys W |}.
  split; [rewrite (get_file_key_File _ _ data) by exact Hf; exact Hk|].
  split.
  { exact (blacklist_handler_run {| col := COL; player := p; world := w1 |}
             state fname data k i Hup Hpos Hcur Hf Hk). }
  split.
  { assert (fs (world s2) !! Os.join c BLACKLIST_FILE ≠ Some Dir) as Hb2.
    { cbn [fs set_fs world s2 printed logged].
      rewrite lookup_delete_ne, Hb by congruence. discriminate. }
    pose proof (write_file_keys_spec _ (Collection.blacklist (col s2)) _ Hb2) as E1.
    unfold Collection.__exit__.
    change (Collection.directory (col s2)) with (Collection.directory COL).
    rewrite Hdir, (bind_Ok _ _ _ _ _ E1).
    apply write_file_keys_spec. cbn [fs set_fs world s2 printed logged].
    rewrite lookup_insert_ne, lookup_delete_ne, Hw by congruence. discriminate. }
  assert (∀ q, fs w1 !! q = Some Dir → fs w3 !! q = Some Dir) as Hkeep.
  { intros q Hq. cbn [fs set_fs w3 world s2 printed logged].
    rewrite !lookup_insert_ne, lookup_delete_ne by congruence. exact Hq. }
  split.
  { apply init_existing; try (apply Hkeep; assumption).
    - cbn [fs set_fs w3]. rewrite lookup_insert_ne by congruence.
      apply lookup_insert_eq.
    - cbn [fs set_fs w3]. apply lookup_insert_eq. }
  assert (k ∈ parse_keys B) as Hin.
  { unfold B. rewrite parse_serialized.
    - cbn [col s2 Collection.blacklist Collection.blacklist_file]. set_solver.
    - cbn [col s2 Collection.blacklist Collection.blacklist_file].
      intros k' [Hk'|Hk']%elem_of_union.
      + rewrite Eb in Hk'. now apply (parse_keys_clean d1).
      + apply elem_of_list_to_set, list_elem_of_singleton in Hk'. subst k'.
        now apply lower_hex_no_line_break. }
  split; [exact Hin|].
  split.
  { unfold Collection.is_blacklisted. cbn [Collection.blacklist].
    now rewrite bool_decide_eq_true_2. }
  cbn [fs set_fs w3 world s2 printed logged].
  split; [rewrite !lookup_insert_ne by congruence; apply lookup_delete_eq|].
  intros q Hq Hqb Hqw.
  rewrite !lookup_insert_ne, lookup_delete_ne by congruence. reflexivity.
Qed.

Lemma rejected_key_is_known_after_reopening_witness :
  let fname := Os.join (Collection.get_airlock (col demo_review))
                 "5eab7351ed5e78f4ddadea5df64b801500000001.jpg" in
  ∃ k s2 w3 COL',
    (get_file_key fname HASH_LENGTH SIZE_LENGTH (world demo_review)).1 = Ok k
    ∧ blacklist_handler "u-"
        {| col := col demo_review; player := player demo_review;
           world := world demo_review |}
      = (Ok tt, s2)
    ∧ Collection.__exit__ (col s2) (world s2) = (Ok tt, w3)
    ∧ Collection.__init__ "col" w3 = (Ok COL', w3)
    ∧ k ∈ Collection.blacklist COL'
    ∧ Collection.is_blacklisted COL' k
      || Collection.is_whitelisted COL' k = true
    ∧ fs w3 !! fname = None
    ∧ (∀ q, q ≠ fname →
            q ≠ Os.join "col" BLACKLIST_FILE → q ≠ Os.join "col" WHITELIST_FILE →
            fs w3 !! q = fs (world demo_review) !! q).
Proof.
  apply (rejected_key_is_known_after_reopening "col" demo_import.2
           (world demo_review) (col demo_review) (player demo_review) "u-"
           "5eab7351ed5e78f4ddadea5df64b801500000001.jpg" (Py.encode "X") 0).
  - vm_compute. reflexivity.
  - vm_compute. reflexivity.
  - vm_compute. reflexivity.
  - reflexivity.
  - reflexivity.
  - reflexivity.
  - reflexivity.
  - vm_compute. reflexivity.
Defined.

(** ** Closing a collection *)

Lemma exit_flushes (COL : Collection.t) (w : World) :
  let bl := Os.join (Collection.directory COL) BLACKLIST_FILE in
  let wl := Os.join (Collection.directory COL) WHITELIST_FILE in
  fs w !! bl ≠ Some Dir → fs w !! wl ≠ Some Dir →
  Collection.__exit__ COL w
  = (Ok tt,
     set_fs (λ m, <[wl := File (Py.encode (serialize (elements (Collection.whitelist COL))))]>
                    (<[bl := File (Py.encode (serialize (elements (Collection.blacklist COL))))]> m))
       w).
Proof.
  intros bl wl Hb Hw. unfold Collection.__exit__. fold bl wl.
  rewrite (bind_Ok _ _ _ _ _ (write_file_keys_spec bl (Collection.blacklist COL) w Hb)).
  rewrite write_file_keys_spec; [reflexivity|].
  cbn [fs set_fs]. rewrite lookup_insert_ne by apply not_eq_sym, decision_files_differ.
  exact Hw.
Qed.

(** C8. Whatever the body of [with Collection(c) as COL] does and
    however it ends -- it returns, as it does also when the user quits,
    or it raises --, [__exit__] then runs on the collection as the body
    left it: the two decision lists hold the two sets, the rest of the
    file system is as the body left it, and the outcome of the body is
    the outcome of the whole.  The lists have to be writable still: the
    body has not put directories in their places; an import never does.
    Each of the three modes of the main program runs inside such a
    [with]; the one exit before it, for a source that is no directory,
    is taken before the collection is opened. *)
Theorem collection_is_flushed_on_every_exit :
  (∀ (c : string) (body : M (Collection.t * World) unit) (w w1 w2 : World)
      (COL COL' : Collection.t) (r : result unit),
     Collection.__init__ c w = (Ok COL, w1) →
     body (COL, w1) = (r, (COL', w2)) →
     fs w2 !! Os.join (Collection.directory COL') BLACKLIST_FILE ≠ Some Dir →
     fs w2 !! Os.join (Collection.directory COL') WHITELIST_FILE ≠ Some Dir →
     ∃ w3,
       with_Collection c body w = (r, w3)
       ∧ fs w3 !! Os.join (Collection.directory COL') BLACKLIST_FILE
         = Some (File (Py.encode (serialize (elements (Collection.blacklist COL')))))
       ∧ fs w3 !! Os.join (Collection.directory COL') WHITELIST_FILE
         = Some (File (Py.encode (serialize (elements (Collection.whitelist COL')))))
       ∧ (∀ p, p ≠ Os.join (Collection.directory COL') BLACKLIST_FILE →
               p ≠ Os.join (Collection.directory COL') WHITELIST_FILE →
               fs w3 !! p = fs w2 !! p))
  ∧ (∀ (c src : string) (w w1 : World) (COL : Collection.t),
       Collection.__init__ c w = (Ok COL, w1) →
       ∃ r w3,
         with_Collection c (on_world (λ COL, import_files COL src)) w = (r, w3)
         ∧ r = (import_files COL src w1).1
         ∧ fs w3 !! Os.join c BLACKLIST_FILE
           = Some (File (Py.encode (serialize (elements (Collection.blacklist COL)))))
         ∧ fs w3 !! Os.join c WHITELIST_FILE
           = Some (File (Py.encode (serialize (elements (Collection.whitelist COL))))))
  ∧ (∀ (sort_airlock : M (Collection.t * World) unit)
        (view_collection : Z → M (Collection.t * World) unit)
        (int : string → result Z) (ARGS : Args) (c : string) (w : World),
       collection ARGS = Some c →
       main sort_airlock view_collection int ARGS w
       = if truthy (source ARGS) then
           if bool_decide (fs w !! default "" (source ARGS) = Some Dir) then
             with_Collection c
               (on_world (λ COL, import_files COL (default "" (source ARGS)))) w
           else
             (Raise (SystemExit (-1)),
              printed ("Soure directory " +:+ default "" (source ARGS)
                       +:+ " does not exist.") w)
         else if truthy (view ARGS) then
           with_Collection c
             (let* wait := lift_result (int (default "" (view ARGS))) in
              view_collection wait) w
         else with_Collection c sort_airlock w).
Proof.
  split; [|split].
  - intros c body w w1 w2 COL COL' r Hinit Hbody Hb Hw.
    pose proof (exit_flushes COL' w2 Hb Hw) as Hexit.
    eexists. split.
    { unfold with_Collection. rewrite Hinit, Hbody, Hexit. reflexivity. }
    cbn [fs set_fs].
    split; [rewrite lookup_insert_ne by apply decision_files_differ;
            apply lookup_insert_eq|].
    split; [apply lookup_insert_eq|].
    intros p Hp1 Hp2. now rewrite !lookup_insert_ne by congruence.
  - intros c src w w1 COL Hinit.
    pose proof Hinit as Hinv. apply init_inv in Hinv
      as (Hdir & _ & _ & _ & _ & _ & _ & d1 & d2 & Hb & Hw & _).
    pose proof (import_files_stages COL src w1) as Hst.
    apply staged_from_subseteq in Hst.
    destruct (import_files COL src w1) as [r w2] eqn:Himp. cbn [snd] in Hst.
    assert (fs w2 !! Os.join (Collection.directory COL) BLACKLIST_FILE ≠ Some Dir) as Hb2.
    { rewrite Hdir, (lookup_weaken _ _ _ _ Hb Hst). discriminate. }
    assert (fs w2 !! Os.join (Collection.directory COL) WHITELIST_FILE ≠ Some Dir) as Hw2.
    { rewrite Hdir, (lookup_weaken _ _ _ _ Hw Hst). discriminate. }
    pose proof (exit_flushes COL w2 Hb2 Hw2) as Hexit.
    exists r. eexists. split.
    { unfold with_Collection, on_world. rewrite Hinit, Himp, Hexit. reflexivity. }
    split; [reflexivity|]. cbn [fs set_fs]. rewrite Hdir.
    split; [rewrite lookup_insert_ne by apply decision_files_differ;
            apply lookup_insert_eq|apply lookup_insert_eq].
  - intros sort_airlock view_collection int ARGS c w Hc.
    unfold main, opened. rewrite Hc.
    destruct (truthy (source ARGS)); [|now destruct (truthy (view ARGS))].
    unfold bind at 1. unfold Os.isdir.
    case_bool_decide; reflexivity.
Qed.

Lemma collection_is_flushed_on_every_exit_witness :
  let body : M (Collection.t * World) unit :=
    let* wait := lift_result (Raise ValueError : result Z) in ret tt in
  let COL := {| Collection.directory := "col";
                Collection.blacklist := {[ "" ]};
                Collection.whitelist := {[ "" ]} |} in
  let w1 := (Collection.__init__ "col" demo_world).2 in
  ∃ w3,
    with_Collection "col" body demo_world = (Raise ValueError, w3)
    ∧ fs w3 !! Os.join (Collection.directory COL) BLACKLIST_FILE
      = Some (File (Py.encode (serialize (elements (Collection.blacklist COL)))))
    ∧ fs w3 !! Os.join (Collection.directory COL) WHITELIST_FILE
      = Some (File (Py.encode (serialize (elements (Collection.whitelist COL)))))
    ∧ (∀ p, p ≠ Os.join (Collection.directory COL) BLACKLIST_FILE →
            p ≠ Os.join (Collection.directory COL) WHITELIST_FILE →
            fs w3 !! p = fs w1 !! p).
Proof.
  intros body COL w1.
  apply (proj1 collection_is_flushed_on_every_exit "col" body demo_world w1 w1
           COL COL (Raise ValueError)).
  - vm_compute. reflexivity.
  - reflexivity.
  - vm_compute. discriminate.
  - vm_compute. discriminate.
Defined.

(** * Further properties *)

(** ** Keys *)

(** X2. [hex_encode] pads and never cuts: for a number that is not
    negative and a width that is not negative it returns lowercase
    hexadecimal digits, at least as many as the width asks for, and
    exactly that many when the number fits a width of at least one;
    read back with [int(s, 16)] they give the number, whatever the
    width. *)
Theorem hex_encode_reads_back (data length : Z) :
  0 ≤ data → 0 ≤ length →
  ∃ s, hex_encode data length = Ok s
       ∧ Py.int16 s = Ok data
       ∧ all_chars is_lower_hex s = true
       ∧ (Z.to_nat length ≤ String.length s)%nat
       ∧ (1 ≤ length → data < 16 ^ length →
          String.length s = Z.to_nat length).
Proof.
  intros Hd Hl. unfold hex_encode.
  destruct (format_0x_lower length data Hl Hd) as (s & Hs & Hlow).
  exists s. split; [exact Hs|].
  split; [now apply (int16_format_0x length)|].
  split; [exact Hlow|]. split.
  - unfold Py.format_0x in Hs.
    destruct (Z.ltb_spec length 0); [lia|].
    destruct (Z.ltb_spec data 0); [lia|].
    injection Hs as <-. rewrite !sapp_length, zeros_length. simpl. lia.
  - intros Hl1 Hfit.
    destruct (format_0x_length length data) as (s' & Hs' & Hlen & _); [lia..|].
    congruence.
Qed.

Lemma hex_encode_reads_back_witness :
  ∃ s, hex_encode 4096 2 = Ok s
       ∧ Py.int16 s = Ok 4096
       ∧ all_chars is_lower_hex s = true
       ∧ (Z.to_nat 2 ≤ String.length s)%nat
       ∧ (1 ≤ 2 → 4096 < 16 ^ 2 → String.length s = Z.to_nat 2).
Proof. apply (hex_encode_reads_back 4096 2); lia. Defined.

Lemma sapp_inj_length (a a' b b' : string) :
  String.length a = String.length a' → a +:+ b = a' +:+ b' → a = a' ∧ b = b'.
Proof.
  revert a'. induction a as [|c a IH]; intros [|c' a'] Hlen E;
    try discriminate Hlen.
  - rewrite !sapp_nil_l in E. now split.
  - rewrite !sapp_cons in E. injection E as -> E. injection Hlen as Hlen.
    destruct (IH a' Hlen E) as [-> ->]. now split.
Qed.

(** X3. Two files have the same key exactly when they have the same
    number of bytes and their SHA-256 digests agree modulo
    [2 ^ (4 * hash_length)]: the key tells the size, whatever the size
    is, because its hash field has always the same width. *)
Theorem same_key_same_size_and_digest (w1 w2 : World) (f1 f2 : string)
    (d1 d2 : list byte) (hash_length size_length : Z) :
  fs w1 !! f1 = Some (File d1) → fs w2 !! f2 = Some (File d2) →
  1 ≤ hash_length → 0 ≤ size_length →
  ∃ n1 n2,
    Py.int16 (Sha256.hexdigest d1) = Ok n1
    ∧ Py.int16 (Sha256.hexdigest d2) = Ok n2
    ∧ ((get_file_key f1 hash_length size_length w1).1
       = (get_file_key f2 hash_length size_length w2).1
       ↔ length d1 = length d2
         ∧ n1 mod 2 ^ (4 * hash_length) = n2 mod 2 ^ (4 * hash_length)).
Proof.
  intros H1 H2 Hh Hs.
  rewrite (get_file_key_File w1 f1 d1), (get_file_key_File w2 f2 d2)
    by assumption. cbn [fst].
  destruct (int16_hexdigest d1) as [n1 Hn1].
  destruct (int16_hexdigest d2) as [n2 Hn2].
  exists n1, n2. split; [exact Hn1|]. split; [exact Hn2|].
  unfold content_key, hash_field. rewrite Hn1, Hn2.
  assert (∀ n, 0 ≤ n mod 2 ^ (4 * hash_length) < 16 ^ hash_length) as Hrange.
  { intros n. replace (16 ^ hash_length) with (2 ^ (4 * hash_length))
      by (rewrite Z.pow_mul_r by lia; reflexivity).
    apply Z.mod_pos_bound, Z.pow_pos_nonneg; lia. }
  unfold hex_encode.
  destruct (format_0x_length hash_length (n1 mod 2 ^ (4 * hash_length)))
    as (h1 & Hh1 & Hl1 & _); [lia|apply Hrange|].
  destruct (format_0x_length hash_length (n2 mod 2 ^ (4 * hash_length)))
    as (h2 & Hh2 & Hl2 & _); [lia|apply Hrange|].
  destruct (format_0x_lower size_length (Z.of_nat (length d1)))
    as (s1 & Hs1 & _); [lia..|].
  destruct (format_0x_lower size_length (Z.of_nat (length d2)))
    as (s2 & Hs2 & _); [lia..|].
  split.
  - rewrite Hh1, Hh2, Hs1, Hs2. intros [= E].
    apply sapp_inj_length in E as [-> ->]; [|congruence].
    apply (int16_format_0x hash_length) in Hh1, Hh2; [|apply Hrange..].
    apply (int16_format_0x size_length) in Hs1, Hs2; [|lia..].
    split; [|congruence].
    assert (Z.of_nat (length d1) = Z.of_nat (length d2)) by congruence. lia.
  - intros [-> ->]. reflexivity.
Qed.

Lemma same_key_same_size_and_digest_witness :
  ∃ n1 n2,
    Py.int16 (Sha256.hexdigest (Py.encode "X")) = Ok n1
    ∧ Py.int16 (Sha256.hexdigest (Py.encode "{}")) = Ok n2
    ∧ ((get_file_key "src/a.jpg" HASH_LENGTH SIZE_LENGTH demo_world).1
       = (get_file_key "src/sub/m.json" HASH_LENGTH SIZE_LENGTH demo_world).1
       ↔ length (Py.encode "X") = length (Py.encode "{}")
         ∧ n1 mod 2 ^ (4 * HASH_LENGTH) = n2 mod 2 ^ (4 * HASH_LENGTH)).
Proof.
  apply (same_key_same_size_and_digest demo_world demo_world
           "src/a.jpg" "src/sub/m.json").
  - vm_compute. reflexivity.
  - vm_compute. reflexivity.
  - vm_compute. discriminate.
  - vm_compute. discriminate.
Defined.

(** X4. [get_file_key] only reads: whether it returns or raises, the
    file system and the output are as before.  For a path at which
    there is nothing it raises, for a directory it raises
    [IsADirectoryError]; for a regular file, with widths that are not
    negative, it returns a key. *)
Theorem get_file_key_only_reads (fname : string) (hash_length size_length : Z)
    (w : World) :
  let r := (get_file_key fname hash_length size_length w).1 in
  let w' := (get_file_key fname hash_length size_length w).2 in
  fs w' = fs w ∧ stdout w' = stdout w
  ∧ (fs w !! fname = None → ∃ e, r = Raise e)
  ∧ (fs w !! fname = Some Dir → r = Raise IsADirectoryError)
  ∧ (∀ data, fs w !! fname = Some (File data) →
             0 ≤ hash_length → 0 ≤ size_length → ∃ k, r = Ok k).
Proof.
  intros r w'. subst r w'.
  destruct (fs w !! fname) as [[data|]|] eqn:Hf.
  - rewrite (get_file_key_File w fname data) by exact Hf. cbn [fst snd fs stdout logged].
    repeat split; try discriminate.
    intros data' [= <-] Hh Hs.
    destruct (content_key_lower data hash_length size_length Hh Hs) as (k & -> & _).
    eauto.
  - unfold get_file_key, get_file_hash, bind, log_hashed, modify, Os.open_r.
    cbn [fs]. rewrite Hf. cbn [fst snd fs stdout].
    repeat split; discriminate.
  - unfold get_file_key, get_file_hash, bind, log_hashed, modify, Os.open_r.
    cbn [fs]. rewrite Hf. cbn [fst snd fs stdout].
    repeat split; try discriminate. eauto.
Qed.

(** ** Extensions *)

Lemma basename_suffix (p : string) : ∃ pre, p = pre +:+ Os.basename p.
Proof.
  induction p as [|c p [pre IH]]; [now exists ""|]. simpl.
  destruct (Os.has_slash p).
  - exists (String c pre). rewrite sapp_cons. now f_equal.
  - destruct (Ascii.eqb c Py.slash).
    + exists (String c ""). reflexivity.
    + exists "". reflexivity.
Qed.

Lemma strip_dots_suffix (s : string) : ∃ pre, s = pre +:+ Os.strip_dots s.
Proof.
  induction s as [|c s [pre IH]]; [now exists ""|]. simpl.
  destruct (Ascii.eqb c Py.dot).
  - exists (String c pre). rewrite sapp_cons. now f_equal.
  - exists "". reflexivity.
Qed.

Lemma from_last_dot_None (s : string) :
  Os.from_last_dot s = None → no_dot s = true.
Proof.
  induction s as [|c s IH]; [reflexivity|]. simpl.
  destruct (Os.from_last_dot s); [discriminate|].
  destruct (Ascii.eqb c Py.dot) eqn:E; [discriminate|].
  intros _. unfold no_dot in IH |- *. simpl. rewrite E. now apply IH.
Qed.

Lemma from_last_dot_Some (s e : string) :
  Os.from_last_dot s = Some e →
  (∃ pre, s = pre +:+ e) ∧ ∃ rest, e = String Py.dot rest ∧ no_dot rest = true.
Proof.
  revert e. induction s as [|c s IH]; intros e; [discriminate|]. simpl.
  destruct (Os.from_last_dot s) as [e'|] eqn:E.
  - intros [= <-]. destruct (IH e' eq_refl) as [[pre ->] Hrest].
    split; [|exact Hrest]. exists (String c pre). now rewrite sapp_cons.
  - destruct (Ascii.eqb_spec c Py.dot) as [->|_]; [|discriminate].
    intros [= <-]. split; [now exists ""|].
    exists s. split; [reflexivity|now apply from_last_dot_None].
Qed.

Lemma no_dot_from_last_dot (s : string) :
  no_dot s = true → Os.from_last_dot s = None.
Proof.
  unfold no_dot. induction s as [|c s IH]; [reflexivity|]. simpl.
  intros [Hc Hs]%andb_prop. rewrite (IH Hs).
  apply negb_true_iff in Hc. now rewrite Hc.
Qed.

Lemma no_dot_strip_dots (s : string) :
  no_dot s = true → Os.strip_dots s = s.
Proof.
  unfold no_dot. destruct s as [|c s]; [reflexivity|]. simpl.
  intros [Hc _]%andb_prop. apply negb_true_iff in Hc. now rewrite Hc.
Qed.

Lemma no_dot_basename (s : string) :
  no_dot s = true → no_dot (Os.basename s) = true.
Proof.
  unfold no_dot. induction s as [|c s IH]; [reflexivity|]. simpl.
  intros [Hc Hs]%andb_prop.
  destruct (Os.has_slash s); [now apply IH|].
  destruct (Ascii.eqb c Py.slash); [exact Hs|]. simpl. now rewrite Hc, Hs.
Qed.

(** X5. The extension of a name is a suffix of the name; it is empty,
    or it is a dot followed by characters that are neither dots nor
    slashes.  Dots at the start of the name do not begin an extension:
    a name that is a dot followed by no further dot, such as [.json],
    has no extension. *)
Theorem extension_is_a_dotted_suffix (fname : string) :
  let ext := get_file_extension fname in
  (∃ stem, fname = stem +:+ ext)
  ∧ (ext = "" ∨ ∃ rest, ext = String Py.dot rest ∧ no_dot rest = true)
  ∧ Os.has_slash ext = false
  ∧ (∀ name, fname = String Py.dot name → no_dot name = true → ext = "").
Proof.
  intros ext. subst ext.
  split; [|split; [|split; [apply extension_no_slash|]]].
  - unfold get_file_extension, Os.splitext.
    destruct (Os.from_last_dot _) as [e|] eqn:E.
    + apply from_last_dot_Some in E as [[pre E] _].
      destruct (strip_dots_suffix (Os.basename fname)) as [dots Hd].
      destruct (basename_suffix fname) as [dir Hb].
      exists (dir +:+ dots +:+ pre).
      rewrite !sapp_assoc, <- E, <- Hd. exact Hb.
    + exists fname. clear. induction fname as [|c s IH]; [reflexivity|].
      rewrite sapp_cons. now f_equal.
  - unfold get_file_extension, Os.splitext.
    destruct (Os.from_last_dot _) as [e|] eqn:E; [|now left].
    right. now apply from_last_dot_Some in E as [_ Hrest].
  - intros name -> Hname. unfold get_file_extension, Os.splitext.
    assert (Os.from_last_dot (Os.strip_dots (Os.basename (String Py.dot name)))
            = None) as ->; [|reflexivity].
    cbn [Os.basename]. destruct (Os.has_slash name).
    + apply no_dot_from_last_dot.
      rewrite no_dot_strip_dots; now apply no_dot_basename.
    + change (Ascii.eqb Py.dot Py.slash) with false. cbn [Os.strip_dots].
      rewrite Ascii.eqb_refl. apply no_dot_from_last_dot.
      now rewrite no_dot_strip_dots.
Qed.

(** ** Opening a collection, again *)

Lemma parse_empty : parse_keys [] = {[ "" ]}.
Proof. unfold parse_keys. simpl. apply (right_id_L ∅ (∪)). Qed.

Lemma isdir_not (p : string) (w : World) :
  fs w !! p ≠ Some Dir → Os.isdir p w = (Ok false, w).
Proof. intros H. unfold Os.isdir. now rewrite bool_decide_eq_false_2. Qed.

Lemma isfile_not (p : string) (w : World) :
  fs w !! p = None → Os.isfile p w = (Ok false, w).
Proof. intros H. unfold Os.isfile. now rewrite H. Qed.

Lemma mkdir_new (p : string) (w : World) :
  fs w !! p = None → Os.mkdir p w = (Ok tt, set_fs (insert p Dir) w).
Proof. intros H. unfold Os.mkdir. now rewrite H. Qed.

Lemma touch_new (p : string) (w : World) :
  fs w !! p = None →
  Os.open_a_close p w = (Ok tt, set_fs (insert p (File [])) w).
Proof. intros H. unfold Os.open_a_close. now rewrite H. Qed.

(** The five paths of a collection differ from one another. *)
Lemma collection_paths_differ (c : string) :
  let B := Os.join c BLACKLIST_FILE in
  let W := Os.join c WHITELIST_FILE in
  let A := Os.join c AIRLOCK_DIR in
  let G := Os.join c GALLERY_DIR in
  (c ≠ B ∧ c ≠ W ∧ c ≠ A ∧ c ≠ G)
  ∧ (B ≠ W ∧ B ≠ A ∧ B ≠ G) ∧ (W ≠ A ∧ W ≠ G) ∧ A ≠ G.
Proof.
  intros B W A G.
  assert (∀ d, d ≠ "" → Os.has_slash d = false → c ≠ Os.join c d) as Hc.
  { intros d Hd Hs E. pose proof (join_longer c d Hd Hs) as Hlen.
    rewrite <- E in Hlen. lia. }
  assert (∀ d1 d2, Os.starts_with_slash d1 = false →
                   Os.starts_with_slash d2 = false → d1 ≠ d2 →
                   Os.join c d1 ≠ Os.join c d2) as Hj.
  { intros d1 d2 H1 H2 Hne E. now apply join_inj in E. }
  repeat split;
    first [ apply Hc; [discriminate|reflexivity]
          | apply Hj; [reflexivity|reflexivity|discriminate] ].
Qed.

(** The world after the five entries of the collection [c] were made. *)
Lemma init_new (c : string) (w : World) :
  nothing_at c (fs w) →
  Collection.__init__ c w
  = (Ok {| Collection.directory := c;
           Collection.blacklist := {[ "" ]};
           Collection.whitelist := {[ "" ]} |},
     set_fs (λ m, <[Os.join c GALLERY_DIR := Dir]>
                    (<[Os.join c AIRLOCK_DIR := Dir]>
                       (<[Os.join c WHITELIST_FILE := File []]>
                          (<[Os.join c BLACKLIST_FILE := File []]>
                             (<[c := Dir]> m))))) w).
Proof.
  intros [Hc Hbelow].
  destruct (collection_paths_differ c)
    as ((cB & cW & cA & cG) & (BW & BA & BG) & (WA & WG) & AG).
  set (B := Os.join c BLACKLIST_FILE) in *.
  set (W := Os.join c WHITELIST_FILE) in *.
  set (A := Os.join c AIRLOCK_DIR) in *.
  set (G := Os.join c GALLERY_DIR) in *.
  assert (fs w !! B = None ∧ fs w !! W = None
          ∧ fs w !! A = None ∧ fs w !! G = None) as (HB & HW & HA & HG).
  { unfold B, W, A, G. rewrite !join_relative by reflexivity.
    repeat split; apply Hbelow. }
  set (w1 := set_fs (insert c Dir) w).
  set (w2 := set_fs (insert B (File [])) w1).
  set (w3 := set_fs (insert W (File [])) w2).
  set (w4 := set_fs (insert A Dir) w3).
  set (w5 := set_fs (insert G Dir) w4).
  change (set_fs _ w) with w5.
  assert (fs w5 !! B = Some (File [])) as HB5.
  { cbn [fs set_fs w5 w4 w3 w2 w1].
    rewrite !lookup_insert_ne by congruence. apply lookup_insert_eq. }
  assert (fs w5 !! W = Some (File [])) as HW5.
  { cbn [fs set_fs w5 w4 w3 w2 w1].
    rewrite !lookup_insert_ne by congruence. apply lookup_insert_eq. }
  unfold Collection.__init__. fold B W A G.
  rewrite (bind_Ok _ _ _ _ _ (isdir_not c w ltac:(congruence))). cbn [negb].
  rewrite (bind_Ok _ _ _ _ _ (mkdir_new c w Hc)). fold w1.
  assert (fs w1 !! B = None) as E1
    by (cbn [fs set_fs w1]; rewrite lookup_insert_ne by congruence; exact HB).
  rewrite (bind_Ok _ _ _ _ _ (isfile_not B w1 E1)). cbn [negb].
  rewrite (bind_Ok _ _ _ _ _ (touch_new B w1 E1)). fold w2.
  assert (fs w2 !! W = None) as E2
    by (cbn [fs set_fs w2 w1]; rewrite !lookup_insert_ne by congruence; exact HW).
  rewrite (bind_Ok _ _ _ _ _ (isfile_not W w2 E2)). cbn [negb].
  rewrite (bind_Ok _ _ _ _ _ (touch_new W w2 E2)). fold w3.
  assert (fs w3 !! A = None) as E3
    by (cbn [fs set_fs w3 w2 w1]; rewrite !lookup_insert_ne by congruence;
        exact HA).
  rewrite (bind_Ok _ _ _ _ _ (isdir_not A w3 ltac:(congruence))). cbn [negb].
  rewrite (bind_Ok _ _ _ _ _ (mkdir_new A w3 E3)). fold w4.
  assert (fs w4 !! G = None) as E4
    by (cbn [fs set_fs w4 w3 w2 w1]; rewrite !lookup_insert_ne by congruence;
        exact HG).
  rewrite (bind_Ok _ _ _ _ _ (isdir_not G w4 ltac:(congruence))). cbn [negb].
  rewrite (bind_Ok _ _ _ _ _ (mkdir_new G w4 E4)). fold w5.
  rewrite (bind_Ok _ _ _ _ _ (read_file_keys_File B w5 [] HB5)).
  rewrite (bind_Ok _ _ _ _ _ (read_file_keys_File W w5 [] HW5)).
  now rewrite parse_empty.
Qed.

(** X6. When a collection was opened at a path where there was
    nothing, the opening having come to its end, the directory was
    made, the two decision lists, both empty, the airlock and the
    gallery, and nothing else has changed; each of the two sets that
    were loaded holds the empty key and no other. *)
Theorem opening_a_new_collection_lays_it_out (c : string) (w w' : World)
    (COL : Collection.t) :
  c ≠ "" → nothing_at c (fs w) →
  Collection.__init__ c w = (Ok COL, w') →
  COL = {| Collection.directory := c;
           Collection.blacklist := {[ "" ]};
           Collection.whitelist := {[ "" ]} |}
  ∧ fs w' !! c = Some Dir
  ∧ fs w' !! Os.join c BLACKLIST_FILE = Some (File [])
  ∧ fs w' !! Os.join c WHITELIST_FILE = Some (File [])
  ∧ fs w' !! Os.join c AIRLOCK_DIR = Some Dir
  ∧ fs w' !! Os.join c GALLERY_DIR = Some Dir
  ∧ (∀ p, p ≠ c → p ≠ Os.join c BLACKLIST_FILE → p ≠ Os.join c WHITELIST_FILE →
          p ≠ Os.join c AIRLOCK_DIR → p ≠ Os.join c GALLERY_DIR →
          fs w' !! p = fs w !! p)
  ∧ stdout w' = stdout w.
Proof.
  intros _ Hnew Hinit.
  destruct (collection_paths_differ c)
    as ((cB & cW & cA & cG) & (BW & BA & BG) & (WA & WG) & AG).
  rewrite (init_new c w Hnew) in Hinit. injection Hinit as <- <-.
  split; [reflexivity|]. cbn [fs set_fs stdout].
  split; [rewrite !lookup_insert_ne by congruence; apply lookup_insert_eq|].
  split; [rewrite !lookup_insert_ne by congruence; apply lookup_insert_eq|].
  split; [rewrite !lookup_insert_ne by congruence; apply lookup_insert_eq|].
  split; [rewrite !lookup_insert_ne by congruence; apply lookup_insert_eq|].
  split; [apply lookup_insert_eq|].
  split; [|reflexivity].
  intros p N1 N2 N3 N4 N5. now rewrite !lookup_insert_ne by congruence.
Qed.

Lemma demo_col_is_new : nothing_at "col" (fs demo_world).
Proof.
  split; [vm_compute; reflexivity|]. intros rest.
  change (Os.dir_prefix "col" +:+ rest) with ("col/" +:+ rest).
  unfold demo_world. cbn [fs list_to_map foldr uncurry].
  rewrite !lookup_insert_ne; [apply lookup_empty|..];
    intros E; rewrite ?sapp_cons in E; discriminate E.
Qed.

Lemma opening_a_new_collection_lays_it_out_witness :
  let COL := (Collection.__init__ "col" demo_world).1 in
  let w' := (Collection.__init__ "col" demo_world).2 in
  COL = Ok {| Collection.directory := "col";
              Collection.blacklist := {[ "" ]};
              Collection.whitelist := {[ "" ]} |}
  ∧ fs w' !! "col" = Some Dir
  ∧ fs w' !! Os.join "col" BLACKLIST_FILE = Some (File [])
  ∧ fs w' !! Os.join "col" WHITELIST_FILE = Some (File [])
  ∧ fs w' !! Os.join "col" AIRLOCK_DIR = Some Dir
  ∧ fs w' !! Os.join "col" GALLERY_DIR = Some Dir
  ∧ (∀ p, p ≠ "col" → p ≠ Os.join "col" BLACKLIST_FILE →
          p ≠ Os.join "col" WHITELIST_FILE →
          p ≠ Os.join "col" AIRLOCK_DIR → p ≠ Os.join "col" GALLERY_DIR →
          fs w' !! p = fs demo_world !! p)
  ∧ stdout w' = stdout demo_world.
Proof.
  intros COL w'.
  destruct (opening_a_new_collection_lays_it_out "col" demo_world w'
              {| Collection.directory := "col";
                 Collection.blacklist := {[ "" ]};
                 Collection.whitelist := {[ "" ]} |})
    as (_ & H).
  - discriminate.
  - exact demo_col_is_new.
  - vm_compute. reflexivity.
  - split; [vm_compute; reflexivity|exact H].
Defined.

(** X7. Opening a collection a second time gives the collection of the
    first time and changes nothing: what the first opening has made is
    found and kept. *)
Theorem opening_again_changes_nothing (c : string) (w w1 : World)
    (COL : Collection.t) :
  Collection.__init__ c w = (Ok COL, w1) →
  Collection.__init__ c w1 = (Ok COL, w1).
Proof.
  intros Hinit. apply init_inv in Hinit
    as (Hdir & _ & _ & _ & Hc & Ha & Hg & d1 & d2 & Hb & Hw & Eb & Ew & _).
  rewrite (init_existing c w1 d1 d2) by assumption.
  destruct COL as [dir bl wl]. simpl in Hdir, Eb, Ew. now subst.
Qed.

Lemma opening_again_changes_nothing_witness :
  Collection.__init__ "col" (Collection.__init__ "col" demo_world).2
  = (Ok {| Collection.directory := "col";
           Collection.blacklist := {[ "" ]};
           Collection.whitelist := {[ "" ]} |},
     (Collection.__init__ "col" demo_world).2).
Proof.
  apply (opening_again_changes_nothing "col" demo_world).
  vm_compute. reflexivity.
Defined.

(** X8. At a path that holds a regular file no collection is opened:
    [Collection(c)] raises [FileExistsError] and leaves the world as it
    is, and the body of a [with Collection(c)] does not run, nor does
    [__exit__]. *)
Theorem no_collection_at_a_regular_file (c : string) (w : World)
    (data : list byte) :
  fs w !! c = Some (File data) →
  Collection.__init__ c w = (Raise FileExistsError, w)
  ∧ ∀ body, with_Collection c body w = (Raise FileExistsError, w).
Proof.
  intros Hc.
  assert (Collection.__init__ c w = (Raise FileExistsError, w)) as E.
  { unfold Collection.__init__.
    rewrite (bind_Ok _ _ _ _ _ (isdir_not c w ltac:(congruence))). cbn [negb].
    unfold bind at 1. unfold Os.mkdir. now rewrite Hc. }
  split; [exact E|]. intros body. unfold with_Collection. now rewrite E.
Qed.

Lemma no_collection_at_a_regular_file_witness :
  Collection.__init__ "src/a.jpg" demo_world = (Raise FileExistsError, demo_world)
  ∧ ∀ body, with_Collection "src/a.jpg" body demo_world
            = (Raise FileExistsError, demo_world).
Proof.
  apply (no_collection_at_a_regular_file "src/a.jpg" demo_world (Py.encode "X")).
  vm_compute. reflexivity.
Defined.

Lemma laid_out_refl (c : string) (w : World) : laid_out c w w.
Proof. split; [reflexivity|]. split; [reflexivity|]. intros p. now left. Qed.

Lemma laid_out_trans (c : string) (w1 w2 w3 : World) :
  laid_out c w1 w2 → laid_out c w2 w3 → laid_out c w1 w3.
Proof.
  intros (O12 & G12 & H12) (O23 & G23 & H23).
  split; [congruence|]. split; [congruence|]. intros p.
  destruct (H23 p) as [E23|(N2 & Hnew)].
  - destruct (H12 p) as [E12|(N1 & Hnew)]; [left; congruence|].
    right. split; [exact N1|]. rewrite E23. exact Hnew.
  - right. split; [|exact Hnew].
    destruct (H12 p) as [E12|(N1 & _)]; congruence.
Qed.

(** A step and what follows it keep what each of them keeps. *)
Lemma bind_keeps {S A B} (R : S → S → Prop) (m : M S A) (k : A → M S B) (s : S) :
  (∀ s1 s2 s3, R s1 s2 → R s2 s3 → R s1 s3) →
  R s (m s).2 → (∀ a s1, R s1 (k a s1).2) → R s (bind m k s).2.
Proof.
  intros Htrans Hm Hk. unfold bind.
  destruct (m s) as [[a|e] s1]; [|exact Hm].
  eapply Htrans; [exact Hm|apply Hk].
Qed.

Lemma ensure_dir_lays_out (c p : string) (d : bool) (w : World) :
  p = c ∨ p = Os.join c AIRLOCK_DIR ∨ p = Os.join c GALLERY_DIR →
  laid_out c w ((if negb d then Os.mkdir p else ret tt) w).2.
Proof.
  intros Hp. destruct d; [apply laid_out_refl|]. cbn [negb]. unfold Os.mkdir.
  destruct (fs w !! p) eqn:E; [apply laid_out_refl|].
  split; [reflexivity|]. split; [reflexivity|]. intros q. cbn [snd fs set_fs].
  destruct (decide (q = p)) as [->|Hq].
  - right. split; [exact E|]. left. split; [exact Hp|apply lookup_insert_eq].
  - left. now apply lookup_insert_ne.
Qed.

Lemma ensure_file_lays_out (c p : string) (f : bool) (w : World) :
  p = Os.join c BLACKLIST_FILE ∨ p = Os.join c WHITELIST_FILE →
  laid_out c w ((if negb f then Os.open_a_close p else ret tt) w).2.
Proof.
  intros Hp. destruct f; [apply laid_out_refl|]. cbn [negb]. unfold Os.open_a_close.
  destruct (fs w !! p) as [[d|]|] eqn:E; try apply laid_out_refl.
  split; [reflexivity|]. split; [reflexivity|]. intros q. cbn [snd fs set_fs].
  destruct (decide (q = p)) as [->|Hq].
  - right. split; [exact E|]. right. split; [exact Hp|apply lookup_insert_eq].
  - left. now apply lookup_insert_ne.
Qed.

Lemma read_file_keys_world (fname : string) (w : World) :
  (read_file_keys fname w).2 = w.
Proof.
  unfold read_file_keys, bind, Os.open_r.
  now destruct (fs w !! fname) as [[d|]|].
Qed.

(** X9. However the opening of a collection ends, it has overwritten
    nothing and removed nothing: an entry that was there is there
    unchanged; what is new is one of the three directories of the
    collection or one of its two lists, made empty, at a path where
    there was nothing; nothing is printed. *)
Theorem opening_never_overwrites (c : string) (w : World) :
  let w' := (Collection.__init__ c w).2 in
  stdout w' = stdout w
  ∧ (∀ p x, fs w !! p = Some x → fs w' !! p = Some x)
  ∧ (∀ p, fs w' !! p ≠ fs w !! p →
          fs w !! p = None
          ∧ ((p = c ∨ p = Os.join c AIRLOCK_DIR ∨ p = Os.join c GALLERY_DIR)
             ∧ fs w' !! p = Some Dir
             ∨ (p = Os.join c BLACKLIST_FILE ∨ p = Os.join c WHITELIST_FILE)
               ∧ fs w' !! p = Some (File []))).
Proof.
  intros w'.
  assert (laid_out c w w') as (Hout & _ & H).
  { unfold w', Collection.__init__.
    pose proof (laid_out_trans c) as T.
    apply bind_keeps; [exact T|apply laid_out_refl|]. intros d s1.
    apply bind_keeps; [exact T|apply ensure_dir_lays_out; auto|]. intros _ s2.
    apply bind_keeps; [exact T|apply laid_out_refl|]. intros f s3.
    apply bind_keeps; [exact T|apply ensure_file_lays_out; auto|]. intros _ s4.
    apply bind_keeps; [exact T|apply laid_out_refl|]. intros f' s5.
    apply bind_keeps; [exact T|apply ensure_file_lays_out; auto|]. intros _ s6.
    apply bind_keeps; [exact T|apply laid_out_refl|]. intros d' s7.
    apply bind_keeps; [exact T|apply ensure_dir_lays_out; auto|]. intros _ s8.
    apply bind_keeps; [exact T|apply laid_out_refl|]. intros d'' s9.
    apply bind_keeps; [exact T|apply ensure_dir_lays_out; auto|]. intros _ s10.
    apply bind_keeps;
      [exact T|rewrite read_file_keys_world; apply laid_out_refl|]. intros bl s11.
    apply bind_keeps;
      [exact T|rewrite read_file_keys_world; apply laid_out_refl|]. intros wl s12.
    apply laid_out_refl. }
  split; [exact Hout|]. split.
  - intros p x Hp. destruct (H p) as [E|(N & _)]; congruence.
  - intros p Hp. destruct (H p) as [E|Hnew]; [congruence|exact Hnew].
Qed.

(** X10. A collection that is opened and closed with no decision taken
    is found again as it was: the next opening loads the same two sets,
    with the empty key added to each, and the closing has written the
    two lists only. *)
Theorem open_and_close_keeps_the_decisions (c : string) (w w1 : World)
    (COL : Collection.t) :
  ascii_list (fs w !! Os.join c BLACKLIST_FILE) →
  ascii_list (fs w !! Os.join c WHITELIST_FILE) →
  Collection.__init__ c w = (Ok COL, w1) →
  ∃ w2 COL',
    Collection.__exit__ COL w1 = (Ok tt, w2)
    ∧ Collection.__init__ c w2 = (Ok COL', w2)
    ∧ Collection.blacklist COL' = Collection.blacklist COL ∪ {[ "" ]}
    ∧ Collection.whitelist COL' = Collection.whitelist COL ∪ {[ "" ]}
    ∧ (∀ p, p ≠ Os.join c BLACKLIST_FILE → p ≠ Os.join c WHITELIST_FILE →
            fs w2 !! p = fs w1 !! p).
Proof.
  intros _ _ Hinit. apply init_inv in Hinit
    as (Hdir & _ & _ & _ & Hc & Ha & Hg & d1 & d2 & Hb & Hw & Eb & Ew & _).
  destruct (collection_paths_differ c)
    as ((cB & cW & cA & cG) & (BW & BA & BG) & (WA & WG) & AG).
  pose proof (exit_flushes COL w1) as Hexit. rewrite Hdir in Hexit.
  cbv zeta in Hexit.
  specialize (Hexit ltac:(congruence) ltac:(congruence)).
  eexists _, _. split; [exact Hexit|]. split.
  { apply init_existing; cbn [fs set_fs].
    - rewrite !lookup_insert_ne by congruence. exact Hc.
    - rewrite lookup_insert_ne by congruence. apply lookup_insert_eq.
    - apply lookup_insert_eq.
    - rewrite !lookup_insert_ne by congruence. exact Ha.
    - rewrite !lookup_insert_ne by congruence. exact Hg. }
  cbn [Collection.blacklist Collection.whitelist].
  split.
  { apply parse_serialized. intros k Hk. rewrite Eb in Hk.
    now apply (parse_keys_clean d1). }
  split.
  { apply parse_serialized. intros k Hk. rewrite Ew in Hk.
    now apply (parse_keys_clean d2). }
  intros p Hp1 Hp2. cbn [fs set_fs]. now rewrite !lookup_insert_ne by congruence.
Qed.

Lemma open_and_close_keeps_the_decisions_witness :
  let COL := {| Collection.directory := "col";
                Collection.blacklist := {[ "abc" ]};
                Collection.whitelist := {[ "" ]} |} in
  ∃ w2 COL',
    Collection.__exit__ COL hand_written_world = (Ok tt, w2)
    ∧ Collection.__init__ "col" w2 = (Ok COL', w2)
    ∧ Collection.blacklist COL' = Collection.blacklist COL ∪ {[ "" ]}
    ∧ Collection.whitelist COL' = Collection.whitelist COL ∪ {[ "" ]}
    ∧ (∀ p, p ≠ Os.join "col" BLACKLIST_FILE → p ≠ Os.join "col" WHITELIST_FILE →
            fs w2 !! p = fs hand_written_world !! p).
Proof.
  intros COL.
  apply (open_and_close_keeps_the_decisions "col" hand_written_world
           hand_written_world COL).
  - vm_compute. reflexivity.
  - vm_compute. reflexivity.
  - vm_compute. reflexivity.
Defined.

(** ** Importing, again *)

(** X11. An import from a path that is no directory -- nothing is
    there, or a regular file -- and an import from a directory that
    holds nothing do nothing and say nothing: no error is raised, and
    the world is as it was. *)
Theorem import_of_nothing (col : Collection.t) (src : string) (w : World) :
  fs w !! src ≠ Some Dir ∨ Os.scandir (fs w) src = [] →
  import_files col src w = (Ok tt, w).
Proof.
  intros Hsrc. unfold import_files, Os.for_walk. cbn [Os.for_walk_from].
  case_bool_decide as Hdir; [|reflexivity].
  destruct Hsrc as [Hsrc|Hsrc]; [contradiction|].
  rewrite Hsrc. reflexivity.
Qed.

Lemma import_of_nothing_witness :
  import_files {| Collection.directory := "col";
                  Collection.blacklist := ∅; Collection.whitelist := ∅ |}
    "src/a.jpg" demo_world = (Ok tt, demo_world).
Proof. apply import_of_nothing. left. vm_compute. discriminate. Defined.

Lemma staged_by_key_refl (col : Collection.t) (m : gmap string inode) :
  staged_by_key col m m.
Proof. intros p. now left. Qed.

Lemma staged_by_key_trans (col : Collection.t) (m1 m2 m3 : gmap string inode) :
  staged_by_key col m1 m2 → staged_by_key col m2 m3 → staged_by_key col m1 m3.
Proof.
  intros H12 H23 p.
  destruct (H23 p) as [E23|(N2 & k & ext & data & Hnew)].
  - destruct (H12 p) as [E12|(N1 & k & ext & data & -> & Hp & Hrest)].
    + left. congruence.
    + right. split; [exact N1|]. exists k, ext, data.
      split; [reflexivity|]. split; [congruence|exact Hrest].
  - right. split; [|now exists k, ext, data].
    destruct (H12 p) as [E12|(N1 & _)]; congruence.
Qed.

Lemma import_file_stages_by_key (col : Collection.t) (root fil : string)
    (w : World) :
  staged_by_key col (fs w) (fs (import_file col root fil w).2).
Proof.
  destruct (fs w !! Os.join root fil) as [[data|]|] eqn:Hf.
  - destruct (default_key data) as (k & Hk & Hlow & Hne).
    rewrite (import_file_readable col root fil w data k Hf Hk).
    destruct (bool_decide _) eqn:Hext; [apply staged_by_key_refl|].
    destruct (Collection.is_blacklisted col k) eqn:Hbl; [apply staged_by_key_refl|].
    destruct (Collection.is_whitelisted col k) eqn:Hwl; [apply staged_by_key_refl|].
    cbn [orb].
    destruct (fs w !! Os.join _ (k +:+ _)) eqn:Ht; [apply staged_by_key_refl|].
    intros p. cbn [snd fs printed set_fs logged].
    destruct (decide (p = Os.join (Collection.get_airlock col)
                             (k +:+ get_file_extension fil))) as [->|Hp].
    + right. split; [exact Ht|].
      exists k, (get_file_extension fil), data.
      split; [reflexivity|]. split; [apply lookup_insert_eq|].
      split; [exact Hk|]. split; [now apply bool_decide_eq_false in Hext|].
      now split.
    + left. now apply lookup_insert_ne.
  - destruct (import_file_unreadable col root fil w) as (e & ->);
      [congruence|apply staged_by_key_refl].
  - destruct (import_file_unreadable col root fil w) as (e & ->);
      [congruence|apply staged_by_key_refl].
Qed.

(** X12. Whatever tree an import walks and however it ends, every file
    it has put into the airlock is named by the key of its own bytes
    followed by an extension that is not ignored, and that key is
    neither blacklisted nor whitelisted: a file the collection knows is
    never staged. *)
Theorem import_stages_unknown_keys_only (col : Collection.t) (src : string)
    (w : World) :
  let w' := (import_files col src w).2 in
  ∀ p, fs w' !! p ≠ fs w !! p →
    ∃ k ext data,
      p = Os.join (Collection.get_airlock col) (k +:+ ext)
      ∧ fs w !! p = None
      ∧ fs w' !! p = Some (File data)
      ∧ (get_file_key p HASH_LENGTH SIZE_LENGTH w').1 = Ok k
      ∧ (ext ∉ IGNORED_EXT)
      ∧ Collection.is_blacklisted col k = false
      ∧ Collection.is_whitelisted col k = false.
Proof.
  intros w' p Hp.
  assert (staged_by_key col (fs w) (fs w')) as H.
  { unfold w', import_files, Os.for_walk.
    apply (for_walk_keeps (λ w w', staged_by_key col (fs w) (fs w'))).
    - intros s. apply staged_by_key_refl.
    - intros s1 s2 s3. apply staged_by_key_trans.
    - intros [[root dirs] files] s.
      apply (for_each_keeps (λ w w', staged_by_key col (fs w) (fs w'))).
      + intros s'. apply staged_by_key_refl.
      + intros s1 s2 s3. apply staged_by_key_trans.
      + intros fil s'. apply import_file_stages_by_key. }
  destruct (H p) as [E|(N & k & ext & data & -> & Hnew & Hk & Hrest)];
    [congruence|].
  exists k, ext, data. split; [reflexivity|]. split; [exact N|].
  split; [exact Hnew|]. split; [|exact Hrest].
  rewrite (get_file_key_File w' _ data) by exact Hnew. exact Hk.
Qed.

Lemma import_stages_unknown_keys_only_witness :
  let col := {| Collection.directory := "col";
                Collection.blacklist := {[ "" ]};
                Collection.whitelist := {[ "" ]} |} in
  let w := (Collection.__init__ "col" demo_world).2 in
  let w' := (import_files col "src" w).2 in
  let p := "col/.airlock/5eab7351ed5e78f4ddadea5df64b801500000001.jpg" in
  ∃ k ext data,
    p = Os.join (Collection.get_airlock col) (k +:+ ext)
    ∧ fs w !! p = None
    ∧ fs w' !! p = Some (File data)
    ∧ (get_file_key p HASH_LENGTH SIZE_LENGTH w').1 = Ok k
    ∧ (ext ∉ IGNORED_EXT)
    ∧ Collection.is_blacklisted col k = false
    ∧ Collection.is_whitelisted col k = false.
Proof.
  intros col w w' p.
  apply (import_stages_unknown_keys_only col "src" w p).
  vm_compute. discriminate.
Defined.

(** X13. A file whose key is blacklisted or whitelisted is not copied:
    the import step prints that the file is ignored and leaves the file
    system as it is, whatever the extension of the file. *)
Theorem known_key_is_not_staged (col : Collection.t) (root fil : string)
    (w : World) (data : list byte) (k : string) :
  fs w !! Os.join root fil = Some (File data) →
  (get_file_key (Os.join root fil) HASH_LENGTH SIZE_LENGTH w).1 = Ok k →
  k ∈ Collection.blacklist col ∨ k ∈ Collection.whitelist col →
  ∃ w', import_file col root fil w = (Ok tt, w')
        ∧ fs w' = fs w
        ∧ stdout w' = stdout w ++ ["- Ignored: " +:+ Os.join root fil].
Proof.
  intros Hf Hk Hknown.
  rewrite (get_file_key_File w _ data) in Hk by exact Hf. cbn [fst] in Hk.
  rewrite (import_file_readable col root fil w data k Hf Hk).
  assert (Collection.is_blacklisted col k || Collection.is_whitelisted col k
          = true) as Hb.
  { unfold Collection.is_blacklisted, Collection.is_whitelisted.
    destruct Hknown as [H|H]; rewrite (bool_decide_eq_true_2 _ H);
      [reflexivity|apply orb_true_r]. }
  rewrite <- orb_assoc, Hb, orb_true_r.
  eexists. split; [reflexivity|]. split; reflexivity.
Qed.

Lemma known_key_is_not_staged_witness :
  ∃ w', import_file
          {| Collection.directory := "col";
             Collection.blacklist := {[ "5eab7351ed5e78f4ddadea5df64b801500000001" ]};
             Collection.whitelist := ∅ |}
          "src" "a.jpg" demo_world = (Ok tt, w')
        ∧ fs w' = fs demo_world
        ∧ stdout w' = stdout demo_world ++ ["- Ignored: " +:+ Os.join "src" "a.jpg"].
Proof.
  apply (known_key_is_not_staged _ "src" "a.jpg" demo_world (Py.encode "X")
           "5eab7351ed5e78f4ddadea5df64b801500000001").
  - vm_compute. reflexivity.
  - vm_compute. reflexivity.
  - left. cbn [Collection.blacklist]. set_solver.
Defined.

(** X14. A file of an extension that is not ignored, whose key the
    collection does not know and whose place in the airlock is free, is
    copied there: the copy is named by the key and the extension, has
    the bytes and therefore the key of the file, one line says so, and
    nothing else in the file system changes. *)
Theorem staged_copy_keeps_the_key (col : Collection.t) (root fil : string)
    (w : World) (data : list byte) (k : string) :
  let fname := Os.join root fil in
  let target := Os.join (Collection.get_airlock col)
                  (k +:+ get_file_extension fil) in
  fs w !! fname = Some (File data) →
  (get_file_key fname HASH_LENGTH SIZE_LENGTH w).1 = Ok k →
  get_file_extension fil ∉ IGNORED_EXT →
  k ∉ Collection.blacklist col → k ∉ Collection.whitelist col →
  fs w !! target = None →
  ∃ w', import_file col root fil w = (Ok tt, w')
        ∧ fs w' !! target = Some (File data)
        ∧ (∀ p, p ≠ target → fs w' !! p = fs w !! p)
        ∧ (get_file_key target HASH_LENGTH SIZE_LENGTH w').1 = Ok k
        ∧ stdout w'
          = stdout w ++ ["+ Copied:  " +:+ fname +:+ " -> " +:+ target].
Proof.
  intros fname target Hf Hk Hext Hbl Hwl Ht.
  rewrite (get_file_key_File w _ data) in Hk by exact Hf. cbn [fst] in Hk.
  rewrite (import_file_readable col root fil w data k Hf Hk).
  unfold Collection.is_blacklisted, Collection.is_whitelisted.
  rewrite !bool_decide_eq_false_2 by assumption. cbn [orb].
  fold target. rewrite Ht.
  eexists. split; [reflexivity|]. cbn [fs stdout printed set_fs logged].
  split; [apply lookup_insert_eq|].
  split; [intros p Hp; now apply lookup_insert_ne|].
  split; [|reflexivity].
  erewrite get_file_key_File; [exact Hk|].
  cbn [fs printed set_fs logged]. apply lookup_insert_eq.
Qed.

Lemma staged_copy_keeps_the_key_witness :
  let col := {| Collection.directory := "col";
                Collection.blacklist := {[ "" ]};
                Collection.whitelist := {[ "" ]} |} in
  let w := (Collection.__init__ "col" demo_world).2 in
  let k := "5eab7351ed5e78f4ddadea5df64b801500000001" in
  let fname := Os.join "src" "a.jpg" in
  let target := Os.join (Collection.get_airlock col)
                  (k +:+ get_file_extension "a.jpg") in
  ∃ w', import_file col "src" "a.jpg" w = (Ok tt, w')
        ∧ fs w' !! target = Some (File (Py.encode "X"))
        ∧ (∀ p, p ≠ target → fs w' !! p = fs w !! p)
        ∧ (get_file_key target HASH_LENGTH SIZE_LENGTH w').1 = Ok k
        ∧ stdout w'
          = stdout w ++ ["+ Copied:  " +:+ fname +:+ " -> " +:+ target].
Proof.
  intros col w k.
  apply (staged_copy_keeps_the_key col "src" "a.jpg" w (Py.encode "X") k).
  - vm_compute. reflexivity.
  - vm_compute. reflexivity.
  - vm_compute. set_solver.
  - vm_compute. set_solver.
  - vm_compute. set_solver.
  - vm_compute. reflexivity.
Defined.

(** ** The review handlers, again *)

Lemma known_content_is_ignored (col : Collection.t) (root fil : string)
    (w : World) (data : list byte) (k : string) :
  content_key data HASH_LENGTH SIZE_LENGTH = Ok k →
  Collection.is_blacklisted col k || Collection.is_whitelisted col k = true →
  fs w !! Os.join root fil = Some (File data) →
  ∃ w', import_file col root fil w = (Ok tt, w')
        ∧ fs w' = fs w
        ∧ stdout w' = stdout w ++ ["- Ignored: " +:+ Os.join root fil].
Proof.
  intros Hk Hb Hf.
  rewrite (import_file_readable col root fil w data k Hf Hk).
  rewrite <- orb_assoc, Hb, orb_true_r.
  eexists. split; [reflexivity|]. split; reflexivity.
Qed.

(** X16. Once a file was rejected, an import stages no file of the
    same bytes again, under whatever name and in whatever tree it
    finds one: it prints that the file is ignored and copies nothing. *)
Theorem rejected_content_is_not_staged_again (s : Session)
    (state fname : string) (data : list byte) (i : nat) :
  key_up state = Ok true →
  playlist_pos (player s) = Some i → playlist (player s) !! i = Some fname →
  fs (world s) !! fname = Some (File data) →
  ∃ s',
    blacklist_handler state s = (Ok tt, s')
    ∧ ∀ root fil w,
        fs w !! Os.join root fil = Some (File data) →
        ∃ w', import_file (col s') root fil w = (Ok tt, w')
              ∧ fs w' = fs w
              ∧ stdout w' = stdout w ++ ["- Ignored: " +:+ Os.join root fil].
Proof.
  intros Hup Hpos Hcur Hf. destruct (default_key data) as (k & Hk & _).
  eexists. split.
  { exact (blacklist_handler_run s state fname data k i Hup Hpos Hcur Hf Hk). }
  intros root fil w Hw. apply (known_content_is_ignored _ _ _ _ data k Hk); [|exact Hw].
  unfold Collection.is_blacklisted. cbn [col Collection.blacklist_file Collection.blacklist].
  rewrite bool_decide_eq_true_2 by set_solver. reflexivity.
Qed.

Lemma rejected_content_is_not_staged_again_witness :
  ∃ s',
    blacklist_handler "u-" demo_review = (Ok tt, s')
    ∧ ∀ root fil w,
        fs w !! Os.join root fil = Some (File (Py.encode "X")) →
        ∃ w', import_file (col s') root fil w = (Ok tt, w')
              ∧ fs w' = fs w
              ∧ stdout w' = stdout w ++ ["- Ignored: " +:+ Os.join root fil].
Proof.
  apply (rejected_content_is_not_staged_again demo_review "u-"
           "col/.airlock/5eab7351ed5e78f4ddadea5df64b801500000001.jpg"
           (Py.encode "X") 0).
  - reflexivity.
  - reflexivity.
  - reflexivity.
  - vm_compute. reflexivity.
Defined.

(** X17. Once a file was accepted, an import stages no file of the
    same bytes again either: the key of the file is whitelisted, and an
    import reports such a file as ignored and copies nothing. *)
Theorem accepted_content_is_not_staged_again (s : Session)
    (state fname : string) (data : list byte) (i : nat) :
  key_up state = Ok true →
  playlist_pos (player s) = Some i → playlist (player s) !! i = Some fname →
  fs (world s) !! fname = Some (File data) →
  fs (world s) !! Os.join (Collection.get_gallery (col s)) (Os.basename fname)
  ≠ Some Dir →
  ∃ s',
    whitelist_handler state s = (Ok tt, s')
    ∧ ∀ root fil w,
        fs w !! Os.join root fil = Some (File data) →
        ∃ w', import_file (col s') root fil w = (Ok tt, w')
              ∧ fs w' = fs w
              ∧ stdout w' = stdout w ++ ["- Ignored: " +:+ Os.join root fil].
Proof.
  intros Hup Hpos Hcur Hf Hd. destruct (default_key data) as (k & Hk & _).
  eexists. split.
  { exact (whitelist_handler_run s state fname data k i Hup Hpos Hcur Hf Hd Hk). }
  intros root fil w Hw. apply (known_content_is_ignored _ _ _ _ data k Hk); [|exact Hw].
  unfold Collection.is_whitelisted. cbn [col Collection.whitelist_file Collection.whitelist].
  rewrite (bool_decide_eq_true_2 (k ∈ _)) by set_solver. apply orb_true_r.
Qed.

Lemma accepted_content_is_not_staged_again_witness :
  ∃ s',
    whitelist_handler "u-" demo_review = (Ok tt, s')
    ∧ ∀ root fil w,
        fs w !! Os.join root fil = Some (File (Py.encode "X")) →
        ∃ w', import_file (col s') root fil w = (Ok tt, w')
              ∧ fs w' = fs w
              ∧ stdout w' = stdout w ++ ["- Ignored: " +:+ Os.join root fil].
Proof.
  apply (accepted_content_is_not_staged_again demo_review "u-"
           "col/.airlock/5eab7351ed5e78f4ddadea5df64b801500000001.jpg"
           (Py.encode "X") 0).
  - reflexivity.
  - reflexivity.
  - reflexivity.
  - vm_compute. reflexivity.
  - vm_compute. discriminate.
Defined.

(** X18. The three handlers act when a key is released and at no other
    event: for a state that does not begin with [u] -- the key went
    down, or it repeats -- they return at once and change nothing, not
    the decisions, not the playlist, not a file; for an empty state
    they raise [IndexError], and change nothing. *)
Theorem handlers_act_on_key_up_only (c : ascii) (rest : string) :
  c ≠ "u"%char →
  (∀ s, blacklist_handler (String c rest) s = (Ok tt, s))
  ∧ (∀ s, whitelist_handler (String c rest) s = (Ok tt, s))
  ∧ (∀ r, quit_handler (String c rest) r = (Ok tt, r))
  ∧ (∀ s, blacklist_handler "" s = (Raise IndexError, s))
  ∧ (∀ s, whitelist_handler "" s = (Raise IndexError, s))
  ∧ (∀ r, quit_handler "" r = (Raise IndexError, r)).
Proof.
  intros Hc.
  assert (key_up (String c rest) = Ok false) as E.
  { simpl. now destruct (Ascii.eqb_spec c "u"). }
  repeat split; intros s;
    unfold blacklist_handler, whitelist_handler, quit_handler, bind, lift_result;
    rewrite ?E; reflexivity.
Qed.

Lemma handlers_act_on_key_up_only_witness :
  (∀ s, blacklist_handler "d-" s = (Ok tt, s))
  ∧ (∀ s, whitelist_handler "d-" s = (Ok tt, s))
  ∧ (∀ r, quit_handler "d-" r = (Ok tt, r))
  ∧ (∀ s, blacklist_handler "" s = (Raise IndexError, s))
  ∧ (∀ s, whitelist_handler "" s = (Raise IndexError, s))
  ∧ (∀ r, quit_handler "" r = (Raise IndexError, r)).
Proof. apply (handlers_act_on_key_up_only "d" "-"). discriminate. Defined.

Lemma key_of_a_missing_file (handler : string → M Session unit)
    (s : Session) (state fname : string) (i : nat) :
  handler = blacklist_handler ∨ handler = whitelist_handler →
  key_up state = Ok true →
  playlist_pos (player s) = Some i → playlist (player s) !! i = Some fname →
  fs (world s) !! fname = None →
  handler state s
  = (Raise FileNotFoundError,
     {| col := col s; player := player s; world := logged fname (world s) |}).
Proof.
  intros Hh Hup Hpos Hcur Hf.
  assert (get_file_key fname HASH_LENGTH SIZE_LENGTH (world s)
          = (Raise FileNotFoundError, logged fname (world s))) as E.
  { unfold get_file_key, get_file_hash, bind, log_hashed, modify, Os.open_r.
    cbn [fs]. now rewrite Hf. }
  destruct Hh as [-> | ->].
  - unfold blacklist_handler.
    unfold bind at 1. unfold lift_result. rewrite Hup. cbv beta iota.
    rewrite (bind_Ok _ _ _ _ _ (current_filename_run s i fname Hpos Hcur)).
    unfold bind at 1.
    now rewrite (in_world_run (get_file_key fname HASH_LENGTH SIZE_LENGTH) s _ _ E).
  - unfold whitelist_handler.
    unfold bind at 1. unfold lift_result. rewrite Hup. cbv beta iota.
    rewrite (bind_Ok _ _ _ _ _ (current_filename_run s i fname Hpos Hcur)).
    unfold bind at 1.
    now rewrite (in_world_run (get_file_key fname HASH_LENGTH SIZE_LENGTH) s _ _ E).
Qed.

(** X19. When the file the player shows is no longer there, a decision
    on it fails before anything is decided: either handler raises
    [FileNotFoundError] from the computation of the key, and the
    blacklist, the whitelist, the playlist and the file system are as
    they were; nothing is printed. *)
Theorem decision_on_a_vanished_file (s : Session) (state fname : string)
    (i : nat) :
  key_up state = Ok true →
  playlist_pos (player s) = Some i → playlist (player s) !! i = Some fname →
  fs (world s) !! fname = None →
  (∃ s', blacklist_handler state s = (Raise FileNotFoundError, s')
         ∧ col s' = col s ∧ player s' = player s
         ∧ fs (world s') = fs (world s)
         ∧ stdout (world s') = stdout (world s))
  ∧ (∃ s', whitelist_handler state s = (Raise FileNotFoundError, s')
           ∧ col s' = col s ∧ player s' = player s
           ∧ fs (world s') = fs (world s)
           ∧ stdout (world s') = stdout (world s)).
Proof.
  intros Hup Hpos Hcur Hf. split; eexists.
  - split;
      [apply (key_of_a_missing_file blacklist_handler s state fname i); auto
      |repeat split].
  - split;
      [apply (key_of_a_missing_file whitelist_handler s state fname i); auto
      |repeat split].
Qed.

Lemma decision_on_a_vanished_file_witness :
  let s := {| col := col demo_review;
              player := {| playlist := [ "col/.airlock/gone.jpg" ];
                           playlist_pos := Some 0%nat |};
              world := world demo_review |} in
  (∃ s', blacklist_handler "u-" s = (Raise FileNotFoundError, s')
         ∧ col s' = col s ∧ player s' = player s
         ∧ fs (world s') = fs (world s)
         ∧ stdout (world s') = stdout (world s))
  ∧ (∃ s', whitelist_handler "u-" s = (Raise FileNotFoundError, s')
           ∧ col s' = col s ∧ player s' = player s
           ∧ fs (world s') = fs (world s)
           ∧ stdout (world s') = stdout (world s)).
Proof.
  intros s.
  apply (decision_on_a_vanished_file s "u-" "col/.airlock/gone.jpg" 0).
  - reflexivity.
  - reflexivity.
  - reflexivity.
  - vm_compute. reflexivity.
Defined.

(** ** The first run *)

Lemma strip_prefix_app_same (a b x : string) :
  Os.strip_prefix (a +:+ b) (a +:+ x) = Os.strip_prefix b x.
Proof.
  induction a as [|c a IH]; [now rewrite !sapp_nil_l|].
  rewrite !sapp_cons. simpl. now rewrite Ascii.eqb_refl.
Qed.

Lemma dir_prefix_length (c : string) :
  (String.length c ≤ String.length (Os.dir_prefix c))%nat.
Proof.
  unfold Os.dir_prefix. destruct (_ || _); [lia|]. rewrite sapp_length. lia.
Qed.

Lemma scandir_nothing (m : gmap string inode) (top : string) :
  (∀ p, p ∈ dom m → Os.entry_name top p = None) → Os.scandir m top = [].
Proof.
  intros H. unfold Os.scandir. apply elements_empty_iff.
  intros name. split; [|intros []%elem_of_empty].
  intros (p & Hp & Hname)%elem_of_set_omap. rewrite (H p Hp) in Hname.
  discriminate Hname.
Qed.

(** The airlock and the gallery of a collection that was just laid
    out hold nothing. *)
Lemma new_dir_is_empty (c d : string) (m : gmap string inode) :
  d = AIRLOCK_DIR ∨ d = GALLERY_DIR →
  (∀ rest, m !! (Os.dir_prefix c +:+ rest) = None) →
  Os.scandir (<[Os.join c GALLERY_DIR := Dir]>
                (<[Os.join c AIRLOCK_DIR := Dir]>
                   (<[Os.join c WHITELIST_FILE := File []]>
                      (<[Os.join c BLACKLIST_FILE := File []]>
                         (<[c := Dir]> m))))) (Os.join c d) = [].
Proof.
  intros Hd Hbelow. apply scandir_nothing. intros p Hp.
  unfold Os.entry_name.
  assert (Os.dir_prefix (Os.join c d) = Os.dir_prefix c +:+ d +:+ "/") as ->.
  { destruct Hd as [-> | ->]; now apply dir_prefix_join. }
  destruct (Os.strip_prefix _ p) as [n|] eqn:E; [exfalso|reflexivity].
  apply strip_prefix_Some in E. rewrite !sapp_assoc in E.
  rewrite !dom_insert in Hp.
  rewrite !join_relative in Hp by reflexivity.
  assert (∀ x, Os.dir_prefix c +:+ x = p → x = d +:+ "/" +:+ n) as Hinj.
  { intros x Hx. rewrite E in Hx. now apply (inj (String.app _)) in Hx. }
  apply elem_of_union in Hp as [Hp|Hp];
    [apply elem_of_singleton in Hp; symmetry in Hp; apply Hinj in Hp;
     destruct Hd as [-> | ->]; vm_compute in Hp; discriminate Hp|].
  apply elem_of_union in Hp as [Hp|Hp];
    [apply elem_of_singleton in Hp; symmetry in Hp; apply Hinj in Hp;
     destruct Hd as [-> | ->]; vm_compute in Hp; discriminate Hp|].
  apply elem_of_union in Hp as [Hp|Hp];
    [apply elem_of_singleton in Hp; symmetry in Hp; apply Hinj in Hp;
     destruct Hd as [-> | ->]; vm_compute in Hp; discriminate Hp|].
  apply elem_of_union in Hp as [Hp|Hp];
    [apply elem_of_singleton in Hp; symmetry in Hp; apply Hinj in Hp;
     destruct Hd as [-> | ->]; vm_compute in Hp; discriminate Hp|].
  apply elem_of_union in Hp as [Hp|Hp].
  - apply elem_of_singleton in Hp. subst p.
    apply (f_equal String.length) in E. rewrite sapp_length in E.
    pose proof (dir_prefix_length c).
    assert (0 < String.length (d +:+ "/" +:+ n))%nat
      by (destruct Hd as [-> | ->]; rewrite sapp_length; simpl; lia).
    lia.
  - apply elem_of_dom in Hp as [x Hx]. rewrite E, Hbelow in Hx. discriminate Hx.
Qed.

Lemma sort_airlock_empty (play : list string → M (Collection.t * World) unit)
    (COL : Collection.t) (w : World) :
  fs w !! Collection.get_airlock COL = Some Dir →
  Os.scandir (fs w) (Collection.get_airlock COL) = [] →
  sort_airlock play (COL, w)
  = (Ok tt, (COL, printed (Collection.directory COL
                           +:+ ": Airlock empty. Nothing to do.") w)).
Proof.
  intros Hdir Hnone. unfold sort_airlock, bind, with_col, listdir.
  rewrite Hdir, Hnone. reflexivity.
Qed.

Lemma view_collection_empty (shuffle : list string → list string)
    (show : list string → Z → M (Collection.t * World) unit) (wait : Z)
    (COL : Collection.t) (w : World) :
  shuffle [] = [] →
  fs w !! Collection.get_gallery COL = Some Dir →
  Os.scandir (fs w) (Collection.get_gallery COL) = [] →
  view_collection shuffle show wait (COL, w)
  = (Ok tt, (COL, printed (Collection.directory COL
                           +:+ ": Gallery empty. Nothing to do.") w)).
Proof.
  intros Hsh Hdir Hnone. unfold view_collection, bind, with_col, listdir.
  rewrite Hdir, Hnone. cbn [map ret]. rewrite Hsh. reflexivity.
Qed.

Lemma serialize_empty_key :
  Py.encode (serialize (elements ({[ "" ]} : gset string)))
  = Py.encode (String Py.newline "").
Proof. now rewrite elements_singleton. Qed.

(** The run of a body that prints one line in a collection that is
    laid out at a path where there was nothing. *)
Lemma first_run (c line : string) (body : M (Collection.t * World) unit)
    (w : World) :
  nothing_at c (fs w) →
  (∀ COL w1, Collection.directory COL = c →
             fs w1 !! Os.join c AIRLOCK_DIR = Some Dir →
             fs w1 !! Os.join c GALLERY_DIR = Some Dir →
             Os.scandir (fs w1) (Os.join c AIRLOCK_DIR) = [] →
             Os.scandir (fs w1) (Os.join c GALLERY_DIR) = [] →
             body (COL, w1) = (Ok tt, (COL, printed line w1))) →
  ∃ w',
    with_Collection c body w = (Ok tt, w')
    ∧ stdout w' = stdout w ++ [line]
    ∧ fs w' !! c = Some Dir
    ∧ fs w' !! Os.join c AIRLOCK_DIR = Some Dir
    ∧ fs w' !! Os.join c GALLERY_DIR = Some Dir
    ∧ fs w' !! Os.join c BLACKLIST_FILE
      = Some (File (Py.encode (String Py.newline "")))
    ∧ fs w' !! Os.join c WHITELIST_FILE
      = Some (File (Py.encode (String Py.newline "")))
    ∧ (∀ p, p ≠ c → p ≠ Os.join c BLACKLIST_FILE → p ≠ Os.join c WHITELIST_FILE →
            p ≠ Os.join c AIRLOCK_DIR → p ≠ Os.join c GALLERY_DIR →
            fs w' !! p = fs w !! p).
Proof.
  intros Hnew Hbody.
  destruct (collection_paths_differ c)
    as ((cB & cW & cA & cG) & (BW & BA & BG) & (WA & WG) & AG).
  pose proof (init_new c w Hnew) as Hinit.
  set (COL := {| Collection.directory := c;
                 Collection.blacklist := {[ "" ]};
                 Collection.whitelist := {[ "" ]} |}) in *.
  set (w1 := set_fs _ w) in *.
  assert (body (COL, w1) = (Ok tt, (COL, printed line w1))) as Hrun.
  { destruct Hnew as [_ Hbelow]. apply Hbody; [reflexivity|..].
    - cbn [fs set_fs w1]. rewrite lookup_insert_ne by congruence.
      apply lookup_insert_eq.
    - cbn [fs set_fs w1]. apply lookup_insert_eq.
    - apply new_dir_is_empty; [now left|exact Hbelow].
    - apply new_dir_is_empty; [now right|exact Hbelow]. }
  pose proof (exit_flushes COL (printed line w1)) as Hexit. cbv zeta in Hexit.
  change (Collection.directory COL) with c in Hexit.
  cbn [fs printed set_fs w1] in Hexit.
  rewrite !lookup_insert_ne in Hexit by congruence.
  rewrite lookup_insert_eq in Hexit.
  specialize (Hexit ltac:(discriminate)).
  rewrite !lookup_insert_ne in Hexit by congruence.
  rewrite lookup_insert_eq in Hexit.
  specialize (Hexit ltac:(discriminate)).
  eexists. split.
  { unfold with_Collection. rewrite Hinit, Hrun, Hexit. reflexivity. }
  cbn [fs stdout printed set_fs w1 COL Collection.blacklist Collection.whitelist].
  rewrite serialize_empty_key.
  split; [reflexivity|].
  split; [rewrite !lookup_insert_ne by congruence; apply lookup_insert_eq|].
  split; [rewrite !lookup_insert_ne by congruence; apply lookup_insert_eq|].
  split; [rewrite !lookup_insert_ne by congruence; apply lookup_insert_eq|].
  split; [rewrite !lookup_insert_ne by congruence; apply lookup_insert_eq|].
  split; [apply lookup_insert_eq|].
  intros p N1 N2 N3 N4 N5. now rewrite !lookup_insert_ne by congruence.
Qed.

(** X20. The first run on a new collection, with no source and
    nothing to view, at a path where the collection can be opened: the
    program lays out the collection, finds the airlock empty, says so,
    makes no player, and on leaving writes the two lists, each with the
    one line of the empty key; it returns normally and touches nothing
    else. *)
Theorem first_run_finds_the_airlock_empty
    (play : list string → M (Collection.t * World) unit)
    (shuffle : list string → list string)
    (show : list string → Z → M (Collection.t * World) unit)
    (int : string → result Z) (ARGS : Args) (c : string) (w w1 : World)
    (COL : Collection.t) :
  collection ARGS = Some c → c ≠ "" →
  truthy (source ARGS) = false → truthy (view ARGS) = false →
  nothing_at c (fs w) →
  Collection.__init__ c w = (Ok COL, w1) →
  ∃ w',
    main (sort_airlock play) (view_collection shuffle show) int ARGS w
    = (Ok tt, w')
    ∧ stdout w' = stdout w ++ [c +:+ ": Airlock empty. Nothing to do."]
    ∧ fs w' !! c = Some Dir
    ∧ fs w' !! Os.join c AIRLOCK_DIR = Some Dir
    ∧ fs w' !! Os.join c GALLERY_DIR = Some Dir
    ∧ fs w' !! Os.join c BLACKLIST_FILE
      = Some (File (Py.encode (String Py.newline "")))
    ∧ fs w' !! Os.join c WHITELIST_FILE
      = Some (File (Py.encode (String Py.newline "")))
    ∧ (∀ p, p ≠ c → p ≠ Os.join c BLACKLIST_FILE → p ≠ Os.join c WHITELIST_FILE →
            p ≠ Os.join c AIRLOCK_DIR → p ≠ Os.join c GALLERY_DIR →
            fs w' !! p = fs w !! p).
Proof.
  intros Hc _ Hs Hv Hnew _. unfold main, opened. rewrite Hs, Hv, Hc.
  apply first_run; [exact Hnew|].
  intros COL1 w2 Hdir HA _ HnA _. rewrite <- Hdir in HA, HnA |- *.
  now apply sort_airlock_empty.
Qed.

Lemma first_run_finds_the_airlock_empty_witness :
  ∃ w',
    main (sort_airlock (λ _, raise ValueError))
      (view_collection (λ l, l) (λ _ _, raise ValueError))
      (λ _, Raise ValueError)
      {| collection := Some "col"; source := None; view := None |} demo_world
    = (Ok tt, w')
    ∧ stdout w' = stdout demo_world ++ ["col" +:+ ": Airlock empty. Nothing to do."]
    ∧ fs w' !! "col" = Some Dir
    ∧ fs w' !! Os.join "col" AIRLOCK_DIR = Some Dir
    ∧ fs w' !! Os.join "col" GALLERY_DIR = Some Dir
    ∧ fs w' !! Os.join "col" BLACKLIST_FILE
      = Some (File (Py.encode (String Py.newline "")))
    ∧ fs w' !! Os.join "col" WHITELIST_FILE
      = Some (File (Py.encode (String Py.newline "")))
    ∧ (∀ p, p ≠ "col" → p ≠ Os.join "col" BLACKLIST_FILE →
            p ≠ Os.join "col" WHITELIST_FILE →
            p ≠ Os.join "col" AIRLOCK_DIR → p ≠ Os.join "col" GALLERY_DIR →
            fs w' !! p = fs demo_world !! p).
Proof.
  apply (first_run_finds_the_airlock_empty _ _ _ _
           {| collection := Some "col"; source := None; view := None |}
           "col" demo_world (Collection.__init__ "col" demo_world).2
           {| Collection.directory := "col";
              Collection.blacklist := {[ "" ]};
              Collection.whitelist := {[ "" ]} |}).
  - reflexivity.
  - discriminate.
  - reflexivity.
  - reflexivity.
  - exact demo_col_is_new.
  - vm_compute. reflexivity.
Defined.

(** X21. The first run with [--view], at a path where the collection
    can be opened: the seconds to wait are read inside the opened
    collection, the gallery is found empty and the program says so,
    starts no player and no thread, and leaves the collection laid out
    and its two lists written. *)
Theorem first_view_finds_the_gallery_empty
    (play : list string → M (Collection.t * World) unit)
    (shuffle : list string → list string)
    (show : list string → Z → M (Collection.t * World) unit)
    (int : string → result Z) (ARGS : Args) (c v : string) (wait : Z)
    (w w1 : World) (COL : Collection.t) :
  collection ARGS = Some c → c ≠ "" →
  truthy (source ARGS) = false →
  view ARGS = Some v → v ≠ "" → int v = Ok wait →
  shuffle [] = [] →
  nothing_at c (fs w) →
  Collection.__init__ c w = (Ok COL, w1) →
  ∃ w',
    main (sort_airlock play) (view_collection shuffle show) int ARGS w
    = (Ok tt, w')
    ∧ stdout w' = stdout w ++ [c +:+ ": Gallery empty. Nothing to do."]
    ∧ fs w' !! c = Some Dir
    ∧ fs w' !! Os.join c AIRLOCK_DIR = Some Dir
    ∧ fs w' !! Os.join c GALLERY_DIR = Some Dir
    ∧ fs w' !! Os.join c BLACKLIST_FILE
      = Some (File (Py.encode (String Py.newline "")))
    ∧ fs w' !! Os.join c WHITELIST_FILE
      = Some (File (Py.encode (String Py.newline "")))
    ∧ (∀ p, p ≠ c → p ≠ Os.join c BLACKLIST_FILE → p ≠ Os.join c WHITELIST_FILE →
            p ≠ Os.join c AIRLOCK_DIR → p ≠ Os.join c GALLERY_DIR →
            fs w' !! p = fs w !! p).
Proof.
  intros Hc _ Hs Hv Hne Hint Hsh Hnew _. unfold main, opened.
  rewrite Hs, Hv, Hc.
  assert (truthy (Some v) = true) as -> by (destruct v; [congruence|reflexivity]).
  apply first_run; [exact Hnew|].
  intros COL1 w2 Hdir _ HG _ HnG.
  change (default "" (Some v)) with v.
  unfold bind at 1. unfold lift_result. rewrite Hint.
  rewrite <- Hdir in HG, HnG |- *.
  now apply view_collection_empty.
Qed.

Lemma first_view_finds_the_gallery_empty_witness :
  ∃ w',
    main (sort_airlock (λ _, raise ValueError))
      (view_collection (λ l, l) (λ _ _, raise ValueError))
      (λ _, Ok 5)
      {| collection := Some "col"; source := None; view := Some "5" |} demo_world
    = (Ok tt, w')
    ∧ stdout w' = stdout demo_world ++ ["col" +:+ ": Gallery empty. Nothing to do."]
    ∧ fs w' !! "col" = Some Dir
    ∧ fs w' !! Os.join "col" AIRLOCK_DIR = Some Dir
    ∧ fs w' !! Os.join "col" GALLERY_DIR = Some Dir
    ∧ fs w' !! Os.join "col" BLACKLIST_FILE
      = Some (File (Py.encode (String Py.newline "")))
    ∧ fs w' !! Os.join "col" WHITELIST_FILE
      = Some (File (Py.encode (String Py.newline "")))
    ∧ (∀ p, p ≠ "col" → p ≠ Os.join "col" BLACKLIST_FILE →
            p ≠ Os.join "col" WHITELIST_FILE →
            p ≠ Os.join "col" AIRLOCK_DIR → p ≠ Os.join "col" GALLERY_DIR →
            fs w' !! p = fs demo_world !! p).
Proof.
  apply (first_view_finds_the_gallery_empty _ _ _ _
           {| collection := Some "col"; source := None; view := Some "5" |}
           "col" "5" 5 demo_world (Collection.__init__ "col" demo_world).2
           {| Collection.directory := "col";
              Collection.blacklist := {[ "" ]};
              Collection.whitelist := {[ "" ]} |}).
  - reflexivity.
  - discriminate.
  - reflexivity.
  - reflexivity.
  - discriminate.
  - reflexivity.
  - reflexivity.
  - exact demo_col_is_new.
  - vm_compute. reflexivity.
Defined.

(** ** What the review shows *)

(** The listing of a directory: the names of its entries. *)
Lemma scandir_spec (m : gmap string inode) (top d : string) :
  d ∈ Os.scandir m top
  ↔ d ≠ "" ∧ Os.has_slash d = false ∧ is_Some (m !! Os.join top d).
Proof.
  split.
  - intros Hd. apply scandir_name in Hd as (Hne & Hsl & p & Hp & Hname).
    split; [exact Hne|]. split; [exact Hsl|].
    unfold Os.entry_name in Hname.
    destruct (Os.strip_prefix _ p) as [n|] eqn:E; [|discriminate].
    destruct (_ || _); [discriminate|]. injection Hname as ->.
    apply strip_prefix_Some in E. subst p.
    rewrite join_relative by now apply no_slash_relative.
    now apply elem_of_dom.
  - intros (Hne & Hsl & Hp). unfold Os.scandir.
    apply elem_of_elements, elem_of_set_omap.
    exists (Os.join top d). split; [now apply elem_of_dom|].
    unfold Os.entry_name.
    rewrite join_relative, strip_prefix_self by now apply no_slash_relative.
    now rewrite bool_decide_eq_false_2, Hsl.
Qed.

(** X24. With something in the airlock, [sort_airlock] does nothing
    but list the airlock before it makes the player, and the playlist
    with which it goes on -- to the player, and to the loop that prints
    the progress -- holds every entry of the airlock once, by its path
    in the airlock, and nothing else. *)
Theorem review_shows_the_airlock_once
    (play : list string → M (Collection.t * World) unit)
    (COL : Collection.t) (w : World) (name : string) :
  let airlock := Collection.get_airlock COL in
  fs w !! airlock = Some Dir →
  name ≠ "" → Os.has_slash name = false →
  is_Some (fs w !! Os.join airlock name) →
  ∃ playlist,
    sort_airlock play (COL, w) = play playlist (COL, w)
    ∧ NoDup playlist
    ∧ ∀ p, p ∈ playlist
           ↔ ∃ n, p = Os.join airlock n ∧ n ≠ "" ∧ Os.has_slash n = false
                  ∧ is_Some (fs w !! p).
Proof.
  intros airlock Hdir Hne Hsl Hname.
  exists (map (λ fil, Os.join airlock fil) (Os.scandir (fs w) airlock)).
  split; [|split].
  - unfold sort_airlock, bind, with_col, listdir. fold airlock.
    rewrite Hdir. cbn [ret].
    assert (name ∈ Os.scandir (fs w) airlock) as Hin
      by now apply scandir_spec.
    destruct (Os.scandir (fs w) airlock) as [|n l]; [inversion Hin|].
    reflexivity.
  - apply NoDup_fmap_2_strong; [|apply NoDup_elements].
    intros n1 n2 H1 H2 E.
    apply scandir_spec in H1 as (_ & S1 & _).
    apply scandir_spec in H2 as (_ & S2 & _).
    apply join_inj in E; [exact E|now apply no_slash_relative..].
  - intros p. rewrite list_elem_of_fmap. split.
    + intros (n & -> & Hn). apply scandir_spec in Hn as (N1 & N2 & N3).
      now exists n.
    + intros (n & -> & N1 & N2 & N3). exists n.
      split; [reflexivity|now apply scandir_spec].
Qed.

Lemma review_shows_the_airlock_once_witness :
  let COL := col demo_review in
  let w := world demo_review in
  let airlock := Collection.get_airlock COL in
  ∃ playlist,
    sort_airlock (λ _, raise ValueError) (COL, w)
    = (λ _ : list string, raise ValueError) playlist (COL, w)
    ∧ NoDup playlist
    ∧ ∀ p, p ∈ playlist
           ↔ ∃ n, p = Os.join airlock n ∧ n ≠ "" ∧ Os.has_slash n = false
                  ∧ is_Some (fs w !! p).
Proof.
  intros COL w.
  apply (review_shows_the_airlock_once (λ _, raise ValueError) COL w
           "5eab7351ed5e78f4ddadea5df64b801500000001.jpg").
  - vm_compute. reflexivity.
  - discriminate.
  - reflexivity.
  - vm_compute. eauto.
Defined.

(** ** The hash field and the digest *)

Lemma lower_hex_value (c : ascii) :
  is_lower_hex c = true → ∃ d, Py.hex_value c = Some d ∧ 0 ≤ d < 16.
Proof.
  unfold is_lower_hex, Py.hex_value. set (n := Z.of_N (N_of_ascii c)).
  destruct (Z.leb_spec 48 n), (Z.leb_spec n 57), (Z.leb_spec 97 n),
    (Z.leb_spec n 102); simpl; try discriminate; intros _;
    eexists; (split; [reflexivity|lia]).
Qed.

Lemma lower_hex_value_inj (c1 c2 : ascii) (d : Z) :
  is_lower_hex c1 = true → is_lower_hex c2 = true →
  Py.hex_value c1 = Some d → Py.hex_value c2 = Some d → c1 = c2.
Proof.
  unfold is_lower_hex, Py.hex_value. intros H1 H2 E1 E2.
  assert (N_of_ascii c1 = N_of_ascii c2) as E.
  { set (n1 := Z.of_N (N_of_ascii c1)) in *.
    set (n2 := Z.of_N (N_of_ascii c2)) in *.
    enough (n1 = n2) by (unfold n1, n2 in *; lia).
    destruct (Z.leb_spec 48 n1), (Z.leb_spec n1 57), (Z.leb_spec 97 n1),
      (Z.leb_spec n1 102); simpl in H1, E1; try discriminate;
      destruct (Z.leb_spec 48 n2), (Z.leb_spec n2 57), (Z.leb_spec 97 n2),
        (Z.leb_spec n2 102); simpl in H2, E2; try discriminate;
      injection E1 as E1; injection E2 as E2; lia. }
  rewrite <- (ascii_N_embedding c1), <- (ascii_N_embedding c2). now rewrite E.
Qed.

(** The value of a string of digits, read after [acc]. *)
Lemma int16_from_value (s : string) :
  all_chars is_lower_hex s = true →
  ∃ v, 0 ≤ v < 16 ^ Z.of_nat (String.length s)
       ∧ ∀ acc, Py.int16_from acc s
                = Ok (acc * 16 ^ Z.of_nat (String.length s) + v).
Proof.
  induction s as [|c s IH]; intros Hs.
  - exists 0. split; [simpl; lia|]. intros acc. simpl. f_equal. lia.
  - simpl in Hs. apply andb_prop in Hs as [Hc Hs].
    destruct (IH Hs) as (v & Hv & Hrun).
    destruct (lower_hex_value c Hc) as (d & Hd & Hrange).
    set (n := String.length s) in *.
    assert (16 ^ Z.of_nat (String.length (String c s)) = 16 * 16 ^ Z.of_nat n)
      as Hpow.
    { cbn [String.length]. fold n.
      replace (Z.of_nat (S n)) with (Z.succ (Z.of_nat n)) by lia.
      now rewrite Z.pow_succ_r by lia. }
    exists (d * 16 ^ Z.of_nat n + v). split; [rewrite Hpow; nia|].
    intros acc. cbn [Py.int16_from]. rewrite Hd, Hrun, Hpow. f_equal. lia.
Qed.

Lemma int16_from_app (a b : string) (acc : Z) :
  Py.int16_from acc (a +:+ b)
  = match Py.int16_from acc a with
    | Ok x => Py.int16_from x b
    | Raise e => Raise e
    end.
Proof.
  revert acc. induction a as [|c a IH]; intros acc.
  - now rewrite sapp_nil_l.
  - rewrite sapp_cons. cbn [Py.int16_from].
    destruct (Py.hex_value c); [apply IH|reflexivity].
Qed.

(** Two strings of as many digits that read as one number are one
    string. *)
Lemma int16_from_inj (a b : string) (acc : Z) :
  String.length a = String.length b →
  all_chars is_lower_hex a = true → all_chars is_lower_hex b = true →
  Py.int16_from acc a = Py.int16_from acc b → a = b.
Proof.
  revert b acc. induction a as [|c a IH]; intros [|c' b] acc Hlen Ha Hb E;
    try discriminate Hlen; [reflexivity|].
  injection Hlen as Hlen. simpl in Ha, Hb.
  apply andb_prop in Ha as [Hc Ha]. apply andb_prop in Hb as [Hc' Hb].
  destruct (lower_hex_value c Hc) as (d & Hd & Hr).
  destruct (lower_hex_value c' Hc') as (d' & Hd' & Hr').
  cbn [Py.int16_from] in E. rewrite Hd, Hd' in E.
  destruct (int16_from_value a Ha) as (v & Hv & Hrun).
  destruct (int16_from_value b Hb) as (v' & Hv' & Hrun').
  rewrite Hrun, Hrun', <- Hlen in E. injection E as E.
  rewrite <- Hlen in Hv'.
  assert (d = d') as <- by nia.
  assert (c = c') as <- by (eapply lower_hex_value_inj; eassumption).
  f_equal. apply (IH b (16 * acc + d)); try assumption.
  rewrite Hrun, Hrun', <- Hlen. f_equal. lia.
Qed.

Lemma split_suffix (s : string) (n : nat) :
  (n ≤ String.length s)%nat →
  ∃ pre suf, s = pre +:+ suf ∧ String.length suf = n.
Proof.
  induction s as [|c s IH]; intros Hn.
  - exists "", "". simpl in Hn. split; [reflexivity|simpl; lia].
  - destruct (decide (n = String.length (String c s))) as [->|Hne].
    + exists "", (String c s). now split.
    + destruct IH as (pre & suf & -> & Hlen); [simpl in Hn, Hne; lia|].
      exists (String c pre), suf. split; [now rewrite sapp_cons|exact Hlen].
Qed.

Lemma hex_bytes_shape (bs : list byte) :
  let s := foldr (λ b s, Sha256.hex_of_byte b +:+ s) EmptyString bs in
  String.length s = (2 * length bs)%nat ∧ all_chars is_lower_hex s = true.
Proof.
  induction bs as [|b bs [IH1 IH2]]; [now split|].
  cbn [foldr].
  change (Sha256.hex_of_byte b +:+ ?s)
    with (String (Py.hex_char (Sha256.byteZ b / 16))
            (String (Py.hex_char (Sha256.byteZ b mod 16)) s)).
  split.
  - cbn [String.length length]. rewrite IH1. lia.
  - cbn [all_chars]. now rewrite !hex_char_lower, IH2.
Qed.

(** X22. The hash field of a key is the end of the SHA-256 digest as
    [hexdigest] writes it: with a width of 1 to 64 it is the last
    [hash_length] characters of the 64; the size field follows it.  With
    the widths of the program a key is the last 32 characters of the
    digest and then the size in hexadecimal. *)
Theorem hash_field_is_the_end_of_the_digest (w : World) (fname : string)
    (data : list byte) (hash_length size_length : Z) :
  fs w !! fname = Some (File data) →
  1 ≤ hash_length ≤ 64 → 0 ≤ size_length →
  ∃ pre fhash fsize,
    (get_file_key fname hash_length size_length w).1 = Ok (fhash +:+ fsize)
    ∧ (get_file_hash fname hash_length w).1 = Ok fhash
    ∧ Sha256.hexdigest data = pre +:+ fhash
    ∧ String.length fhash = Z.to_nat hash_length
    ∧ hex_encode (Z.of_nat (length data)) size_length = Ok fsize.
Proof.
  intros Hf Hh Hs.
  rewrite (get_file_key_File w fname data), (get_file_hash_File w fname data)
    by assumption. cbn [fst].
  unfold content_key, hash_field.
  pose proof (hex_bytes_shape (Sha256.digest data)) as [Hlen Hlow].
  cbv zeta in Hlen, Hlow. fold (Sha256.hexdigest data) in Hlen, Hlow.
  rewrite digest_length in Hlen.
  destruct (split_suffix (Sha256.hexdigest data) (Z.to_nat hash_length))
    as (pre & suf & Hsplit & Hsuf); [lia|].
  rewrite Hsplit in Hlow. rewrite all_chars_app in Hlow.
  apply andb_prop in Hlow as [Hpre Hlsuf].
  destruct (int16_from_value pre Hpre) as (vp & _ & Hvp).
  destruct (int16_from_value suf Hlsuf) as (vs & Hvs & Hrun).
  rewrite Hsuf, Z2Nat.id in Hvs, Hrun by lia.
  assert (Py.int16 (Sha256.hexdigest data) = Ok (vp * 16 ^ hash_length + vs))
    as Hn.
  { assert (Py.int16 (Sha256.hexdigest data)
            = Py.int16_from 0 (Sha256.hexdigest data)) as ->
      by (unfold Py.int16; now destruct (Sha256.hexdigest data)).
    rewrite Hsplit, int16_from_app, Hvp, Hrun. f_equal; lia. }
  rewrite Hn.
  assert ((vp * 16 ^ hash_length + vs) mod 2 ^ (4 * hash_length) = vs) as ->.
  { replace (2 ^ (4 * hash_length)) with (16 ^ hash_length)
      by (rewrite Z.pow_mul_r by lia; reflexivity).
    rewrite Z.add_comm, Z.mod_add by lia. now apply Z.mod_small. }
  unfold hex_encode.
  destruct (format_0x_length hash_length vs) as (f & Hfmt & Hflen & Hflow);
    [lia|exact Hvs|].
  assert (f = suf) as ->.
  { apply (int16_from_inj f suf 0); [congruence|assumption..|].
    pose proof (int16_format_0x hash_length vs f ltac:(lia) Hfmt) as Hread.
    unfold Py.int16 in Hread. destruct f; [simpl in Hflen; lia|].
    rewrite Hread, Hrun. f_equal; lia. }
  destruct (format_0x_lower size_length (Z.of_nat (length data)))
    as (fsz & Hfsz & _); [lia..|].
  rewrite Hfmt, Hfsz. exists pre, suf, fsz. auto.
Qed.

Lemma hash_field_is_the_end_of_the_digest_witness :
  ∃ pre fhash fsize,
    (get_file_key "src/a.jpg" HASH_LENGTH SIZE_LENGTH demo_world).1
    = Ok (fhash +:+ fsize)
    ∧ (get_file_hash "src/a.jpg" HASH_LENGTH demo_world).1 = Ok fhash
    ∧ Sha256.hexdigest (Py.encode "X") = pre +:+ fhash
    ∧ String.length fhash = Z.to_nat HASH_LENGTH
    ∧ hex_encode (Z.of_nat (length (Py.encode "X"))) SIZE_LENGTH = Ok fsize.
Proof.
  apply (hash_field_is_the_end_of_the_digest demo_world "src/a.jpg"
           (Py.encode "X")).
  - vm_compute. reflexivity.
  - unfold HASH_LENGTH. lia.
  - unfold SIZE_LENGTH. lia.
Defined.

(** ** The order of the files of a directory *)

Lemma compare_le_trans (a b c : string) :
  String.compare a b ≠ Gt → String.compare b c ≠ Gt → String.compare a c ≠ Gt.
Proof.
  revert b c. induction a as [|x a IH]; intros [|y b] [|z c]; simpl;
    try congruence.
  unfold Ascii.compare.
  destruct (N.compare_spec (N_of_ascii x) (N_of_ascii y)) as [Exy|Lxy|Gxy];
    try congruence;
    destruct (N.compare_spec (N_of_ascii y) (N_of_ascii z)) as [Eyz|Lyz|Gyz];
    try congruence;
    destruct (N.compare_spec (N_of_ascii x) (N_of_ascii z)) as [Exz|Lxz|Gxz];
    try congruence; try lia.
  apply IH.
Qed.

Lemma leb_compare (a b : string) :
  String.leb a b = true ↔ String.compare a b ≠ Gt.
Proof. unfold String.leb. destruct (String.compare a b); split; congruence. Qed.

Lemma name_le_trans : Transitive name_le.
Proof.
  intros a b c. unfold name_le. rewrite !leb_compare. apply compare_le_trans.
Qed.

Lemma name_le_antisymm : AntiSymm eq name_le.
Proof. intros a b. unfold name_le. apply String.leb_antisym. Qed.

Lemma insert_sorted_perm (x : string) (l : list string) :
  Py.insert_sorted x l ≡ₚ x :: l.
Proof.
  induction l as [|y l IH]; [reflexivity|]. simpl.
  destruct (String.leb x y); [reflexivity|].
  rewrite IH. apply Permutation_swap.
Qed.

Lemma sorted_perm (l : list string) : Py.sorted l ≡ₚ l.
Proof.
  unfold Py.sorted. induction l as [|x l IH]; [reflexivity|]. simpl.
  now rewrite insert_sorted_perm, IH.
Qed.

Lemma insert_sorted_Sorted (x : string) (l : list string) :
  Sorted name_le l → Sorted name_le (Py.insert_sorted x l).
Proof.
  induction 1 as [|y l Hl IH Hhd]; simpl.
  - repeat constructor.
  - destruct (String.leb x y) eqn:E.
    + constructor; [now constructor|]. now constructor.
    + constructor; [exact IH|].
      assert (name_le y x) as Hyx.
      { destruct (String.leb_total x y) as [H|H]; [congruence|exact H]. }
      destruct Hhd as [|z l' Hyz]; simpl.
      * now constructor.
      * destruct (String.leb x z); now constructor.
Qed.

Lemma sorted_Sorted (l : list string) : Sorted name_le (Py.sorted l).
Proof.
  unfold Py.sorted. induction l as [|x l IH]; simpl; [constructor|].
  now apply insert_sorted_Sorted.
Qed.

(** X23. The files of a directory are imported in the order of their
    names, whatever the order in which the directory lists them: two
    listings of the same names give the same run of the body of the
    outer loop, with the same copies and the same lines. *)
Theorem files_are_imported_in_name_order (col : Collection.t) (root : string)
    (dirs dirs' files files' : list string) (w : World) :
  files ≡ₚ files' →
  Py.sorted files = Py.sorted files'
  ∧ Sorted name_le (Py.sorted files)
  ∧ import_dir col (root, dirs, files) w = import_dir col (root, dirs', files') w.
Proof.
  intros Hperm.
  assert (Py.sorted files = Py.sorted files') as E.
  { apply (@Sorted_unique _ name_le name_le_trans name_le_antisymm);
      try apply sorted_Sorted.
    now rewrite !sorted_perm. }
  split; [exact E|]. split; [apply sorted_Sorted|].
  unfold import_dir. now rewrite E.
Qed.

Lemma files_are_imported_in_name_order_witness :
  let col := {| Collection.directory := "col";
                Collection.blacklist := {[ "" ]};
                Collection.whitelist := {[ "" ]} |} in
  let w := (Collection.__init__ "col" demo_world).2 in
  Py.sorted ["b.jpg"; "c.png"; "a.jpg"] = Py.sorted ["c.png"; "a.jpg"; "b.jpg"]
  ∧ Sorted name_le (Py.sorted ["b.jpg"; "c.png"; "a.jpg"])
  ∧ import_dir col ("src", ["sub"], ["b.jpg"; "c.png"; "a.jpg"]) w
    = import_dir col ("src", ["sub"], ["c.png"; "a.jpg"; "b.jpg"]) w.
Proof.
  intros col w. apply files_are_imported_in_name_order.
  apply (Permutation_cons_append ["c.png"; "a.jpg"] "b.jpg").
Defined.

(** ** Closing when a list cannot be written *)

(** X25. [__exit__] stops at the first list it cannot write.  With a
    directory in the place of the blacklist it raises
    [IsADirectoryError] and writes nothing, the whitelist neither; with
    a directory in the place of the whitelist only, it writes the
    blacklist and then raises. *)
Theorem closing_stops_at_the_first_failure (COL : Collection.t) (w : World) :
  let B := Os.join (Collection.directory COL) BLACKLIST_FILE in
  let W := Os.join (Collection.directory COL) WHITELIST_FILE in
  (fs w !! B = Some Dir →
   Collection.__exit__ COL w = (Raise IsADirectoryError, w))
  ∧ (fs w !! B ≠ Some Dir → fs w !! W = Some Dir →
     ∃ w', Collection.__exit__ COL w = (Raise IsADirectoryError, w')
           ∧ fs w' !! B
             = Some (File (Py.encode (serialize (elements (Collection.blacklist COL)))))
           ∧ ∀ p, p ≠ B → fs w' !! p = fs w !! p).
Proof.
  intros B W. split.
  - intros HB. unfold Collection.__exit__. fold B W.
    unfold bind at 1. unfold write_file_keys at 1. unfold bind at 1.
    unfold Os.open_w. now rewrite HB.
  - intros HB HW. unfold Collection.__exit__. fold B W.
    rewrite (bind_Ok _ _ _ _ _
               (write_file_keys_spec B (Collection.blacklist COL) w HB)).
    assert (W ≠ B) as Hne by apply decision_files_differ.
    eexists. split.
    + unfold write_file_keys, bind, Os.open_w. cbn [fs set_fs].
      rewrite lookup_insert_ne by congruence. rewrite HW. reflexivity.
    + cbn [fs set_fs]. split; [apply lookup_insert_eq|].
      intros p Hp. now apply lookup_insert_ne.
Qed.

(** ** Rejecting a file *)

(** X26. Rejecting the file the player shows removes that file and no
    other: every other entry of the file system is unchanged; the key
    of the file joins the blacklist, the whitelist is as it was; the
    entry leaves the playlist; one line, [Blacklisted: ...], is
    printed. *)
Theorem rejecting_removes_that_file_only (s : Session) (state fname : string)
    (data : list byte) (i : nat) :
  key_up state = Ok true →
  playlist_pos (player s) = Some i → playlist (player s) !! i = Some fname →
  fs (world s) !! fname = Some (File data) →
  ∃ k s',
    (get_file_key fname HASH_LENGTH SIZE_LENGTH (world s)).1 = Ok k
    ∧ blacklist_handler state s = (Ok tt, s')
    ∧ fs (world s') !! fname = None
    ∧ (∀ p, p ≠ fname → fs (world s') !! p = fs (world s) !! p)
    ∧ Collection.blacklist (col s') = Collection.blacklist (col s) ∪ {[ k ]}
    ∧ Collection.whitelist (col s') = Collection.whitelist (col s)
    ∧ Collection.directory (col s') = Collection.directory (col s)
    ∧ playlist (player s') = delete i (playlist (player s))
    ∧ stdout (world s') = stdout (world s) ++ ["Blacklisted: " +:+ fname].
Proof.
  intros Hup Hpos Hcur Hf. destruct (default_key data) as (k & Hk & _).
  exists k. eexists.
  split; [rewrite (get_file_key_File _ _ data) by exact Hf; exact Hk|].
  split.
  { exact (blacklist_handler_run s state fname data k i Hup Hpos Hcur Hf Hk). }
  cbn [world col player fs stdout printed set_fs logged removed playlist
       Collection.blacklist_file Collection.blacklist Collection.whitelist
       Collection.directory].
  split; [apply lookup_delete_eq|].
  split; [intros p Hp; now apply lookup_delete_ne|].
  split; [|auto].
  f_equal. simpl. apply (right_id_L ∅ (∪)).
Qed.

Lemma rejecting_removes_that_file_only_witness :
  let fname := "col/.airlock/5eab7351ed5e78f4ddadea5df64b801500000001.jpg" in
  let s := demo_review in
  ∃ k s',
    (get_file_key fname HASH_LENGTH SIZE_LENGTH (world s)).1 = Ok k
    ∧ blacklist_handler "u-" s = (Ok tt, s')
    ∧ fs (world s') !! fname = None
    ∧ (∀ p, p ≠ fname → fs (world s') !! p = fs (world s) !! p)
    ∧ Collection.blacklist (col s') = Collection.blacklist (col s) ∪ {[ k ]}
    ∧ Collection.whitelist (col s') = Collection.whitelist (col s)
    ∧ Collection.directory (col s') = Collection.directory (col s)
    ∧ playlist (player s') = delete 0%nat (playlist (player s))
    ∧ stdout (world s') = stdout (world s) ++ ["Blacklisted: " +:+ fname].
Proof.
  intros fname s.
  apply (rejecting_removes_that_file_only s "u-" fname (Py.encode "X") 0).
  - reflexivity.
  - reflexivity.
  - reflexivity.
  - vm_compute. reflexivity.
Defined.

(** * The walk and the import, whatever the source tree holds *)

Lemma sorted_elem_iff (x : string) (l : list string) : x ∈ Py.sorted l ↔ x ∈ l.
Proof. now rewrite sorted_perm. Qed.

Lemma walked_files_app (a b : list (string * list string * list string)) :
  walked_files (a ++ b) = walked_files a ++ walked_files b.
Proof. unfold walked_files. apply flat_map_app. Qed.

Lemma walked_files_concat (ls : list (list (string * list string * list string)))
    (rf : string * string) :
  rf ∈ walked_files (concat ls) ↔ ∃ l, l ∈ ls ∧ rf ∈ walked_files l.
Proof.
  induction ls as [|l ls IH].
  - split; [intros H; inversion H|intros (l & Hl & _); inversion Hl].
  - cbn [concat]. rewrite walked_files_app, elem_of_app, IH. split.
    + intros [H|(l' & Hl' & H)].
      * exists l. split; [apply list_elem_of_here|exact H].
      * exists l'. split; [now apply list_elem_of_further|exact H].
    + intros (l' & [->|Hl']%elem_of_cons & H); [now left|right; eauto].
Qed.

(** The files of a walk: those of the subdirectories, then those of
    the directory. *)
Lemma walked_step (fuel : nat) (m : gmap string inode) (top : string)
    (rf : string * string) :
  rf ∈ walked_files (walk_from (S fuel) m top)
  ↔ m !! top = Some Dir
    ∧ ((∃ d, d ∈ Os.scandir m top ∧ m !! Os.join top d = Some Dir
             ∧ rf ∈ walked_files (walk_from fuel m (Os.join top d)))
       ∨ (rf.1 = top ∧ rf.2 ∈ Os.scandir m top
          ∧ m !! Os.join top rf.2 ≠ Some Dir)).
Proof.
  cbn [walk_from]. case_bool_decide as Htop.
  - rewrite walked_files_app, elem_of_app, walked_files_concat.
    split.
    + intros [(l & Hl & Hrf)|Hrf]; (split; [exact Htop|]).
      * left. apply list_elem_of_fmap in Hl as (d & -> & Hd).
        apply list_elem_of_filter in Hd as [Hdir Hd]. eauto.
      * right. unfold walked_files in Hrf. cbn [flat_map] in Hrf.
        rewrite app_nil_r in Hrf.
        apply list_elem_of_fmap in Hrf as (fil & -> & Hfil).
        apply sorted_elem_iff, list_elem_of_filter in Hfil as [Hnd Hfil].
        auto.
    + intros (_ & [(d & Hd & Hdir & Hrf)|(E & Hfil & Hnd)]).
      * left. exists (walk_from fuel m (Os.join top d)). split; [|exact Hrf].
        apply list_elem_of_fmap. exists d. split; [reflexivity|].
        now apply list_elem_of_filter.
      * right. unfold walked_files. cbn [flat_map]. rewrite app_nil_r.
        apply list_elem_of_fmap. exists rf.2.
        split; [destruct rf; simpl in *; congruence|].
        apply sorted_elem_iff, list_elem_of_filter. auto.
  - split; [intros H; inversion H|intros [H _]; contradiction].
Qed.

Lemma grown_refl (m : gmap string inode) : grown m m.
Proof. split; [reflexivity|auto]. Qed.

Lemma grown_trans (m1 m2 m3 : gmap string inode) :
  grown m1 m2 → grown m2 m3 → grown m1 m3.
Proof.
  intros [S12 D12] [S23 D23]. split; [etransitivity; eassumption|auto].
Qed.

Lemma staged_grown (col : Collection.t) (m m' : gmap string inode) :
  staged_from col m m' → grown m m'.
Proof.
  intros H. split; [eapply staged_from_subseteq, H|].
  intros p Hp. now apply (staged_dirs col m m' p H).
Qed.

(** A walk of the tree after files were added finds the files it
    found before, ... *)
Lemma walk_mono (m m' : gmap string inode) (fuel : nat) (top : string)
    (rf : string * string) :
  grown m m' →
  rf ∈ walked_files (walk_from fuel m top) →
  rf ∈ walked_files (walk_from fuel m' top).
Proof.
  intros [Hsub Hdirs]. revert top.
  induction fuel as [|fuel IH]; intros top; [intros H; inversion H|].
  rewrite !walked_step.
  assert (∀ p x, m !! p = Some x → m' !! p = Some x) as Hup
    by (intros p x Hp; eapply lookup_weaken; eassumption).
  assert (∀ d, d ∈ Os.scandir m top → d ∈ Os.scandir m' top) as Hscan.
  { intros d. rewrite !scandir_spec. intros (N1 & N2 & [x Hx]). eauto. }
  intros (Htop & [(d & Hd & Hdir & Hrf)|(E & Hfil & Hnd)]).
  - split; [auto|]. left. exists d. auto.
  - split; [auto|]. right. split; [exact E|]. split; [auto|].
    intros Hd. apply Hnd. auto.
Qed.

(** ... and of the files that were there before, no other. *)
Lemma walk_back (m m' : gmap string inode) (fuel : nat) (top : string)
    (rf : string * string) :
  grown m m' →
  rf ∈ walked_files (walk_from fuel m' top) →
  is_Some (m !! Os.join rf.1 rf.2) →
  rf ∈ walked_files (walk_from fuel m top).
Proof.
  intros [Hsub Hdirs] Hrf Hold. revert top Hrf.
  induction fuel as [|fuel IH]; intros top; [intros H; inversion H|].
  rewrite !walked_step.
  assert (∀ p x, m !! p = Some x → m' !! p = Some x) as Hup
    by (intros p x Hp; eapply lookup_weaken; eassumption).
  intros (Htop & [(d & Hd & Hdir & Hrf)|(E & Hfil & Hnd)]).
  - split; [auto|]. left. exists d.
    apply scandir_spec in Hd as (N1 & N2 & _).
    split; [|auto]. apply scandir_spec. eauto.
  - split; [auto|]. right. split; [exact E|].
    apply scandir_spec in Hfil as (N1 & N2 & _). subst top.
    split; [now apply scandir_spec|].
    intros Hd. apply Hnd. auto.
Qed.

(** What the walk lists as a file is a name in its directory, and a
    regular file. *)
Lemma walked_file_entry (fuel : nat) (m : gmap string inode) (top : string)
    (rf : string * string) :
  rf ∈ walked_files (walk_from fuel m top) →
  rf.2 ≠ "" ∧ Os.has_slash rf.2 = false
  ∧ ∃ data, m !! Os.join rf.1 rf.2 = Some (File data).
Proof.
  revert top. induction fuel as [|fuel IH]; intros top; [intros H; inversion H|].
  rewrite walked_step.
  intros (Htop & [(d & Hd & Hdir & Hrf)|(E & Hfil & Hnd)]); [eauto|].
  apply scandir_spec in Hfil as (N1 & N2 & [x Hx]). subst top.
  split; [exact N1|]. split; [exact N2|].
  destruct x as [data|]; [eauto|contradiction].
Qed.

Section Coverage.

Variable col : Collection.t.
Variable Inv : World → Prop.
Variable P : string * string → World → Prop.

Hypothesis Inv_step :
  ∀ root fil w, Inv w → Inv (import_file col root fil w).2.
Hypothesis P_step :
  ∀ rf root fil w, Inv w → P rf w → P rf (import_file col root fil w).2.
Hypothesis P_done :
  ∀ root fil w w',
    Inv w → import_file col root fil w = (Ok tt, w') → P (root, fil) w'.

Lemma kept_refl (w : World) : kept Inv P w w.
Proof. split; [apply grown_refl|auto]. Qed.

Lemma kept_trans (w1 w2 w3 : World) :
  kept Inv P w1 w2 → kept Inv P w2 w3 → kept Inv P w1 w3.
Proof.
  intros [G12 K12] [G23 K23]. split; [eapply grown_trans; eassumption|].
  intros I1. destruct (K12 I1) as [I2 P12]. destruct (K23 I2) as [I3 P23].
  auto.
Qed.

Lemma import_file_kept (root fil : string) (w : World) :
  kept Inv P w (import_file col root fil w).2.
Proof.
  split; [apply (staged_grown col), import_file_stages|].
  intros I. split; [now apply Inv_step|]. intros rf. now apply P_step.
Qed.

Lemma import_dir_kept (x : string * list string * list string) (w : World) :
  kept Inv P w (import_dir col x w).2.
Proof.
  destruct x as [[root dirs] files]. unfold import_dir.
  apply (for_each_keeps (kept Inv P)).
  - apply kept_refl.
  - apply kept_trans.
  - intros fil s. apply import_file_kept.
Qed.

Lemma walk_kept (fuel : nat) (top : string) (w : World) :
  kept Inv P w (Os.for_walk_from fuel top (import_dir col) w).2.
Proof.
  apply (for_walk_keeps (kept Inv P) (import_dir col)).
  - apply kept_refl.
  - apply kept_trans.
  - apply import_dir_kept.
Qed.

(** An inner loop that came to its end has imported every file of
    its list. *)
Lemma files_cover (root : string) (files : list string) (w w' : World) :
  Inv w →
  for_each files (λ fil, import_file col root fil) w = (Ok tt, w') →
  ∀ fil, fil ∈ files → P (root, fil) w'.
Proof.
  revert w. induction files as [|f files IH]; intros w I Hrun fil Hin.
  - inversion Hin.
  - cbn [for_each] in Hrun.
    apply bind_Ok_inv in Hrun as ([] & w1 & Hstep & Hrest).
    pose proof (Inv_step root f w I) as I1. rewrite Hstep in I1.
    apply elem_of_cons in Hin as [->|Hin]; [|eapply IH; eassumption].
    pose proof (P_done root f w w1 I Hstep) as Hp.
    pose proof (for_each_keeps (kept Inv P)
                  (λ fil, import_file col root fil) files
                  kept_refl kept_trans
                  (λ x s, import_file_kept root x s) w1) as [_ K].
    rewrite Hrest in K. now apply K.
Qed.

(** A walk that came to its end has imported every file that the tree
    held when the walk began, also where files were added to the tree
    while the walk went on. *)
Lemma walk_covers (fuel : nat) (top : string) (m : gmap string inode)
    (w w' : World) :
  grown m (fs w) → Inv w →
  Os.for_walk_from fuel top (import_dir col) w = (Ok tt, w') →
  ∀ rf, rf ∈ walked_files (walk_from fuel m top) → P rf w'.
Proof.
  revert top w w'.
  induction fuel as [|fuel IH]; intros top w w' G I Hrun rf Hrf;
    [inversion Hrf|].
  apply walked_step in Hrf as (Htop & Hrf).
  assert (fs w !! top = Some Dir) as Htop'
    by (eapply lookup_weaken; [exact Htop|apply (proj1 G)]).
  cbn [Os.for_walk_from] in Hrun.
  rewrite bool_decide_eq_true_2 in Hrun by exact Htop'.
  apply bind_Ok_inv in Hrun as ([] & wa & Hdirs & Hbody).
  set (F := λ d, Os.for_walk_from fuel (Os.join top d) (import_dir col)) in *.
  assert (∀ ds s, kept Inv P s (for_each ds F s).2) as Hkeep.
  { intros ds. apply (for_each_keeps (kept Inv P)).
    - apply kept_refl.
    - apply kept_trans.
    - intros d s. apply walk_kept. }
  pose proof (Hkeep (filter (λ n, fs w !! Os.join top n = Some Dir)
                       (Os.scandir (fs w) top)) w) as [Ga Ka].
  rewrite Hdirs in Ga, Ka. cbn [snd] in Ga, Ka.
  destruct (Ka I) as [Ia Pa].
  destruct Hrf as [(d & Hd & Hdir & Hrf)|(E & Hfil & Hnd)].
  - assert (d ∈ filter (λ n, fs w !! Os.join top n = Some Dir)
                  (Os.scandir (fs w) top)) as Hin.
    { apply list_elem_of_filter. split.
      - eapply lookup_weaken; [exact Hdir|apply (proj1 G)].
      - apply scandir_spec in Hd as (N1 & N2 & [x Hx]).
        apply scandir_spec. split; [exact N1|]. split; [exact N2|].
        exists x. eapply lookup_weaken; [exact Hx|apply (proj1 G)]. }
    assert (∀ ds s s', d ∈ ds → for_each ds F s = (Ok tt, s') →
                       grown m (fs s) → Inv s → P rf s') as Hsub.
    { induction ds as [|d0 ds IHds]; intros s s' Hd0 Hrun Gs Is;
        [inversion Hd0|].
      cbn [for_each] in Hrun.
      apply bind_Ok_inv in Hrun as ([] & s1 & Hstep & Hrest).
      pose proof (walk_kept fuel (Os.join top d0) s) as [G1 K1].
      fold (F d0) in G1, K1. rewrite Hstep in G1, K1. cbn [snd] in G1, K1.
      destruct (K1 Is) as [I1 P1].
      apply elem_of_cons in Hd0 as [E|Hd0].
      + subst d0.
        pose proof (IH (Os.join top d) s s1 Gs Is Hstep rf Hrf) as Hp.
        destruct (Hkeep ds s1) as [_ K]. rewrite Hrest in K. now apply K.
      + apply (IHds s1 s' Hd0 Hrest); [|exact I1].
        eapply grown_trans; eassumption. }
    pose proof (Hsub _ w wa Hin Hdirs G I) as Hwa.
    pose proof (import_dir_kept
                  (top, filter (λ n, fs w !! Os.join top n = Some Dir)
                          (Os.scandir (fs w) top),
                   filter (λ n, fs w !! Os.join top n ≠ Some Dir)
                     (Os.scandir (fs w) top)) wa) as [_ Kb].
    rewrite Hbody in Kb. now apply Kb.
  - destruct rf as [root fil]. cbn [fst snd] in E, Hfil, Hnd. subst root.
    unfold import_dir in Hbody.
    apply (files_cover top _ wa w' Ia Hbody).
    apply sorted_elem_iff, list_elem_of_filter. split.
    + intros Hd. apply Hnd. now apply (proj2 G).
    + apply scandir_spec in Hfil as (N1 & N2 & [x Hx]).
      apply scandir_spec. split; [exact N1|]. split; [exact N2|].
      exists x. eapply lookup_weaken; [exact Hx|apply (proj1 G)].
Qed.

End Coverage.

(** ** Importing twice, again *)

(** One step of the import settles its file. *)
Lemma import_file_settles (col : Collection.t) (root fil : string)
    (w w' : World) :
  import_file col root fil w = (Ok tt, w') → settled col (fs w') (root, fil).
Proof.
  intros Hstep.
  apply (import_settles col [(root, fil)] w w'); [|apply list_elem_of_here].
  cbn [for_each fst snd]. unfold bind. rewrite Hstep. reflexivity.
Qed.

(** A walk that came to its end has settled every file of the tree it
    began with. *)
Lemma import_walk_settles (col : Collection.t) (fuel : nat) (top : string)
    (w w' : World) :
  Os.for_walk_from fuel top (import_dir col) w = (Ok tt, w') →
  ∀ rf, rf ∈ walked_files (walk_from fuel (fs w) top) → settled col (fs w') rf.
Proof.
  intros Hrun.
  apply (walk_covers col (λ _, True) (λ rf s, settled col (fs s) rf))
    with (w := w); auto using grown_refl.
  - intros rf root fil s _ Hs.
    apply (settled_mono col (fs s)); [|exact Hs].
    apply (staged_from_subseteq col), import_file_stages.
  - intros root fil s s' _. apply import_file_settles.
Qed.

Lemma extension_shape (fil : string) : is_extension (get_file_extension fil).
Proof.
  pose proof (extension_no_slash fil) as Hsl.
  unfold get_file_extension, Os.splitext in *.
  destruct (Os.from_last_dot _) as [e|] eqn:E; [|now left].
  right. apply from_last_dot_Some in E as [_ (rest & -> & Hrest)].
  exists rest. split; [reflexivity|]. split; [exact Hrest|].
  simpl in Hsl. exact Hsl.
Qed.

Lemma staged_named_refl (col : Collection.t) (m : gmap string inode) :
  staged_named col m m.
Proof. intros p. now left. Qed.

Lemma staged_named_trans (col : Collection.t) (m1 m2 m3 : gmap string inode) :
  staged_named col m1 m2 → staged_named col m2 m3 → staged_named col m1 m3.
Proof.
  intros H12 H23 p.
  destruct (H23 p) as [E23|(N2 & k & ext & data & Hnew)].
  - destruct (H12 p) as [E12|(N1 & k & ext & data & -> & Hp & Hrest)].
    + left. congruence.
    + right. split; [exact N1|]. exists k, ext, data.
      split; [reflexivity|]. split; [congruence|exact Hrest].
  - right. split; [|now exists k, ext, data].
    destruct (H12 p) as [E12|(N1 & _)]; congruence.
Qed.

Lemma import_file_stages_named (col : Collection.t) (root fil : string)
    (w : World) :
  staged_named col (fs w) (fs (import_file col root fil w).2).
Proof.
  destruct (fs w !! Os.join root fil) as [[data|]|] eqn:Hf.
  - destruct (default_key data) as (k & Hk & Hlow & Hne).
    rewrite (import_file_readable col root fil w data k Hf Hk).
    destruct (_ || _); [apply staged_named_refl|].
    destruct (fs w !! Os.join _ (k +:+ _)) eqn:Ht; [apply staged_named_refl|].
    intros p. cbn [snd fs printed set_fs logged].
    destruct (decide (p = Os.join (Collection.get_airlock col)
                             (k +:+ get_file_extension fil))) as [->|Hp].
    + right. split; [exact Ht|].
      exists k, (get_file_extension fil), data.
      split; [reflexivity|]. split; [apply lookup_insert_eq|].
      split; [exact Hk|apply extension_shape].
    + left. now apply lookup_insert_ne.
  - destruct (import_file_unreadable col root fil w) as (e & ->);
      [congruence|apply staged_named_refl].
  - destruct (import_file_unreadable col root fil w) as (e & ->);
      [congruence|apply staged_named_refl].
Qed.

Lemma import_files_stages_named (col : Collection.t) (src : string) (w : World) :
  staged_named col (fs w) (fs (import_files col src w).2).
Proof.
  unfold import_files, Os.for_walk.
  apply (for_walk_keeps (λ w w', staged_named col (fs w) (fs w'))).
  - intros s. apply staged_named_refl.
  - intros s1 s2 s3. apply staged_named_trans.
  - intros [[root dirs] files] s.
    apply (for_each_keeps (λ w w', staged_named col (fs w) (fs w'))).
    + intros s'. apply staged_named_refl.
    + intros s1 s2 s3. apply staged_named_trans.
    + intros fil s'. apply import_file_stages_named.
Qed.

Lemma lower_hex_no_dot (k : string) :
  all_chars is_lower_hex k = true → no_dot k = true.
Proof.
  unfold no_dot. induction k as [|c k IH]; [reflexivity|]. simpl.
  intros [Hc Hk]%andb_prop. rewrite (IH Hk), andb_true_r.
  unfold Py.dot. destruct (Ascii.eqb_spec c ".") as [->|_]; [discriminate Hc|].
  reflexivity.
Qed.

Lemma is_extension_no_slash (ext : string) :
  is_extension ext → Os.has_slash ext = false.
Proof. intros [->|(rest & -> & _ & Hsl)]; [reflexivity|]. simpl. exact Hsl. Qed.

Lemma key_name_no_slash (k ext : string) :
  all_chars is_lower_hex k = true → is_extension ext →
  Os.has_slash (k +:+ ext) = false.
Proof.
  intros Hk Hext.
  now rewrite has_slash_app, lower_hex_no_slash, is_extension_no_slash.
Qed.

(** A key and an extension are told apart in the name they make. *)
Lemma key_ext_split (k k' ext ext' : string) :
  no_dot k = true → no_dot k' = true → is_extension ext → is_extension ext' →
  k +:+ ext = k' +:+ ext' → k = k' ∧ ext = ext'.
Proof.
  unfold no_dot. revert k'.
  induction k as [|c k IH]; intros [|c' k'] Hk Hk' Hext Hext' E.
  - now rewrite !sapp_nil_l in E.
  - rewrite sapp_nil_l, sapp_cons in E. simpl in Hk'.
    apply andb_prop in Hk' as [Hc' _]. apply negb_true_iff in Hc'.
    destruct Hext as [->|(rest & -> & _)]; [discriminate E|].
    injection E as <- _. now rewrite Ascii.eqb_refl in Hc'.
  - rewrite sapp_nil_l, sapp_cons in E. simpl in Hk.
    apply andb_prop in Hk as [Hc _]. apply negb_true_iff in Hc.
    destruct Hext' as [->|(rest & -> & _)]; [discriminate E|].
    injection E as -> _. now rewrite Ascii.eqb_refl in Hc.
  - rewrite !sapp_cons in E. injection E as -> E. simpl in Hk, Hk'.
    apply andb_prop in Hk as [_ Hk]. apply andb_prop in Hk' as [_ Hk'].
    destruct (IH k' Hk Hk' Hext Hext' E) as [-> ->]. now split.
Qed.

Lemma basename_whole (p : string) :
  Os.has_slash p = false → Os.basename p = p.
Proof.
  destruct p as [|c p]; [reflexivity|]. simpl.
  intros [Hc Hp]%orb_false_elim. now rewrite Hp, Hc.
Qed.

Lemma from_last_dot_key (k rest : string) :
  no_dot k = true → no_dot rest = true →
  Os.from_last_dot (k +:+ String Py.dot rest) = Some (String Py.dot rest).
Proof.
  unfold no_dot. intros Hk Hrest. induction k as [|c k IH].
  - rewrite sapp_nil_l. cbn [Os.from_last_dot].
    rewrite (no_dot_from_last_dot rest Hrest). now rewrite Ascii.eqb_refl.
  - rewrite sapp_cons. cbn [Os.from_last_dot]. simpl in Hk.
    apply andb_prop in Hk as [_ Hk]. now rewrite (IH Hk).
Qed.

Lemma sapp_nil_r (a : string) : a +:+ "" = a.
Proof. induction a as [|c a IH]; [reflexivity|]. rewrite sapp_cons. now f_equal. Qed.

(** The extension of the name of a staged file is the extension it
    was staged with. *)
Lemma extension_of_key_name (k ext : string) :
  k ≠ "" → all_chars is_lower_hex k = true → is_extension ext →
  get_file_extension (k +:+ ext) = ext.
Proof.
  intros Hne Hk Hext. unfold get_file_extension, Os.splitext.
  rewrite basename_whole by now apply key_name_no_slash.
  assert (Os.strip_dots (k +:+ ext) = k +:+ ext) as ->.
  { destruct k as [|c k]; [congruence|]. rewrite sapp_cons. simpl in Hk |- *.
    apply andb_prop in Hk as [Hc _]. unfold Py.dot.
    destruct (Ascii.eqb_spec c ".") as [->|_]; [discriminate Hc|reflexivity]. }
  pose proof (lower_hex_no_dot k Hk) as Hnd.
  destruct Hext as [->|(rest & -> & Hrest & _)].
  - rewrite sapp_nil_r. now rewrite (no_dot_from_last_dot k Hnd).
  - now rewrite from_last_dot_key.
Qed.

Lemma ends_with_slash_has (a : string) :
  Os.ends_with_slash a = true → Os.has_slash a = true.
Proof.
  induction a as [|c a IH]; [discriminate|]. simpl.
  destruct a as [|c' a]; [intros ->; reflexivity|].
  intros H. rewrite (IH H). apply orb_true_r.
Qed.

(** The name that [join] adds is the basename of what it makes. *)
Lemma basename_join (a name : string) :
  name ≠ "" → Os.has_slash name = false → Os.basename (Os.join a name) = name.
Proof.
  intros Hne Hsl. rewrite join_relative by now apply no_slash_relative.
  unfold Os.dir_prefix.
  destruct (bool_decide (a = "")) eqn:Ea.
  { apply bool_decide_eq_true in Ea. subst a. cbn [orb]. rewrite sapp_nil_l.
    now apply basename_whole. }
  cbn [orb].
  assert (∀ pre, Os.ends_with_slash pre = true →
                 Os.basename (pre +:+ name) = name) as Hpre.
  { induction pre as [|c pre IH]; [discriminate|]. intros Hend.
    rewrite sapp_cons. cbn [Os.basename]. rewrite has_slash_app, Hsl, orb_false_r.
    destruct pre as [|c' pre].
    - simpl in Hend. rewrite sapp_nil_l. cbn [Os.has_slash]. now rewrite Hend.
    - assert (Os.ends_with_slash (String c' pre) = true) as Hend' by exact Hend.
      rewrite (ends_with_slash_has _ Hend'). now apply IH. }
  destruct (Os.ends_with_slash a) eqn:Eend; [now apply Hpre|].
  apply Hpre. rewrite ends_with_slash_app by discriminate. reflexivity.
Qed.

(** A file that an import has staged needs no copy when it is found in
    a walk: its place in the airlock is its own. *)
Lemma staged_file_is_settled (col : Collection.t) (m0 m1 : gmap string inode)
    (rf : string * string) (data : list byte) :
  staged_named col m0 m1 →
  rf.2 ≠ "" → Os.has_slash rf.2 = false →
  m1 !! Os.join rf.1 rf.2 = Some (File data) →
  m0 !! Os.join rf.1 rf.2 = None →
  settled col m1 rf.
Proof.
  intros Hst Hne Hsl Hf Hold.
  destruct (Hst (Os.join rf.1 rf.2))
    as [E|(_ & k & ext & data' & Ep & Hp & Hk & Hext)]; [congruence|].
  assert (data' = data) as -> by congruence.
  destruct (default_key data) as (k' & Hk' & Hlow & Hkne).
  assert (k' = k) as -> by congruence.
  assert (rf.2 = k +:+ ext) as Hname.
  { rewrite <- (basename_join rf.1 rf.2 Hne Hsl), Ep.
    apply basename_join; [|now apply key_name_no_slash].
    destruct k; [congruence|discriminate]. }
  exists data, k. split; [exact Hf|]. split; [exact Hk|]. right.
  rewrite Hname, extension_of_key_name by assumption.
  rewrite <- Ep, Hf. eauto.
Qed.

(** The walk of a tree whose files all need no copy: the import goes
    through the files of the tree as they are, one after the other. *)
Lemma import_walk_settled (col : Collection.t) (fuel : nat) (top : string)
    (w : World) :
  (∀ rf, rf ∈ walked_files (walk_from fuel (fs w) top) →
         settled col (fs w) rf) →
  Os.for_walk_from fuel top (import_dir col) w
  = for_each (walked_files (walk_from fuel (fs w) top))
      (λ rf, import_file col rf.1 rf.2) w.
Proof.
  revert top w. induction fuel as [|fuel IH]; intros top w Hall; [reflexivity|].
  pose proof Hall as Hall'. setoid_rewrite walked_step in Hall'.
  cbn [Os.for_walk_from walk_from].
  case_bool_decide as Htop; [|reflexivity].
  set (dirs := filter (λ n, fs w !! Os.join top n = Some Dir)
                 (Os.scandir (fs w) top)) in *.
  set (nondirs := filter (λ n, fs w !! Os.join top n ≠ Some Dir)
                    (Os.scandir (fs w) top)) in *.
  set (F := λ d, Os.for_walk_from fuel (Os.join top d) (import_dir col)).
  set (W := λ d, walk_from fuel (fs w) (Os.join top d)).
  set (imp := λ rf : string * string, import_file col rf.1 rf.2).
  assert (∀ ds s, fs s = fs w → (∀ d, d ∈ ds → d ∈ dirs) →
            for_each ds F s
            = for_each (walked_files (concat (map W ds))) imp s
            ∧ fs (for_each ds F s).2 = fs w) as Hsub.
  { induction ds as [|d ds IHds]; intros s Hs Hds; [now split|].
    assert (d ∈ dirs) as Hd by apply Hds, list_elem_of_here.
    apply list_elem_of_filter in Hd as [Hdir Hd].
    assert (∀ rf, rf ∈ walked_files (W d) → settled col (fs s) rf) as Hset.
    { intros rf Hrf. rewrite Hs. apply Hall'. split; [exact Htop|]. left.
      exists d. auto. }
    assert (F d s = for_each (walked_files (W d)) imp s) as EF.
    { unfold F, W. rewrite <- Hs. apply IH. intros rf Hrf. apply Hset.
      unfold W. rewrite <- Hs. exact Hrf. }
    pose proof (import_of_settled col (walked_files (W d)) s Hset) as Erun.
    fold imp in Erun.
    cbn [for_each map concat]. rewrite walked_files_app, for_each_app.
    unfold bind. rewrite EF, Erun.
    apply IHds; [exact Hs|].
    intros d' Hd'. apply Hds. now apply list_elem_of_further. }
  destruct (Hsub dirs w eq_refl (λ d H, H)) as [Edirs Hfs].
  rewrite walked_files_app, for_each_app. unfold bind at 1 2.
  rewrite Edirs in Hfs |- *.
  destruct (for_each (walked_files (concat (map W dirs))) imp w)
    as [[[]|e] wa]; [|reflexivity].
  unfold walked_files at 1. cbn [flat_map]. rewrite app_nil_r.
  rewrite for_each_map. reflexivity.
Qed.

(** C2, amended. A first import that came to its end has settled every
    file that the source tree held: its extension is ignored, or its
    key is known, or something is at its target path in the airlock,
    the path [<airlock>/<key><extension>]; where nothing was at that
    path before, a regular file with the key of the file is there now,
    so one content under two extensions is staged twice.  A second
    import of the same directory then comes to its end as well; it
    copies nothing and leaves the file system as the first left it,
    also where the airlock lies inside the source directory; and it
    prints one line for each file whose extension is ignored or whose
    key is known, and nothing for a file whose target path is taken. *)
Theorem second_import_copies_nothing (col : Collection.t) (src : string)
    (w0 w1 : World) :
  import_files col src w0 = (Ok tt, w1) →
  (∀ rf, rf ∈ source_files src w0 → placed col (fs w0) (fs w1) rf)
  ∧ ∃ w2 lines,
      import_files col src w1 = (Ok tt, w2)
      ∧ fs w2 = fs w1
      ∧ stdout w2 = stdout w1 ++ lines
      ∧ lines ≡ₚ ignored_lines col (fs w1) (source_files src w1).
Proof.
  intros Hrun.
  pose proof (import_files_stages col src w0) as Hst.
  pose proof (import_files_stages_named col src w0) as Hnamed.
  rewrite Hrun in Hst, Hnamed. cbn [snd] in Hst, Hnamed.
  pose proof (staged_grown col _ _ Hst) as Hg.
  assert (∀ rf, rf ∈ source_files src w0 → settled col (fs w1) rf) as Hsettled.
  { change (import_files col src w0)
      with (Os.for_walk_from (S (size (fs w0))) src (import_dir col) w0) in Hrun.
    exact (import_walk_settles col _ src w0 w1 Hrun). }
  split.
  - intros rf Hrf. destruct (Hsettled rf Hrf) as (data & k & Hf & Hk & Hcase).
    exists data, k. split; [exact Hf|]. split; [exact Hk|].
    destruct Hcase as [Hknown|Htaken]; [now left|right].
    split; [exact Htaken|]. intros Hfree.
    destruct (Hnamed (Os.join (Collection.get_airlock col)
                        (k +:+ get_file_extension rf.2)))
      as [E|(_ & k' & ext' & data' & Ep & Hp & Hk' & Hext')].
    { rewrite E, Hfree in Htaken. now destruct Htaken. }
    destruct (default_key data) as (k0 & Hk0 & Hlow & Hkne).
    assert (k0 = k) as -> by congruence.
    destruct (default_key data') as (k1 & Hk1 & Hlow' & Hkne').
    assert (k1 = k') as -> by congruence.
    apply join_inj in Ep.
    + apply key_ext_split in Ep as [-> _];
        auto using lower_hex_no_dot, extension_shape. eauto.
    + apply no_slash_relative, key_name_no_slash;
        auto using extension_shape.
    + now apply no_slash_relative, key_name_no_slash.
  - assert (∀ rf, rf ∈ source_files src w1 → settled col (fs w1) rf) as Hall.
    { intros rf Hrf.
      destruct (walked_file_entry _ _ _ _ Hrf) as (Hne & Hsl & data & Hf).
      destruct (fs w0 !! Os.join rf.1 rf.2) as [x|] eqn:Hold.
      - apply Hsettled. unfold source_files in Hrf |- *.
        apply (walk_back (fs w0)) in Hrf; [|exact Hg|eauto].
        rewrite (walk_fuel (fs w0) _ (S (size (fs w1))) ∅); [exact Hrf|..].
        + apply empty_subseteq.
        + intros a Ha. now apply elem_of_empty in Ha.
        + rewrite size_empty. lia.
        + pose proof (subseteq_size _ _ (subseteq_dom _ _ (proj1 Hg))) as H.
          rewrite !size_dom in H. rewrite size_empty. lia.
      - now apply (staged_file_is_settled col (fs w0) (fs w1) rf data). }
    change (import_files col src w1)
      with (Os.for_walk_from (S (size (fs w1))) src (import_dir col) w1).
    rewrite (import_walk_settled col _ src w1 Hall).
    fold (source_files src w1).
    rewrite (import_of_settled col (source_files src w1) w1 Hall).
    eexists _, _. split; [reflexivity|]. cbn [fs stdout].
    split; [reflexivity|]. split; reflexivity.
Qed.

Lemma second_import_copies_nothing_witness :
  let COL := {| Collection.directory := "col";
                Collection.blacklist := {[ "" ]};
                Collection.whitelist := {[ "" ]} |} in
  let w0 := (Collection.__init__ "col" demo_world).2 in
  let w1 := (import_files COL "src" w0).2 in
  (∀ rf, rf ∈ source_files "src" w0 → placed COL (fs w0) (fs w1) rf)
  ∧ ∃ w2 lines,
      import_files COL "src" w1 = (Ok tt, w2)
      ∧ fs w2 = fs w1
      ∧ stdout w2 = stdout w1 ++ lines
      ∧ lines ≡ₚ ignored_lines COL (fs w1) (source_files "src" w1).
Proof.
  intros COL w0 w1.
  apply (second_import_copies_nothing COL "src" w0 w1).
  vm_compute. reflexivity.
Defined.

(** ** What an import hashes *)

(** One step of the import hashes its file, whether it then returns
    or raises, and prints at most one line. *)
Lemma import_file_log (col : Collection.t) (root fil : string) (w : World) :
  let w' := (import_file col root fil w).2 in
  hashed w' = hashed w ++ [Os.join root fil]
  ∧ (length (stdout w') ≤ length (stdout w) + 1)%nat.
Proof.
  cbn zeta. destruct (fs w !! Os.join root fil) as [[data|]|] eqn:Hf.
  - destruct (default_key data) as (k & Hk & _).
    rewrite (import_file_readable col root fil w data k Hf Hk).
    destruct (_ || _).
    + cbn [snd hashed stdout printed logged]. rewrite length_app. simpl.
      split; [reflexivity|lia].
    + destruct (fs w !! Os.join _ (k +:+ _));
        cbn [snd hashed stdout printed set_fs logged];
        rewrite ?length_app; simpl; split; reflexivity || lia.
  - destruct (import_file_unreadable col root fil w) as (e & ->); [congruence|].
    cbn [snd hashed stdout logged]. split; [reflexivity|lia].
  - destruct (import_file_unreadable col root fil w) as (e & ->); [congruence|].
    cbn [snd hashed stdout logged]. split; [reflexivity|lia].
Qed.

Lemma import_files_log (col : Collection.t) (src : string) (w : World) :
  let w' := (import_files col src w).2 in
  ∃ new, hashed w' = hashed w ++ new
         ∧ (length (stdout w') ≤ length (stdout w) + length new)%nat.
Proof.
  cbn zeta. unfold import_files, Os.for_walk.
  set (R := λ w w' : World,
         ∃ new, hashed w' = hashed w ++ new
                ∧ (length (stdout w') ≤ length (stdout w) + length new)%nat).
  assert (∀ s, R s s) as Rrefl.
  { intros s. exists []. rewrite app_nil_r. split; [reflexivity|simpl; lia]. }
  assert (∀ s1 s2 s3, R s1 s2 → R s2 s3 → R s1 s3) as Rtrans.
  { intros s1 s2 s3 (l1 & E1 & L1) (l2 & E2 & L2). exists (l1 ++ l2).
    rewrite E2, E1, <- app_assoc, length_app. split; [reflexivity|lia]. }
  apply (for_walk_keeps R); [exact Rrefl|exact Rtrans|].
  intros [[root dirs] files] s.
  apply (for_each_keeps R); [exact Rrefl|exact Rtrans|].
  intros fil s'. destruct (import_file_log col root fil s') as [E L].
  exists [Os.join root fil]. split; [exact E|exact L].
Qed.

(** X15. An import that came to its end has opened and hashed every
    file that the source tree held when it began, also a file that it
    then ignored or found staged, and whatever the order in which the
    directories list their entries; it printed at most one line for
    each file that it hashed. *)
Theorem import_hashes_every_file (col : Collection.t) (src : string)
    (w w' : World) :
  import_files col src w = (Ok tt, w') →
  ∃ new, hashed w' = hashed w ++ new
         ∧ (∀ rf, rf ∈ source_files src w → Os.join rf.1 rf.2 ∈ new)
         ∧ (length (stdout w') ≤ length (stdout w) + length new)%nat.
Proof.
  intros Hrun.
  destruct (import_files_log col src w) as (new & Enew & Hlen).
  rewrite Hrun in Enew, Hlen. cbn [snd] in Enew, Hlen.
  exists new. split; [exact Enew|]. split; [|exact Hlen].
  change (import_files col src w)
    with (Os.for_walk_from (S (size (fs w))) src (import_dir col) w) in Hrun.
  intros rf Hrf.
  assert (∃ l, hashed w' = hashed w ++ l ∧ Os.join rf.1 rf.2 ∈ l)
    as (l & El & Hin).
  { revert rf Hrf.
    apply (walk_covers col
             (λ s, ∃ l, hashed s = hashed w ++ l)
             (λ rf s, ∃ l, hashed s = hashed w ++ l ∧ Os.join rf.1 rf.2 ∈ l))
      with (w := w) (w' := w'); [..|apply grown_refl| |exact Hrun].
    - intros root fil s (l & El).
      exists (l ++ [Os.join root fil]).
      rewrite (proj1 (import_file_log col root fil s)), El.
      now rewrite app_assoc.
    - intros rf root fil s _ (l & El & Hin).
      exists (l ++ [Os.join root fil]).
      rewrite (proj1 (import_file_log col root fil s)), El.
      split; [now rewrite app_assoc|]. apply elem_of_app. now left.
    - intros root fil s s' (l & El) Hstep.
      exists (l ++ [Os.join root fil]).
      pose proof (proj1 (import_file_log col root fil s)) as E.
      rewrite Hstep in E. cbn [snd] in E. rewrite E, El.
      split; [now rewrite app_assoc|]. apply elem_of_app. right.
      apply list_elem_of_here.
    - exists []. now rewrite app_nil_r. }
  rewrite Enew in El. apply app_inv_head in El. now subst l.
Qed.

Lemma import_hashes_every_file_witness :
  let col := {| Collection.directory := "col";
                Collection.blacklist := {[ "" ]};
                Collection.whitelist := {[ "" ]} |} in
  let w := (Collection.__init__ "col" demo_world).2 in
  let w' := (import_files col "src" w).2 in
  ∃ new, hashed w' = hashed w ++ new
         ∧ (∀ rf, rf ∈ source_files "src" w → Os.join rf.1 rf.2 ∈ new)
         ∧ (length (stdout w') ≤ length (stdout w) + length new)%nat.
Proof.
  intros col w w'. apply (import_hashes_every_file col "src" w w').
  vm_compute. reflexivity.
Defined.
